(** * Prompt-template analysis: placeholder and component identification

    A shallow embedding of [code/placeholder_identification.py] and
    [code/component_identification.py].

    Conventions of the embedding.
    - A Python [str] is a [string]; its characters are the code points
      below 256, on which the character tables below ([lower], [\w],
      whitespace) agree with Python's.  Texts decoded from JSON may hold any
      code point and are lists of [N].
    - Python [int] is [Z]; [len] results are [nat] and are injected into [Z]
      where the source does arithmetic on them.
    - The floats the source compares ([total_words / 3], similarity ratios,
      the thresholds 0.6 and 0.7) are kept as exact rationals.  On integers
      and lengths of any realistic size the rounded and the exact comparison
      give the same answer.
    - The text-generation service is an oracle: the outcome of the k-th
      request.  The request text itself (an f-string around the prompt) is
      not modelled. *)

From Stdlib Require Import DecimalString DecimalPos DecimalFacts.
From Stdlib Require Import Bool Arith List String Ascii ZArith NArith QArith Lia.
Import ListNotations.

Local Close Scope Q_scope.
Local Open Scope string_scope.
Local Open Scope list_scope.
Local Open Scope nat_scope.

(* ================================================================== *)
(** * Python strings *)

Module Str.

Definition code (c : ascii) : N := N_of_ascii c.

Definition in_range (lo hi : N) (c : ascii) : bool :=
  ((lo <=? code c) && (code c <=? hi))%N.

Definition is_digit (c : ascii) : bool := in_range 48 57 c.
Definition is_upper_ascii (c : ascii) : bool := in_range 65 90 c.
Definition is_lower_ascii (c : ascii) : bool := in_range 97 122 c.

(** [str.lower] on one character: A-Z and the Latin-1 capitals move up by 32. *)
Definition lower_char (c : ascii) : ascii :=
  if is_upper_ascii c || in_range 192 214 c || in_range 216 222 c
  then ascii_of_N (code c + 32)
  else c.

Fixpoint lower (s : string) : string :=
  match s with
  | EmptyString => EmptyString
  | String c s' => String (lower_char c) (lower s')
  end.

(** The characters [str.strip] and [float] drop at both ends. *)
Definition is_space (c : ascii) : bool :=
  in_range 9 13 c || in_range 28 32 c || N.eqb (code c) 133 || N.eqb (code c) 160.

(** The characters the pattern [\w] accepts. *)
Definition word_char (c : ascii) : bool :=
  is_digit c || is_upper_ascii c || N.eqb (code c) 95 || is_lower_ascii c
  || N.eqb (code c) 170 || in_range 178 179 c || N.eqb (code c) 181
  || in_range 185 186 c || in_range 188 190 c
  || in_range 192 214 c || in_range 216 246 c || in_range 248 255 c.

Fixpoint take (n : nat) (s : string) : string :=
  match n, s with
  | S n', String c s' => String c (take n' s')
  | _, _ => EmptyString
  end.

Fixpoint drop (n : nat) (s : string) : string :=
  match n, s with
  | S n', String _ s' => drop n' s'
  | _, _ => s
  end.

Fixpoint lstrip_by (p : ascii -> bool) (s : string) : string :=
  match s with
  | String c s' => if p c then lstrip_by p s' else s
  | EmptyString => EmptyString
  end.

Fixpoint rev_onto (s acc : string) : string :=
  match s with
  | EmptyString => acc
  | String c s' => rev_onto s' (String c acc)
  end.

Definition rev (s : string) : string := rev_onto s EmptyString.

Definition rstrip_by (p : ascii -> bool) (s : string) : string :=
  rev (lstrip_by p (rev s)).

(** [s.strip()] *)
Definition strip (s : string) : string := rstrip_by is_space (lstrip_by is_space s).

(** [sub in s] *)
Fixpoint contains (sub s : string) : bool :=
  String.prefix sub s ||
  match s with
  | String _ s' => contains sub s'
  | EmptyString => false
  end.

(** [s.split(sep)] for a non-empty [sep]: the pieces between the
    occurrences of [sep], found left to right without overlap.  [skip]
    counts the characters of an occurrence still to be passed over and
    [cur] holds the current piece, reversed. *)
Fixpoint split_from (sep s : string) (skip : nat) (cur : string) : list string :=
  match skip with
  | S n =>
      match s with
      | String _ s' => split_from sep s' n cur
      | EmptyString => [rev cur]
      end
  | O =>
      match s with
      | EmptyString => [rev cur]
      | String c s' =>
          if String.prefix sep s
          then rev cur :: split_from sep s' (Nat.pred (String.length sep)) EmptyString
          else split_from sep s' 0 (String c cur)
      end
  end.

Definition split (sep s : string) : list string := split_from sep s 0 EmptyString.

(** The longest run of digits at the start of [s], and what follows it. *)
Fixpoint span_digits (s : string) : string * string :=
  match s with
  | String c s' =>
      if is_digit c
      then let '(ds, rest) := span_digits s' in (String c ds, rest)
      else (EmptyString, s)
  | EmptyString => (EmptyString, EmptyString)
  end.

(** The number a run of digits denotes, continuing from [acc]. *)
Fixpoint digits_value (ds : string) (acc : Z) : Z :=
  match ds with
  | EmptyString => acc
  | String c ds' => digits_value ds' (10 * acc + Z.of_N (code c - 48))%Z
  end.

End Str.

(* ================================================================== *)
(** * Exceptions, the external capability and the effects of a run

    What is printed is not modelled.  Exceptions are the subclasses of
    [Exception]; each carries the text [str(e)] gives. *)

Module Py.

Inductive exn : Type :=
| JSONDecodeError
| AttributeError (msg : string)
| TypeError (msg : string)
| ValueError (msg : string)
| IndexError (msg : string)
| KeyError (msg : string)
| OverflowError (msg : string)
| ServiceError (msg : string).

(** [str(e)] *)
Definition message (e : exn) : string :=
  match e with
  | JSONDecodeError => EmptyString
  | AttributeError msg | TypeError msg | ValueError msg | IndexError msg
  | KeyError msg | OverflowError msg | ServiceError msg => msg
  end.

Definition is_ValueError (e : exn) : bool :=
  match e with
  | ValueError _ | JSONDecodeError => true
  | _ => false
  end.

Definition is_JSONDecodeError (e : exn) : bool :=
  match e with
  | JSONDecodeError => true
  | _ => false
  end.

Definition is_TypeError (e : exn) : bool :=
  match e with
  | TypeError _ => true
  | _ => false
  end.

Definition is_IndexError (e : exn) : bool :=
  match e with
  | IndexError _ => true
  | _ => false
  end.

Inductive result (A : Type) : Type :=
| Ret (a : A)
| Raise (e : exn).

Arguments Ret {A} a.
Arguments Raise {A} e.

(** What one request to the service comes to: the content of the first
    choice, or an exception raised on the way to it. *)
Inductive completion : Type :=
| Content (text : string)
| Failure (error_message : string).

(** The service: its outcome on the k-th request of the run. *)
Definition client : Type := nat -> completion.

(** The effects of a run: how many requests were made and which pauses
    were taken, oldest first. *)
Record world : Type := World { calls : nat; slept : list Q }.

Definition start : world := World 0 [].

Definition M (A : Type) : Type := world -> result A * world.

Definition ret {A : Type} (a : A) : M A := fun w => (Ret a, w).

Definition raise {A : Type} (e : exn) : M A := fun w => (Raise e, w).

Definition bind {A B : Type} (m : M A) (k : A -> M B) : M B :=
  fun w =>
    match m w with
    | (Ret a, w') => k a w'
    | (Raise e, w') => (Raise e, w')
    end.

Definition lift {A : Type} (r : result A) : M A := fun w => (r, w).

(** [try: m except <handles> as e: h e] *)
Definition try_except {A : Type} (m : M A) (handles : exn -> bool) (h : exn -> M A) : M A :=
  fun w =>
    match m w with
    | (Raise e, w') => if handles e then h e w' else (Raise e, w')
    | r => r
    end.

Definition any_exception (e : exn) : bool := true.

(** [client.chat.completions.create(...).choices[0].message.content] *)
Definition create (c : client) : M string :=
  fun w =>
    let w' := World (S (calls w)) (slept w) in
    match c (calls w) with
    | Content text => (Ret text, w')
    | Failure error_message => (Raise (ServiceError error_message), w')
    end.

(** ** [float(s)] *)

Inductive pyfloat : Type :=
| NaN
| Inf (negative : bool)
| Finite (q : Q).

Definition float_space (c : ascii) : bool :=
  Str.in_range 9 13 c || N.eqb (Str.code c) 32 || N.eqb (Str.code c) 133
  || N.eqb (Str.code c) 160.

(** Underscores may only stand between two digits. *)
Fixpoint underscores_ok (prev : option ascii) (s : string) : bool :=
  match s with
  | EmptyString => true
  | String c s' =>
      (if Ascii.eqb c "_"
       then match prev with Some p => Str.is_digit p | None => false end
            && match s' with String d _ => Str.is_digit d | EmptyString => false end
       else true)
      && underscores_ok (Some c) s'
  end.

Fixpoint remove_underscores (s : string) : string :=
  match s with
  | EmptyString => EmptyString
  | String c s' =>
      if Ascii.eqb c "_" then remove_underscores s' else String c (remove_underscores s')
  end.

(** Nearest integer to [n / d], ties to the even one ([0 <= n], [0 < d]). *)
Definition round_half_even (n d : Z) : Z :=
  let q := (n / d)%Z in
  let r := (n mod d)%Z in
  if (2 * r <? d)%Z then q
  else if (d <? 2 * r)%Z then (q + 1)%Z
  else if Z.even q then q else (q + 1)%Z.

(** The binary64 number nearest to [n / d] ([0 < n], [0 < d]). *)
Definition binary64 (n d : Z) : pyfloat :=
  let e0 := (Z.log2 n - Z.log2 d)%Z in
  let below :=
    if (0 <=? e0)%Z then (n <? d * 2 ^ e0)%Z else (n * 2 ^ (- e0) <? d)%Z in
  let e := Z.max (if below then e0 - 1 else e0)%Z (-1022)%Z in
  let shift := (e - 52)%Z in
  let m :=
    if (0 <=? shift)%Z then round_half_even n (d * 2 ^ shift)
    else round_half_even (n * 2 ^ (- shift)) d in
  if (0 <=? shift)%Z then
    if (2 ^ 1024 <=? m * 2 ^ shift)%Z then Inf false
    else Finite (inject_Z (m * 2 ^ shift))
  else Finite (Qred (Qmake m (Z.to_pos (2 ^ (- shift))))).

Definition negate (x : pyfloat) : pyfloat :=
  match x with
  | NaN => NaN
  | Inf s => Inf (negb s)
  | Finite q => Finite (Qopp q)
  end.

(** The decimal [mantissa * 10 ^ exponent], rounded. *)
Definition of_decimal (mantissa exponent : Z) : pyfloat :=
  if (mantissa =? 0)%Z then Finite (inject_Z 0)
  else if (0 <=? exponent)%Z then binary64 (mantissa * 10 ^ exponent) 1
  else binary64 mantissa (10 ^ (- exponent)).

(** An unsigned decimal literal: digits, an optional dot and digits (one
    digit at least), an optional exponent; nothing may follow. *)
Definition parse_decimal (s : string) : option pyfloat :=
  let '(ip, s1) := Str.span_digits s in
  let '(fp, s2) :=
    match s1 with
    | String "." s' => Str.span_digits s'
    | _ => (EmptyString, s1)
    end in
  if (String.length ip + String.length fp =? 0)%nat then None
  else
    let mantissa := Str.digits_value (ip ++ fp) 0 in
    let shift := Z.of_nat (String.length fp) in
    match s2 with
    | EmptyString => Some (of_decimal mantissa (- shift))
    | String e s3 =>
        if Ascii.eqb e "e" || Ascii.eqb e "E" then
          let '(negative, s4) :=
            match s3 with
            | String "-" s' => (true, s')
            | String "+" s' => (false, s')
            | _ => (false, s3)
            end in
          match Str.span_digits s4 with
          | (EmptyString, _) => None
          | (ds, EmptyString) =>
              let x := Str.digits_value ds 0 in
              Some (of_decimal mantissa ((if negative then - x else x) - shift))
          | (_, String _ _) => None
          end
        else None
    end.

Definition float_of_string (s : string) : result pyfloat :=
  let invalid := Raise (ValueError "could not convert string to float") in
  if negb (underscores_ok None s) then invalid
  else
    let t := Str.rstrip_by float_space (Str.lstrip_by float_space (remove_underscores s)) in
    let '(negative, body) :=
      match t with
      | String "-" t' => (true, t')
      | String "+" t' => (false, t')
      | _ => (false, t)
      end in
    let sign x := if negative then negate x else x in
    let low := Str.lower body in
    if String.eqb low "inf" || String.eqb low "infinity" then Ret (sign (Inf false))
    else if String.eqb low "nan" then Ret NaN
    else
      match parse_decimal body with
      | Some x => Ret (sign x)
      | None => invalid
      end.

(** ** [time.sleep(secs)]

    A negative or undefined length is a [ValueError], an infinite one an
    [OverflowError]; any other length is slept. *)
Definition sleep (secs : pyfloat) : M unit :=
  fun w =>
    match secs with
    | NaN => (Raise (ValueError "Invalid value NaN (not a number)"), w)
    | Inf _ => (Raise (OverflowError "timestamp too large to convert to C _PyTime_t"), w)
    | Finite q =>
        if Qle_bool 0 q then (Ret tt, World (calls w) (slept w ++ [q]))
        else (Raise (ValueError "sleep length must be non-negative"), w)
    end.

(** [not v] for what [os.getenv] returns: unset, or set to the empty
    string. *)
Definition unset (v : option string) : bool :=
  match v with
  | None | Some EmptyString => true
  | Some _ => false
  end.

End Py.

Notation "x <- m ;; k" := (Py.bind m (fun x => k))
  (at level 61, m at next level, right associativity).
Notation "m ;;; k" := (Py.bind m (fun _ => k))
  (at level 61, right associativity).

(* ================================================================== *)
(** * The fragment of [re] the source uses

    Ordered alternation, greedy repetition of a character class with
    backtracking, literal text and the word boundary [\b].  A pattern is
    run against a cursor: the character before it (if any) and the text
    after it; the continuation [k] is the rest of the pattern. *)

Module Re.

Inductive regex : Type :=
| Lit (s : string)
| Star (cls : ascii -> bool)
| Plus (cls : ascii -> bool)
| WordBoundary
| Seq (r1 r2 : regex)
| Alt (r1 r2 : regex).

Definition cont : Type := option ascii -> string -> option string.

Fixpoint lit (l : string) (prev : option ascii) (s : string) (k : cont) : option string :=
  match l with
  | EmptyString => k prev s
  | String c l' =>
      match s with
      | String d s' => if Ascii.eqb c d then lit l' (Some d) s' k else None
      | EmptyString => None
      end
  end.

Fixpoint star (cls : ascii -> bool) (prev : option ascii) (s : string) (k : cont)
  : option string :=
  match s with
  | String c s' =>
      if cls c then
        match star cls (Some c) s' k with
        | Some t => Some t
        | None => k prev s
        end
      else k prev s
  | EmptyString => k prev s
  end.

Definition plus (cls : ascii -> bool) (prev : option ascii) (s : string) (k : cont)
  : option string :=
  match s with
  | String c s' => if cls c then star cls (Some c) s' k else None
  | EmptyString => None
  end.

Definition is_word (c : option ascii) : bool :=
  match c with
  | Some c => Str.word_char c
  | None => false
  end.

Definition next_char (s : string) : option ascii :=
  match s with
  | String c _ => Some c
  | EmptyString => None
  end.

Definition at_boundary (prev : option ascii) (s : string) : bool :=
  xorb (is_word prev) (is_word (next_char s)).

Fixpoint run (r : regex) (prev : option ascii) (s : string) (k : cont) : option string :=
  match r with
  | Lit l => lit l prev s k
  | Star cls => star cls prev s k
  | Plus cls => plus cls prev s k
  | WordBoundary => if at_boundary prev s then k prev s else None
  | Seq r1 r2 => run r1 prev s (fun p t => run r2 p t k)
  | Alt r1 r2 =>
      match run r1 prev s k with
      | Some t => Some t
      | None => run r2 prev s k
      end
  end.

(** The text left after the first match of [r] that starts at the cursor. *)
Definition match_at (r : regex) (prev : option ascii) (s : string) : option string :=
  run r prev s (fun _ t => Some t).

Definition matched (s rest : string) : string :=
  Str.take (String.length s - String.length rest) s.

(** [re.search]: the start offset and the text of the leftmost match. *)
Fixpoint search_from (r : regex) (prev : option ascii) (s : string) (start : nat)
  : option (nat * string) :=
  match match_at r prev s with
  | Some rest => Some (start, matched s rest)
  | None =>
      match s with
      | String c s' => search_from r (Some c) s' (S start)
      | EmptyString => None
      end
  end.

Definition search (r : regex) (s : string) : option (nat * string) :=
  search_from r None s 0.

(** [re.findall] for a pattern whose matches are never empty: the matches
    found left to right, each search resuming where the previous match
    ended.  [skip] counts the characters of the last match still to be
    passed over. *)
Fixpoint findall_from (r : regex) (prev : option ascii) (s : string) (skip : nat)
  : list string :=
  match skip with
  | S n =>
      match s with
      | String c s' => findall_from r (Some c) s' n
      | EmptyString => []
      end
  | O =>
      match match_at r prev s with
      | Some rest =>
          let m := matched s rest in
          m :: match s with
               | String c s' => findall_from r (Some c) s' (Nat.pred (String.length m))
               | EmptyString => []
               end
      | None =>
          match s with
          | String c s' => findall_from r (Some c) s' 0
          | EmptyString => []
          end
      end
  end.

Definition findall (r : regex) (s : string) : list string := findall_from r None s 0.

End Re.

(* ================================================================== *)
(** * [difflib]: [SequenceMatcher(None, a, b)] and [get_close_matches]

    No junk predicate is given, so the only elements left out of [b2j] are
    the popular ones of a long [b] (the [autojunk] heuristic). *)

Module Difflib.

Section SequenceMatcher.

Context {A : Type} (elt_eqb : A -> A -> bool).
Variables a b : list A.

Fixpoint indices_from (x : A) (l : list A) (j : nat) : list nat :=
  match l with
  | [] => []
  | y :: l' => if elt_eqb y x then j :: indices_from x l' (S j) else indices_from x l' (S j)
  end.

(** [__chain_b]: where each element occurs in [b], popular elements purged. *)
Definition popular (x : A) : bool :=
  (200 <=? List.length b) && (List.length b / 100 + 1 <? List.length (indices_from x b 0)).

Definition b2j (x : A) : list nat :=
  if popular x then [] else indices_from x b 0.

Fixpoint j2len_get (j2len : list (nat * nat)) (j : nat) : nat :=
  match j2len with
  | [] => 0
  | (j', k) :: rest => if j' =? j then k else j2len_get rest j
  end.

Definition same_at (i j : nat) : bool :=
  match nth_error a i, nth_error b j with
  | Some x, Some y => elt_eqb x y
  | _, _ => false
  end.

Record best : Type := Best { besti : nat; bestj : nat; bestsize : nat }.

(** The inner loop of [find_longest_match] over the positions [js] of
    [a[i]] in [b]; positions below [blo] are skipped, the first one at or
    above [bhi] ends the loop. *)
Fixpoint scan_row (blo bhi i : nat) (j2len : list (nat * nat)) (js : list nat)
  (newj2len : list (nat * nat)) (bst : best) : list (nat * nat) * best :=
  match js with
  | [] => (newj2len, bst)
  | j :: js' =>
      if j <? blo then scan_row blo bhi i j2len js' newj2len bst
      else if bhi <=? j then (newj2len, bst)
      else
        let k := (match j with O => 0 | S j' => j2len_get j2len j' end) + 1 in
        let newj2len := (j, k) :: newj2len in
        if bestsize bst <? k
        then scan_row blo bhi i j2len js' newj2len (Best (i + 1 - k) (j + 1 - k) k)
        else scan_row blo bhi i j2len js' newj2len bst
  end.

Fixpoint scan_rows (blo bhi : nat) (rows : list nat) (j2len : list (nat * nat)) (bst : best)
  : best :=
  match rows with
  | [] => bst
  | i :: rows' =>
      let js := match nth_error a i with Some x => b2j x | None => [] end in
      let '(newj2len, bst') := scan_row blo bhi i j2len js [] bst in
      scan_rows blo bhi rows' newj2len bst'
  end.

(** The two loops that grow the block over elements missing from [b2j]. *)
Fixpoint extend_left (fuel alo blo : nat) (bst : best) : best :=
  match fuel with
  | O => bst
  | S fuel' =>
      if (alo <? besti bst) && (blo <? bestj bst)
         && same_at (besti bst - 1) (bestj bst - 1)
      then extend_left fuel' alo blo
             (Best (besti bst - 1) (bestj bst - 1) (bestsize bst + 1))
      else bst
  end.

Fixpoint extend_right (fuel ahi bhi : nat) (bst : best) : best :=
  match fuel with
  | O => bst
  | S fuel' =>
      if (besti bst + bestsize bst <? ahi) && (bestj bst + bestsize bst <? bhi)
         && same_at (besti bst + bestsize bst) (bestj bst + bestsize bst)
      then extend_right fuel' ahi bhi (Best (besti bst) (bestj bst) (bestsize bst + 1))
      else bst
  end.

Definition find_longest_match (alo ahi blo bhi : nat) : best :=
  let bst := scan_rows blo bhi (seq alo (ahi - alo)) [] (Best alo blo 0) in
  let bst := extend_left (besti bst) alo blo bst in
  extend_right (ahi - (besti bst + bestsize bst)) ahi bhi bst.

(** [get_matching_blocks]: the work list of ranges still to compare, last
    pushed first.  Every pass either drops a range or replaces it by two
    ranges that are shorter in [a], so [fuel] bounds the passes. *)
Fixpoint blocks_loop (fuel : nat) (queue : list (nat * nat * nat * nat)) (acc : list best)
  : list best :=
  match fuel with
  | O => acc
  | S fuel' =>
      match queue with
      | [] => acc
      | (alo, ahi, blo, bhi) :: queue' =>
          let x := find_longest_match alo ahi blo bhi in
          let i := besti x in
          let j := bestj x in
          let k := bestsize x in
          if k =? 0 then blocks_loop fuel' queue' acc
          else
            let queue1 :=
              if (alo <? i) && (blo <? j) then (alo, i, blo, j) :: queue' else queue' in
            let queue2 :=
              if (i + k <? ahi) && (j + k <? bhi)
              then (i + k, ahi, j + k, bhi) :: queue1 else queue1 in
            blocks_loop fuel' queue2 (acc ++ [x])
      end
  end.

Definition get_matching_blocks : list best :=
  blocks_loop (2 * List.length a + 1) [(0, List.length a, 0, List.length b)] [].

Definition calculate_ratio (matches length : nat) : Q :=
  if length =? 0 then 1%Q
  else (inject_Z (2 * Z.of_nat matches) / inject_Z (Z.of_nat length))%Q.

(** [ratio]: the sizes of the matching blocks are summed; sorting the
    blocks and merging adjacent ones, which [get_matching_blocks] does
    before it returns, leaves the sum as it is. *)
Definition ratio : Q :=
  calculate_ratio (list_sum (map bestsize get_matching_blocks))
                  (List.length a + List.length b).

Fixpoint avail_get (avail : list (A * Z)) (x : A) : option Z :=
  match avail with
  | [] => None
  | (y, n) :: rest => if elt_eqb y x then Some n else avail_get rest x
  end.

Fixpoint quick_matches (l : list A) (avail : list (A * Z)) (matches : nat) : nat :=
  match l with
  | [] => matches
  | x :: l' =>
      let numb :=
        match avail_get avail x with
        | Some n => n
        | None => Z.of_nat (List.length (indices_from x b 0))
        end in
      quick_matches l' ((x, numb - 1)%Z :: avail) (if (0 <? numb)%Z then S matches else matches)
  end.

Definition quick_ratio : Q :=
  calculate_ratio (quick_matches a [] 0) (List.length a + List.length b).

Definition real_quick_ratio : Q :=
  calculate_ratio (Nat.min (List.length a) (List.length b)) (List.length a + List.length b).

End SequenceMatcher.

(** The two instances the source needs: Python strings and JSON texts. *)
Definition chars (s : string) : list ascii := list_ascii_of_string s.

Definition str_ratio (a b : string) : Q := ratio Ascii.eqb (chars a) (chars b).

Definition Qge_bool (x y : Q) : bool := Qle_bool y x.
Definition Qgt_bool (x y : Q) : bool := negb (Qle_bool x y).
Definition Qeq_bool' (x y : Q) : bool := Qle_bool x y && Qle_bool y x.

(** The order of the pairs [(score, x)] that [heapq.nlargest] compares. *)
Definition scored_gt (p q : Q * string) : bool :=
  Qgt_bool (fst p) (fst q)
  || (Qeq_bool' (fst p) (fst q)
      && match String.compare (snd p) (snd q) with Gt => true | _ => false end).

Fixpoint insert_desc (p : Q * string) (l : list (Q * string)) : list (Q * string) :=
  match l with
  | [] => [p]
  | q :: l' => if scored_gt p q then p :: l else q :: insert_desc p l'
  end.

Definition sort_desc (l : list (Q * string)) : list (Q * string) :=
  fold_left (fun sorted p => insert_desc p sorted) l [].

Definition close_enough (cutoff : Q) (word x : string) : bool :=
  Qge_bool (real_quick_ratio (chars x) (chars word)) cutoff
  && Qge_bool (quick_ratio Ascii.eqb (chars x) (chars word)) cutoff
  && Qge_bool (str_ratio x word) cutoff.

(** [get_close_matches(word, possibilities, n, cutoff)] for [n > 0] and a
    cutoff in [0, 1]. *)
Definition get_close_matches (word : string) (possibilities : list string) (n : nat)
  (cutoff : Q) : list string :=
  let result :=
    map (fun x => (str_ratio x word, x))
        (filter (close_enough cutoff word) possibilities) in
  map snd (firstn n (sort_desc result)).

End Difflib.

(* ================================================================== *)
(** * The [json] module: values, [loads] and [dumps]

    - [int] literals are exact, whatever their length.
    - A [float] is kept as the text the scanner hands to [float]; [dumps]
      writes that text back.  Python stores the nearest binary64 and writes
      its shortest representation.  The source never looks inside a float.
    - Every failure of [loads] is a [JSONDecodeError]; its message is not
      kept.
    - The scanners recurse on fuel.  [loads] gives them twice the length
      of the text and two more, which they never use up ([decode_fuel]
      below); the recursion limit of the interpreter is not modelled. *)

Module Json.

(** A decoded string: code points. *)
Definition text : Type := list N.

Definition of_str (s : string) : text := map N_of_ascii (list_ascii_of_string s).

#[warnings="-register-all"]
Inductive json : Type :=
| Null
| Bool (b : bool)
| Int (z : Z)
| Float (lit : string)
| Str (s : text)
| Arr (items : list json)
| Obj (pairs : list (text * json)).

Definition text_eqb (s t : text) : bool :=
  if list_eq_dec N.eq_dec s t then true else false.

(** A [dict] keeps its keys in insertion order; assigning to a key that is
    already there replaces the value in place. *)
Fixpoint dict_set (d : list (text * json)) (key : text) (v : json) : list (text * json) :=
  match d with
  | [] => [(key, v)]
  | (k, w) :: d' => if text_eqb k key then (k, v) :: d' else (k, w) :: dict_set d' key v
  end.

Fixpoint dict_get (d : list (text * json)) (key : text) : option json :=
  match d with
  | [] => None
  | (k, w) :: d' => if text_eqb k key then Some w else dict_get d' key
  end.

Definition dict_of_pairs (pairs : list (text * json)) : list (text * json) :=
  fold_left (fun d kv => dict_set d (fst kv) (snd kv)) pairs [].

(** ** Decoding *)

Definition dquote : ascii := "034"%char.
Definition backslash : ascii := "\"%char.

Inductive scanned (A : Type) : Type :=
| Scanned (a : A) (rest : string)
| Malformed
| Exhausted.

Arguments Scanned {A} a rest.
Arguments Malformed {A}.
Arguments Exhausted {A}.

Definition scanned_map {A B : Type} (f : A -> B) (r : scanned A) : scanned B :=
  match r with
  | Scanned a rest => Scanned (f a) rest
  | Malformed => Malformed
  | Exhausted => Exhausted
  end.

Definition is_ws (c : ascii) : bool :=
  Ascii.eqb c " " || Ascii.eqb c "009" || Ascii.eqb c "010" || Ascii.eqb c "013".

Definition skip_ws (s : string) : string := Str.lstrip_by is_ws s.

Definition hex_value (c : ascii) : option N :=
  if Str.is_digit c then Some (Str.code c - 48)%N
  else if Str.in_range 97 102 c then Some (Str.code c - 87)%N
  else if Str.in_range 65 70 c then Some (Str.code c - 55)%N
  else None.

(** The four hex digits of a [\uXXXX] escape. *)
Definition decode_uXXXX (s : string) : option (N * string) :=
  match s with
  | String c1 (String c2 (String c3 (String c4 rest))) =>
      match hex_value c1, hex_value c2, hex_value c3, hex_value c4 with
      | Some h1, Some h2, Some h3, Some h4 =>
          Some (((h1 * 16 + h2) * 16 + h3) * 16 + h4, rest)%N
      | _, _, _, _ => None
      end
  | _ => None
  end.

Definition backslash_char (esc : ascii) : option N :=
  if Ascii.eqb esc dquote then Some 34%N
  else if Ascii.eqb esc backslash then Some 92%N
  else if Ascii.eqb esc "/" then Some 47%N
  else if Ascii.eqb esc "b" then Some 8%N
  else if Ascii.eqb esc "f" then Some 12%N
  else if Ascii.eqb esc "n" then Some 10%N
  else if Ascii.eqb esc "r" then Some 13%N
  else if Ascii.eqb esc "t" then Some 9%N
  else None.

Definition is_high_surrogate (n : N) : bool := ((55296 <=? n) && (n <=? 56319))%N.
Definition is_low_surrogate (n : N) : bool := ((56320 <=? n) && (n <=? 57343))%N.

Definition join_surrogates (hi lo : N) : N :=
  (65536 + N.lor (N.shiftl (hi - 55296) 10) (lo - 56320))%N.

(** [scanstring], strict: the text after the opening quote up to the
    closing one, escapes decoded. *)
Fixpoint scanstring (fuel : nat) (s : string) : scanned text :=
  match fuel with
  | O => Exhausted
  | S fuel' =>
      match s with
      | EmptyString => Malformed
      | String c s1 =>
          if Ascii.eqb c dquote then Scanned [] s1
          else if Ascii.eqb c backslash then
            match s1 with
            | EmptyString => Malformed
            | String esc s2 =>
                if Ascii.eqb esc "u" then
                  match decode_uXXXX s2 with
                  | None => Malformed
                  | Some (uni, s3) =>
                      if is_high_surrogate uni && String.prefix "\u" s3 then
                        match decode_uXXXX (Str.drop 2 s3) with
                        | None => Malformed
                        | Some (uni2, s4) =>
                            if is_low_surrogate uni2
                            then scanned_map (cons (join_surrogates uni uni2))
                                   (scanstring fuel' s4)
                            else scanned_map (cons uni) (scanstring fuel' s3)
                        end
                      else scanned_map (cons uni) (scanstring fuel' s3)
                  end
                else
                  match backslash_char esc with
                  | Some ch => scanned_map (cons ch) (scanstring fuel' s2)
                  | None => Malformed
                  end
            end
          else if (Str.code c <? 32)%N then Malformed
          else scanned_map (cons (Str.code c)) (scanstring fuel' s1)
      end
  end.

(** An optional leading [c]: what was taken, and what follows. *)
Definition optional (c : ascii) (s : string) : string * string :=
  match s with
  | String d s' =>
      if Ascii.eqb d c then (String c EmptyString, s') else (EmptyString, s)
  | EmptyString => (EmptyString, s)
  end.

(** The integer part of [NUMBER_RE]: an optional minus sign, then either
    a single 0 or a digit run that does not start with 0. *)
Definition match_integer (s : string) : option (string * string) :=
  let '(sign, s1) := optional "-" s in
  match s1 with
  | String c s2 =>
      if Ascii.eqb c "0" then Some (sign ++ "0", s2)%string
      else if Str.is_digit c
      then let '(ds, rest) := Str.span_digits s2 in Some (sign ++ String c ds, rest)%string
      else None
  | EmptyString => None
  end.

(** The optional fraction: a dot and at least one digit. *)
Definition match_frac (s : string) : string * string :=
  match s with
  | String d s1 =>
      if Ascii.eqb d "." then
        match Str.span_digits s1 with
        | (EmptyString, _) => (EmptyString, s)
        | (ds, rest) => (String "." ds, rest)
        end
      else (EmptyString, s)
  | EmptyString => (EmptyString, s)
  end.

(** An optional sign of an exponent. *)
Definition optional_sign (s : string) : string * string :=
  match optional "-" s with
  | (EmptyString, _) => optional "+" s
  | r => r
  end.

(** The optional exponent: e or E, an optional sign, at least one digit. *)
Definition match_exp (s : string) : string * string :=
  match s with
  | String e s1 =>
      if Ascii.eqb e "e" || Ascii.eqb e "E" then
        let '(sign, s2) := optional_sign s1 in
        match Str.span_digits s2 with
        | (EmptyString, _) => (EmptyString, s)
        | (ds, rest) => (String e (sign ++ ds), rest)%string
        end
      else (EmptyString, s)
  | EmptyString => (EmptyString, s)
  end.

Definition int_of_literal (integer : string) : Z :=
  match optional "-" integer with
  | (EmptyString, ds) => Str.digits_value ds 0
  | (_, ds) => (- Str.digits_value ds 0)%Z
  end.

Definition match_number (s : string) : option (json * string) :=
  match match_integer s with
  | None => None
  | Some (integer, s1) =>
      let '(frac, s2) := match_frac s1 in
      let '(exp, s3) := match_exp s2 in
      match frac, exp with
      | EmptyString, EmptyString => Some (Int (int_of_literal integer), s3)
      | _, _ => Some (Float (integer ++ frac ++ exp)%string, s3)
      end
  end.

Definition expect (c : ascii) (s : string) : option string :=
  match s with
  | String d s' => if Ascii.eqb c d then Some s' else None
  | EmptyString => None
  end.

(** [scan_once], [JSONObject] and [JSONArray].  [object_members] starts
    right after the opening quote of a key, [array_items] at the start of an
    item. *)
Fixpoint scan_once (fuel : nat) (s : string) : scanned json :=
  match fuel with
  | O => Exhausted
  | S fuel' =>
      match s with
      | EmptyString => Malformed
      | String c s1 =>
          if Ascii.eqb c dquote then scanned_map Str (scanstring fuel' s1)
          else if Ascii.eqb c "{" then
            let s2 := skip_ws s1 in
            match s2 with
            | String d s3 =>
                if Ascii.eqb d "}" then Scanned (Obj []) s3
                else if Ascii.eqb d dquote
                then scanned_map (fun pairs => Obj (dict_of_pairs pairs))
                       (object_members fuel' s3)
                else Malformed
            | EmptyString => Malformed
            end
          else if Ascii.eqb c "[" then
            let s2 := skip_ws s1 in
            match s2 with
            | String d s3 =>
                if Ascii.eqb d "]" then Scanned (Arr []) s3
                else scanned_map Arr (array_items fuel' s2)
            | EmptyString => scanned_map Arr (array_items fuel' s2)
            end
          else if String.prefix "null" s then Scanned Null (Str.drop 4 s)
          else if String.prefix "true" s then Scanned (Bool true) (Str.drop 4 s)
          else if String.prefix "false" s then Scanned (Bool false) (Str.drop 5 s)
          else
            match match_number s with
            | Some (v, rest) => Scanned v rest
            | None =>
                if String.prefix "NaN" s then Scanned (Float "NaN") (Str.drop 3 s)
                else if String.prefix "Infinity" s
                then Scanned (Float "Infinity") (Str.drop 8 s)
                else if String.prefix "-Infinity" s
                then Scanned (Float "-Infinity") (Str.drop 9 s)
                else Malformed
            end
      end
  end

with object_members (fuel : nat) (s : string) : scanned (list (text * json)) :=
  match fuel with
  | O => Exhausted
  | S fuel' =>
      match scanstring fuel' s with
      | Scanned key s1 =>
          match expect ":" (skip_ws s1) with
          | None => Malformed
          | Some s2 =>
              match scan_once fuel' (skip_ws s2) with
              | Scanned value s3 =>
                  match skip_ws s3 with
                  | String d s4 =>
                      if Ascii.eqb d "}" then Scanned [(key, value)] s4
                      else if Ascii.eqb d "," then
                        match expect dquote (skip_ws s4) with
                        | Some s5 =>
                            scanned_map (cons (key, value)) (object_members fuel' s5)
                        | None => Malformed
                        end
                      else Malformed
                  | EmptyString => Malformed
                  end
              | Malformed => Malformed
              | Exhausted => Exhausted
              end
          end
      | Malformed => Malformed
      | Exhausted => Exhausted
      end
  end

with array_items (fuel : nat) (s : string) : scanned (list json) :=
  match fuel with
  | O => Exhausted
  | S fuel' =>
      match scan_once fuel' s with
      | Scanned value s1 =>
          match skip_ws s1 with
          | String d s2 =>
              if Ascii.eqb d "]" then Scanned [value] s2
              else if Ascii.eqb d ","
              then scanned_map (cons value) (array_items fuel' (skip_ws s2))
              else Malformed
          | EmptyString => Malformed
          end
      | Malformed => Malformed
      | Exhausted => Exhausted
      end
  end.

(** [JSONDecoder.decode]: one value, white space allowed around it. *)
Definition decode (fuel : nat) (s : string) : scanned json :=
  match scan_once fuel (skip_ws s) with
  | Scanned v rest =>
      match skip_ws rest with
      | EmptyString => Scanned v EmptyString
      | _ => Malformed
      end
  | r => r
  end.

(** [json.loads(s)] *)
Definition loads (s : string) : Py.result json :=
  match decode (2 * String.length s + 2) s with
  | Scanned v _ => Py.Ret v
  | Malformed | Exhausted => Py.Raise Py.JSONDecodeError
  end.

(** ** Encoding *)

(** [s] between double quotes. *)
Definition quoted (s : string) : string :=
  (String dquote s ++ String dquote EmptyString)%string.


Definition hex_digit (n : N) : ascii :=
  if (n <? 10)%N then ascii_of_N (48 + n) else ascii_of_N (87 + n).

Definition hex4 (n : N) : string :=
  String (hex_digit (N.land (N.shiftr n 12) 15))
    (String (hex_digit (N.land (N.shiftr n 8) 15))
       (String (hex_digit (N.land (N.shiftr n 4) 15))
          (String (hex_digit (N.land n 15)) EmptyString))).

Definition escape_u (n : N) : string := String backslash (String "u" (hex4 n)).

(** One character of [encode_basestring_ascii]. *)
Definition escape_char (n : N) : string :=
  if (n =? 92)%N then "\\"
  else if (n =? 34)%N then String backslash (String dquote EmptyString)
  else if (n =? 8)%N then "\b"
  else if (n =? 12)%N then "\f"
  else if (n =? 10)%N then "\n"
  else if (n =? 13)%N then "\r"
  else if (n =? 9)%N then "\t"
  else if ((32 <=? n) && (n <=? 126))%N then String (ascii_of_N n) EmptyString
  else if (n <? 65536)%N then escape_u n
  else
    let m := (n - 65536)%N in
    (escape_u (N.lor 55296 (N.land (N.shiftr m 10) 1023))
     ++ escape_u (N.lor 56320 (N.land m 1023)))%string.

Fixpoint escape (s : text) : string :=
  match s with
  | [] => EmptyString
  | n :: s' => (escape_char n ++ escape s')%string
  end.

Definition encode_basestring_ascii (s : text) : string := quoted (escape s).

Definition int_repr (z : Z) : string :=
  match z with
  | Z0 => "0"
  | Zpos p => NilEmpty.string_of_uint (Pos.to_uint p)
  | Zneg p => String "-" (NilEmpty.string_of_uint (Pos.to_uint p))
  end.

Fixpoint join (sep : string) (l : list string) : string :=
  match l with
  | [] => EmptyString
  | [x] => x
  | x :: l' => (x ++ sep ++ join sep l')%string
  end.

(** [json.dumps] with its default separators. *)
Fixpoint dumps (v : json) : string :=
  match v with
  | Null => "null"
  | Bool true => "true"
  | Bool false => "false"
  | Int z => int_repr z
  | Float lit => lit
  | Str s => encode_basestring_ascii s
  | Arr items => ("[" ++ join ", " (map dumps items) ++ "]")%string
  | Obj pairs =>
      ("{" ++ join ", "
                (map (fun kv => encode_basestring_ascii (fst kv) ++ ": " ++ dumps (snd kv))
                     pairs)
           ++ "}")%string
  end.

Fixpoint spaces (n : nat) : string :=
  match n with
  | O => EmptyString
  | S n' => String " " (spaces n')
  end.

(** The line break and the indentation [json.dumps(..., indent=4)] writes
    at a nesting level. *)
Definition newline_indent (level : nat) : string :=
  String "010" (spaces (4 * level)).

(** [json.dumps(v, indent=4)], at a nesting level: the items of a
    non-empty list or dict on lines of their own, a comma after each but
    the last. *)
Fixpoint dumps_indent (level : nat) (v : json) : string :=
  match v with
  | Arr [] => "[]"
  | Arr items =>
      ("[" ++ newline_indent (S level)
           ++ join ("," ++ newline_indent (S level)) (map (dumps_indent (S level)) items)
           ++ newline_indent level ++ "]")%string
  | Obj [] => "{}"
  | Obj pairs =>
      ("{" ++ newline_indent (S level)
           ++ join ("," ++ newline_indent (S level))
                (map (fun kv => encode_basestring_ascii (fst kv) ++ ": "
                                ++ dumps_indent (S level) (snd kv)) pairs)
           ++ newline_indent level ++ "}")%string
  | _ => dumps v
  end.

End Json.

(* ================================================================== *)
(** * [code/placeholder_identification.py] *)

Module PlaceholderIdentification.

Import Py.

Definition PLACEHOLDER_CATEGORIES : list string :=
  [ "User Question";
    "Contextual Information";
    "Knowledge Input";
    "Metadata/Short Phrases";
    "Others" ].

(** The class [[A-Za-z0-9_.$]]. *)
Definition name_char (c : ascii) : bool :=
  Str.is_upper_ascii c || Str.is_lower_ascii c || Str.is_digit c
  || Ascii.eqb c "_" || Ascii.eqb c "." || Ascii.eqb c "$".

(** The pattern of [detect_placeholder]; its one group spans the whole
    match, so [findall] returns the matched texts. *)
Definition placeholder_pattern : Re.regex :=
  Re.Alt (Re.Seq (Re.Lit "{{") (Re.Seq (Re.Star name_char) (Re.Lit "}}")))
    (Re.Alt (Re.Seq (Re.Lit "{") (Re.Seq (Re.Star name_char) (Re.Lit "}")))
       (Re.Lit "PLACEHOLDER")).

Definition detect_placeholder (prompt_template : string) : list string :=
  Re.findall placeholder_pattern prompt_template.

(** The pattern [\b\w+\b]. *)
Definition word_pattern : Re.regex :=
  Re.Seq Re.WordBoundary (Re.Seq (Re.Plus Str.word_char) Re.WordBoundary).

Definition count_words (s : string) : Z :=
  Z.of_nat (List.length (Re.findall word_pattern s)).

Definition classify_relative_word_position (word_position total_words : Z) : string :=
  if Qle_bool (inject_Z word_position) (inject_Z total_words / 3)%Q then "Beginning"
  else if Qle_bool (inject_Z total_words / 3 * 2)%Q (inject_Z word_position) then "End"
  else "Middle".

Fixpoint positions_loop (prompt_template : string) (total_words : Z)
  (placeholders : list string) : list (string * string) :=
  match placeholders with
  | [] => []
  | placeholder :: rest =>
      match Re.search (Re.Lit placeholder) prompt_template with
      | Some (char_start, _) =>
          let word_position := count_words (Str.take char_start prompt_template) in
          let position := classify_relative_word_position word_position total_words in
          (placeholder, position) :: positions_loop prompt_template total_words rest
      | None => positions_loop prompt_template total_words rest
      end
  end.

Definition calculate_relative_word_positions (prompt_template : string)
  (placeholders : list string) : list (string * string) :=
  let total_words := count_words prompt_template in
  positions_loop prompt_template total_words placeholders.

(** One request, its answer stripped and reduced to the closest category;
    ['Others'] when nothing is close enough or anything was raised. *)
Definition classify_placeholder_with_llm (placeholder prompt_template : string)
  (client : client) : M string :=
  try_except
    (content <- create client ;;
     let response := Str.strip content in
     let best_match :=
       Difflib.get_close_matches response PLACEHOLDER_CATEGORIES 1 (6 # 10) in
     match best_match with
     | category :: _ => ret category
     | [] => ret "Others"
     end)
    any_exception
    (fun _ => ret "Others").

Record classification : Type :=
  Classification { placeholder : string; category : string; position : string }.

Fixpoint classify_loop (prompt_template : string) (client : client)
  (relative_positions : list (string * string)) : M (list classification) :=
  match relative_positions with
  | [] => ret []
  | (placeholder, position) :: rest =>
      category <- classify_placeholder_with_llm placeholder prompt_template client ;;
      classifications <- classify_loop prompt_template client rest ;;
      ret (Classification placeholder category position :: classifications)
  end.

Definition identify_placeholders (prompt_template : string) (client : client)
  : M (list classification) :=
  let placeholder_list := detect_placeholder prompt_template in
  let relative_positions :=
    calculate_relative_word_positions prompt_template placeholder_list in
  classify_loop prompt_template client relative_positions.

(** The [dict] of one classification. *)
Definition record_json (r : classification) : Json.json :=
  Json.Obj [ (Json.of_str "placeholder", Json.Str (Json.of_str (placeholder r)));
             (Json.of_str "category", Json.Str (Json.of_str (category r)));
             (Json.of_str "position", Json.Str (Json.of_str (position r))) ].

(** [main(prompt_template, model)], given what [os.getenv("OPENAI_API_KEY")]
    returns and the client it builds.  Its result here is the two lines
    [main] itself prints, in order; the error lines the functions it calls
    print on the way are not kept. *)
Definition main (API_KEY : option string) (prompt_template : string) (client : client)
  : M (list string) :=
  if unset API_KEY
  then raise (ValueError "Please set the OPENAI_API_KEY environment variable.")
  else
    placeholders <- identify_placeholders prompt_template client ;;
    ret [ ("Prompt template: " ++ prompt_template)%string;
          Json.dumps_indent 0 (Json.Arr (map record_json placeholders)) ].

End PlaceholderIdentification.

(* ================================================================== *)
(** * [code/component_identification.py] *)

Module ComponentIdentification.

Import Py.
Import Json.

Definition EXPECTED_COMPONENTS : list string :=
  [ "profile/role";
    "directive";
    "workflows";
    "context";
    "examples";
    "output format/style";
    "constraints";
    "others" ].

Definition get_default_response : string :=
  dumps (Obj (map (fun key => (of_str key, Str [])) EXPECTED_COMPONENTS)).

Definition type_name (v : json) : string :=
  match v with
  | Null => "NoneType"
  | Bool _ => "bool"
  | Int _ => "int"
  | Float _ => "float"
  | Str _ => "str"
  | Arr _ => "list"
  | Obj _ => "dict"
  end.

(** [components.keys()] *)
Definition keys (components : json) : result (list text) :=
  match components with
  | Obj pairs => Ret (map fst pairs)
  | v =>
      Raise (AttributeError ("'" ++ type_name v ++ "' object has no attribute 'keys'"))
  end.

(** [components[best_match]] on a [dict]; [None] is not among its keys. *)
Definition getitem (components : json) (best_match : option text) : result json :=
  match components with
  | Obj pairs =>
      match best_match with
      | Some key =>
          match dict_get pairs key with
          | Some v => Ret v
          | None => Raise (KeyError EmptyString)
          end
      | None => Raise (KeyError "None")
      end
  | v => Raise (TypeError ("'" ++ type_name v ++ "' object is not subscriptable"))
  end.

Fixpoint best_match_loop (keys : list text) (expected_module : text)
  (best_match : option text) (best_ratio : Q) : option text * Q :=
  match keys with
  | [] => (best_match, best_ratio)
  | key :: rest =>
      let ratio := Difflib.ratio N.eqb key expected_module in
      if Difflib.Qgt_bool ratio best_ratio
      then best_match_loop rest expected_module (Some key) ratio
      else best_match_loop rest expected_module best_match best_ratio
  end.

Definition find_best_match (keys : list text) (expected_module : string) : option text * Q :=
  best_match_loop keys (of_str expected_module) None 0%Q.

(** The truth value of [best_match]: neither [None] nor the empty string. *)
Definition truthy (best_match : option text) : bool :=
  match best_match with
  | Some (_ :: _) => true
  | _ => false
  end.

Fixpoint clean_loop (components : json) (similarity_threshold : Q)
  (expected : list string) (cleaned_response : list (text * json))
  : result (list (text * json)) :=
  match expected with
  | [] => Ret cleaned_response
  | expected_component :: rest =>
      match keys components with
      | Raise e => Raise e
      | Ret ks =>
          let '(best_match, best_ratio) := find_best_match ks expected_component in
          if truthy best_match && Difflib.Qgt_bool best_ratio similarity_threshold then
            match getitem components best_match with
            | Raise e => Raise e
            | Ret v =>
                clean_loop components similarity_threshold rest
                  (dict_set cleaned_response (of_str expected_component) v)
            end
          else
            clean_loop components similarity_threshold rest
              (dict_set cleaned_response (of_str expected_component) (Str []))
      end
  end.

Definition default_similarity_threshold : Q := 7 # 10.

Definition validate_and_clean_response (response : string) (similarity_threshold : Q)
  : result string :=
  match loads (Str.lower response) with
  | Raise JSONDecodeError => Ret get_default_response
  | Raise e => Raise e
  | Ret components =>
      match clean_loop components similarity_threshold EXPECTED_COMPONENTS [] with
      | Ret cleaned_response => Ret (dumps (Obj cleaned_response))
      | Raise e => Raise e
      end
  end.

(** [l[-1]] *)
Definition last_item (l : list string) : result string :=
  match List.rev l with
  | x :: _ => Ret x
  | [] => Raise (IndexError "list index out of range")
  end.

(** [l[0]] *)
Definition first_item (l : list string) : result string :=
  match l with
  | x :: _ => Ret x
  | [] => Raise (IndexError "list index out of range")
  end.

(** The call [component_detection(prompt)] of the fallback branch: two of
    the three required arguments are missing. *)
Definition component_detection_prompt_only : M string :=
  raise (TypeError
    "component_detection() missing 2 required positional arguments: 'client' and 'model'").

Definition component_detection (prompt : string) (client : client) : M string :=
  try_except
    (response <- create client ;;
     lift (validate_and_clean_response response default_similarity_threshold))
    any_exception
    (fun e =>
       let error_message := message e in
       if Str.contains "429" error_message
          || Str.contains "Rate limit reached" error_message
       then
         try_except
           (after <- lift (last_item (Str.split "in " error_message)) ;;
            before <- lift (first_item (Str.split "s" after)) ;;
            wait_time <- lift (float_of_string before) ;;
            sleep wait_time ;;;
            ret get_default_response)
           (fun e' => is_IndexError e' || is_ValueError e')
           (fun _ =>
              sleep (Finite (inject_Z 60)) ;;;
              component_detection_prompt_only)
       else ret get_default_response).

(** One pass through the body of the retry loop: [Some components] when
    the pass returns, [None] when it ends in [retries += 1]. *)
Definition attempt (prompt : string) (client : client) (default_response : string)
  : M (option json) :=
  try_except
    (response <- component_detection prompt client ;;
     components <- lift (loads response) ;;
     if String.eqb response default_response then ret None
     else
       match components with
       | Obj _ => ret (Some components)
       | _ => ret None
       end)
    any_exception
    (fun e =>
       if is_JSONDecodeError e || is_TypeError e then ret None
       else ret None).

(** The [while retries < max_retries] loop; [None] when [fuel] passes did
    not end it. *)
Fixpoint retry_loop (fuel : nat) (prompt : string) (client : client)
  (default_response : string) (retries max_retries : Z) : M (option json) :=
  if (retries <? max_retries)%Z then
    match fuel with
    | O => ret None
    | S fuel' =>
        r <- attempt prompt client default_response ;;
        match r with
        | Some components => ret (Some components)
        | None =>
            retry_loop fuel' prompt client default_response (retries + 1)%Z max_retries
        end
    end
  else
    components <- lift (loads get_default_response) ;;
    ret (Some components).

Definition default_max_retries : Z := 3.

Definition detect_component_with_retry (prompt : string) (client : client)
  (max_retries : Z) : M (option json) :=
  let retries := 0%Z in
  let default_response := get_default_response in
  retry_loop (Z.to_nat max_retries) prompt client default_response retries max_retries.

(** [main(prompt, model)], given what [os.getenv("GROQ_API_KEY")] returns
    and the client it builds.  Its result here is the two lines [main]
    itself prints, in order; the retry and error lines the functions it
    calls print on the way are not kept. *)
Definition main (API_KEY : option string) (prompt : string) (client : client)
  : M (list string) :=
  if unset API_KEY
  then raise (ValueError "Please set the GROQ_API_KEY environment variable.")
  else
    components <- detect_component_with_retry prompt client default_max_retries ;;
    ret [ "Detected Components:";
          dumps_indent 0 (match components with
                          | Some d => d
                          | None => Null
                          end) ].

End ComponentIdentification.

(* ================================================================== *)
(** * Vocabulary of the statements *)

Module Spec.

Import PlaceholderIdentification.

Fixpoint all_chars (p : ascii -> bool) (s : string) : bool :=
  match s with
  | EmptyString => true
  | String c s' => p c && all_chars p s'
  end.

(** The three shapes of a placeholder. *)
Inductive token : Type :=
| DoubleBrace (name : string)
| SingleBrace (name : string)
| Marker.

Definition token_text (t : token) : string :=
  match t with
  | DoubleBrace name => "{{" ++ name ++ "}}"
  | SingleBrace name => "{" ++ name ++ "}"
  | Marker => "PLACEHOLDER"
  end.

Definition valid_token (t : token) : bool :=
  match t with
  | DoubleBrace name | SingleBrace name => all_chars name_char name
  | Marker => true
  end.

(** The last character of [l], or [prev] when [l] is empty. *)
Fixpoint last_char (l : string) (prev : option ascii) : option ascii :=
  match l with
  | EmptyString => prev
  | String c l' => last_char l' (Some c)
  end.

(** How many runs of word characters start in [s], given whether the
    character before [s] is a word character. *)
Fixpoint word_starts (after_word : bool) (s : string) : nat :=
  match s with
  | EmptyString => 0
  | String c s' =>
      (if Str.word_char c && negb after_word then 1 else 0)
      + word_starts (Str.word_char c) s'
  end.

(** [p] occurs in [t] at offset [i], and at no smaller offset. *)
Definition first_occurrence (p t : string) (i : nat) : Prop :=
  String.prefix p (Str.drop i t) = true
  /\ forall j, j < i -> String.prefix p (Str.drop j t) = false.

(** [s] does not start with a character of [cls]. *)
Definition stops (cls : ascii -> bool) (s : string) : bool :=
  match s with
  | String d _ => negb (cls d)
  | EmptyString => true
  end.

(** Patterns without [\b]. *)
Fixpoint boundary_free (r : Re.regex) : bool :=
  match r with
  | Re.WordBoundary => false
  | Re.Seq r1 r2 | Re.Alt r1 r2 => boundary_free r1 && boundary_free r2
  | _ => true
  end.

(** The texts of [toks], a space after each. *)
Fixpoint join_tokens (toks : list token) : string :=
  match toks with
  | [] => EmptyString
  | t :: toks' => token_text t ++ " " ++ join_tokens toks'
  end.

(** Whether the character before the end of [x] is a word character,
    [p] standing for the character before [x]. *)
Fixpoint ends_in_word (p : bool) (x : string) : bool :=
  match x with
  | EmptyString => p
  | String c x' => ends_in_word (Str.word_char c) x'
  end.

(** The run of characters of [cls] at the start of [s], and the rest. *)
Fixpoint span (cls : ascii -> bool) (s : string) : string * string :=
  match s with
  | String c s' =>
      if cls c then let '(run, rest) := span cls s' in (String c run, rest)
      else (EmptyString, s)
  | EmptyString => (EmptyString, EmptyString)
  end.

Import Py.
Import Json.
Import ComponentIdentification.

(** The all-empty map. *)
Definition default_pairs : list (text * json) :=
  map (fun key => (of_str key, Str [])) EXPECTED_COMPONENTS.

(** The effects of a run after one more request. *)
Definition made_call (w : world) : world := World (S (calls w)) (slept w).

(** The value [validate_and_clean_response] assigns to an expected name,
    given the pairs of the decoded object. *)
Definition chosen_value (pairs : list (text * json)) (similarity_threshold : Q)
  (expected_component : string) : json :=
  let '(best_match, best_ratio) := find_best_match (map fst pairs) expected_component in
  if truthy best_match && Difflib.Qgt_bool best_ratio similarity_threshold then
    match best_match with
    | Some key =>
        match dict_get pairs key with
        | Some v => v
        | None => Str []
        end
    | None => Str []
    end
  else Str [].

Definition cleaned_pairs (pairs : list (text * json)) (similarity_threshold : Q)
  : list (text * json) :=
  map (fun e => (of_str e, chosen_value pairs similarity_threshold e)) EXPECTED_COMPONENTS.

(** Whether every value of a map is a string. *)
Definition is_string (v : json) : bool :=
  match v with
  | Str _ => true
  | _ => false
  end.

Definition all_strings (pairs : list (text * json)) : bool :=
  forallb (fun kv => is_string (snd kv)) pairs.

(** The text of a JSON object whose values are strings without escapes. *)
Definition object_text (pairs : list (string * string)) : string :=
  ("{" ++ join ", " (map (fun kv => quoted (fst kv) ++ ": " ++ quoted (snd kv)) pairs)
       ++ "}")%string.

(** [error_message.split('in ')[-1].split('s')[0]] *)
Definition wait_text (error_message : string) : result string :=
  match last_item (Str.split "in " error_message) with
  | Ret after => first_item (Str.split "s" after)
  | Raise e => Raise e
  end.

(** What the call without [client] and [model] raises. *)
Definition missing_arguments : exn :=
  TypeError
    "component_detection() missing 2 required positional arguments: 'client' and 'model'".

(** The eight-key object the prompt asks for, one value in mixed case. *)
Definition sample_reply : string :=
  object_text
    [ ("profile/role", "You are a Bot"); ("directive", "Sort the list");
      ("workflows", ""); ("context", ""); ("examples", "");
      ("output format/style", ""); ("constraints", ""); ("others", "") ].

(** A service that fails once and then answers with [sample_reply]. *)
Definition fails_once : client :=
  fun k =>
    match k with
    | O => Failure "Connection error."
    | S _ => Content sample_reply
    end.

(** An answer with white space after it. *)
Definition padded_answer : string := "User Question" ++ "                  ".

(** ** Matching blocks *)

(** A block found in the rows from [alo] up to [i]. *)
Definition block_within (alo i : nat) (bst : Difflib.best) : Prop :=
  alo <= Difflib.besti bst /\ Difflib.besti bst + Difflib.bestsize bst <= i.

(** Every run length of a row is at most [n]. *)
Definition runs_within (n : nat) (j2len : list (nat * nat)) : Prop :=
  Forall (fun p => snd p <= n) j2len.

(** What a range adds to the passes of [blocks_loop]. *)
Definition passes (queue : list (nat * nat * nat * nat)) : nat :=
  list_sum (map (fun r => match r with (alo, ahi, _, _) => 2 * (ahi - alo) + 1 end) queue).

(** A range of [a] with its ends in order. *)
Definition ordered (r : nat * nat * nat * nat) : Prop :=
  match r with (alo, ahi, _, _) => alo <= ahi end.

(** ** JSON texts written and read back *)

(** Whether [s] starts with a character of [p]. *)
Definition starts (p : ascii -> bool) (s : string) : bool :=
  match s with
  | String c _ => p c
  | EmptyString => false
  end.

Definition is_exp_mark (c : ascii) : bool := Ascii.eqb c "e" || Ascii.eqb c "E".

Definition is_dot (c : ascii) : bool := Ascii.eqb c ".".

(** What may follow a value in the output of [dumps]. *)
Definition delimited (rest : string) : bool :=
  match rest with
  | EmptyString => true
  | String c _ => Ascii.eqb c "," || Ascii.eqb c "}" || Ascii.eqb c "]"
  end.

(** [p] holds of [fuel] numbers from [n] on. *)
Fixpoint check_from (fuel : nat) (n : N) (p : N -> bool) : bool :=
  match fuel with
  | O => true
  | S fuel' => if p n then check_from fuel' (N.succ n) p else false
  end.

(** A text [dumps] and [loads] agree on: code points up to 0x10FFFF, no
    high surrogate right before a low one. *)
Fixpoint wf_text (s : text) : bool :=
  match s with
  | [] => true
  | c :: s' =>
      (c <=? 1114111)%N
      && negb (is_high_surrogate c
               && match s' with
                  | d :: _ => is_low_surrogate d
                  | [] => false
                  end)
      && wf_text s'
  end.

(** The escape of a code point below 0x10000 reads back as that code point. *)
Definition hex_reads_back (n : N) : bool :=
  match decode_uXXXX (hex4 n) with
  | Some (m, EmptyString) => N.eqb m n
  | _ => false
  end.

(** A high surrogate made from ten bits gives them back. *)
Definition high_reads_back (a : N) : bool :=
  let hi := N.lor 55296 a in
  is_high_surrogate hi && N.eqb (hi - 55296) a.

(** A low surrogate made from ten bits gives them back. *)
Definition low_reads_back (b : N) : bool :=
  let lo := N.lor 56320 b in
  is_low_surrogate lo && N.eqb (lo - 56320) b.

(** The surrogate pair of 0x10000 + [m] is a high and a low surrogate that
    join to it. *)
Definition pair_reads_back (m : N) : bool :=
  let hi := N.lor 55296 (N.land (N.shiftr m 10) 1023) in
  let lo := N.lor 56320 (N.land m 1023) in
  is_high_surrogate hi && is_low_surrogate lo && N.eqb (join_surrogates hi lo) (65536 + m).

(** The escapes, case by case. *)
Inductive escape_shape (n : N) : Prop :=
| Short (esc : ascii)
    (He : escape_char n = String backslash (String esc EmptyString))
    (Hu : Ascii.eqb esc "u" = false)
    (Hb : backslash_char esc = Some n)
| Plain (c : ascii)
    (He : escape_char n = String c EmptyString)
    (Hq : Ascii.eqb c dquote = false)
    (Hs : Ascii.eqb c backslash = false)
    (Hc : (Str.code c <? 32)%N = false)
    (Hn : Str.code c = n)
| Unicode
    (He : escape_char n = escape_u n)
    (Hn : (n < 65536)%N)
| Pair (hi lo : N)
    (He : escape_char n = (escape_u hi ++ escape_u lo)%string)
    (Hhi : is_high_surrogate hi = true)
    (Hlo : is_low_surrogate lo = true)
    (Hj : join_surrogates hi lo = n).

(** The literals [loads] hands to [float] and [dumps] writes back. *)
Definition wf_float (lit : string) : bool :=
  String.eqb lit "NaN" || String.eqb lit "Infinity" || String.eqb lit "-Infinity"
  || match match_number lit with
     | Some (Float l, EmptyString) => String.eqb l lit
     | _ => false
     end.

Fixpoint distinct (ks : list text) : bool :=
  match ks with
  | [] => true
  | k :: ks' => negb (existsb (text_eqb k) ks') && distinct ks'
  end.

(** The values [loads] can return: texts are well formed, floats are
    literals, the keys of an object are distinct. *)
Fixpoint wf (v : json) : bool :=
  match v with
  | Null | Bool _ | Int _ => true
  | Float lit => wf_float lit
  | Str s => wf_text s
  | Arr items => forallb wf items
  | Obj pairs =>
      forallb (fun kv => match kv with (k, x) => wf_text k && wf x end) pairs
      && distinct (map fst pairs)
  end.

Definition is_number_start (c : ascii) : bool := Str.is_digit c || Ascii.eqb c "-".

(** The first character of a written value: no white space, no closing
    bracket. *)
Definition is_value_start (c : ascii) : bool :=
  negb (is_ws c) && negb (Ascii.eqb c "]").

(** One member of a written object. *)
Definition member (kv : text * json) : string :=
  (encode_basestring_ascii (fst kv) ++ ": " ++ dumps (snd kv))%string.

(** A written member without its opening quote. *)
Definition member_tail (kv : text * json) : string :=
  (escape (fst kv) ++ String dquote (": " ++ dumps (snd kv)))%string.

(** The written members of an object, after the first opening quote. *)
Fixpoint members_tail (pairs : list (text * json)) : string :=
  match pairs with
  | [] => EmptyString
  | [kv] => member_tail kv
  | kv :: pairs' => (member_tail kv ++ ", " ++ String dquote (members_tail pairs'))%string
  end.

(** [v], written by [dumps] and followed by a delimiter, is read back by
    [scan_once]. *)
Definition read_back (v : json) : Prop :=
  wf v = true ->
  forall fuel rest,
    String.length (dumps v) < fuel -> delimited rest = true ->
    scan_once fuel (dumps v ++ rest) = Scanned v rest.

(** What a scan gives: never out of fuel, and when it gives a value, the
    value satisfies [P] and the text left is shorter than [s]. *)
Definition reads {A : Type} (P : A -> bool) (s : string) (r : scanned A) : Prop :=
  match r with
  | Scanned a rest => P a = true /\ String.length rest < String.length s
  | Malformed => True
  | Exhausted => False
  end.

(** The members of a well-formed object. *)
Definition wf_member (kv : text * json) : bool :=
  match kv with (k, x) => wf_text k && wf x end.

(** ** Vocabulary of the further properties *)

(** The order of the three position labels. *)
Definition position_rank (position : string) : nat :=
  if String.eqb position "Beginning" then 0
  else if String.eqb position "Middle" then 1
  else 2.

(** [p] occurs in [t] at offset [i]. *)
Definition occurs_at (p t : string) (i : nat) : Prop :=
  String.prefix p (Str.drop i t) = true.

(** The texts with the shape of a placeholder. *)
Definition placeholder_shaped (p : string) : Prop :=
  exists tok, valid_token tok = true /\ p = token_text tok.

(** The characters no placeholder starts with. *)
Definition no_start (c : ascii) : bool :=
  negb (Ascii.eqb c "{") && negb (Ascii.eqb c "P").

(** The characters that are neither a brace nor a P. *)
Definition plain_char (c : ascii) : bool :=
  no_start c && negb (Ascii.eqb c "}").

(** A block of a range of [a] and [b] that pairs equal elements. *)
Definition block_ok {A : Type} (elt_eqb : A -> A -> bool) (a b : list A)
  (alo ahi blo bhi : nat) (bst : Difflib.best) : Prop :=
  alo <= Difflib.besti bst /\ Difflib.besti bst + Difflib.bestsize bst <= ahi
  /\ blo <= Difflib.bestj bst /\ Difflib.bestj bst + Difflib.bestsize bst <= bhi
  /\ forall t, t < Difflib.bestsize bst ->
               Difflib.same_at elt_eqb a b (Difflib.besti bst + t) (Difflib.bestj bst + t)
               = true.

(** The runs of equal elements that end in the row before [i]. *)
Definition runs_ok {A : Type} (elt_eqb : A -> A -> bool) (a b : list A)
  (alo blo i : nat) (j2len : list (nat * nat)) : Prop :=
  Forall (fun p =>
            snd p <= i - alo /\ snd p <= fst p + 1 - blo
            /\ forall t, t < snd p ->
                         Difflib.same_at elt_eqb a b (i - snd p + t) (fst p + 1 - snd p + t)
                         = true) j2len.

Definition sizes (blocks : list Difflib.best) : nat :=
  list_sum (map Difflib.bestsize blocks).

(** What the blocks found in a range show: they fit in it on both sides,
    and when they fill it on both sides the two sides are equal. *)
Definition range_ok {A : Type} (elt_eqb : A -> A -> bool) (a b : list A)
  (r : nat * nat * nat * nat) (blocks : list Difflib.best) : Prop :=
  match r with
  | (alo, ahi, blo, bhi) =>
      sizes blocks <= ahi - alo /\ sizes blocks <= bhi - blo
      /\ (sizes blocks = ahi - alo -> sizes blocks = bhi - blo ->
          forall t, t < sizes blocks -> Difflib.same_at elt_eqb a b (alo + t) (blo + t) = true)
  end.

Definition ordered2 (r : nat * nat * nat * nat) : Prop :=
  match r with (alo, ahi, blo, bhi) => alo <= ahi /\ blo <= bhi end.

(** The request [k] is answered with a text whose lower-cased form decodes
    to an object with the cleaned map [cleaned], other than the all-empty
    one. *)
Definition usable (client : client) (k : nat) (cleaned : list (text * json)) : Prop :=
  exists text parsed,
    client k = Content text
    /\ loads (Str.lower text) = Ret (Obj parsed)
    /\ cleaned = cleaned_pairs parsed default_similarity_threshold
    /\ cleaned <> default_pairs.

Definition unusable (client : client) (k : nat) : Prop :=
  forall cleaned, ~ usable client k cleaned.

(** A rate-limit message of the service, with a wait of seven and a half
    seconds. *)
Definition rate_limit_message : string :=
  "Error code: 429 - {'error': {'message': 'Rate limit reached for model `llama3-70b-8192` in organization `org_01` on tokens per minute (TPM): Limit 6000, Used 5500, Requested 1200. Please try again in 7.5s. Visit https://console.groq.com/docs/rate-limits for more information.', 'type': 'tokens', 'code': 'rate_limit_exceeded'}}".

End Spec.

(* ================================================================== *)
(** * Properties *)

Import Spec.
Import Py.
Import Json.

(** ** Strings *)

Lemma take_app_length (x y : string) :
  Str.take (String.length x) (x ++ y) = x.
Proof.
  induction x as [|c x IH]; simpl.
  - destruct y; reflexivity.
  - now rewrite IH.
Qed.

Lemma drop_app_length (x y : string) :
  Str.drop (String.length x) (x ++ y) = y.
Proof.
  induction x as [|c x IH]; simpl; auto.
Qed.

Lemma length_app (x y : string) :
  String.length (x ++ y) = String.length x + String.length y.
Proof.
  induction x as [|c x IH]; simpl; auto.
Qed.

Lemma app_assoc_str (x y z : string) : ((x ++ y) ++ z = x ++ (y ++ z))%string.
Proof.
  induction x as [|c x IH]; simpl; auto. now rewrite IH.
Qed.

Lemma app_empty_r (x : string) : (x ++ "" = x)%string.
Proof.
  induction x as [|c x IH]; simpl; auto. now rewrite IH.
Qed.

Lemma prefix_app (x y : string) : String.prefix x (x ++ y) = true.
Proof.
  induction x as [|c x IH]; simpl.
  - destruct y; reflexivity.
  - destruct (ascii_dec c c) as [_|n]; [exact IH | contradiction].
Qed.

Lemma prefix_split (x s : string) :
  String.prefix x s = true -> exists y, s = (x ++ y)%string.
Proof.
  revert s. induction x as [|c x IH]; intros s H.
  - exists s. reflexivity.
  - destruct s as [|d s]; simpl in H; [discriminate|].
    destruct (ascii_dec c d) as [->|]; [|discriminate].
    destruct (IH _ H) as [y ->]. now exists y.
Qed.

Lemma matched_app (x rest : string) : Re.matched (x ++ rest) rest = x.
Proof.
  unfold Re.matched. rewrite length_app.
  replace (String.length x + String.length rest - String.length rest)
    with (String.length x) by lia.
  apply take_app_length.
Qed.

(** ** The pattern engine *)

Lemma lit_app (l : string) prev s (k : Re.cont) :
  Re.lit l prev (l ++ s) k = k (last_char l prev) s.
Proof.
  revert prev. induction l as [|c l IH]; intros prev; simpl; auto.
  rewrite Ascii.eqb_refl. apply IH.
Qed.

Lemma lit_sound (l : string) prev s (k : Re.cont) t :
  Re.lit l prev s k = Some t ->
  exists s', s = (l ++ s')%string /\ k (last_char l prev) s' = Some t.
Proof.
  revert prev s. induction l as [|c l IH]; intros prev s H; simpl in *.
  - now exists s.
  - destruct s as [|d s]; [discriminate|].
    destruct (Ascii.eqb c d) eqn:E; [|discriminate].
    apply Ascii.eqb_eq in E. subst d.
    destruct (IH _ _ H) as [s' [-> Hk]]. now exists s'.
Qed.

Import PlaceholderIdentification.

Lemma star_run (cls : ascii -> bool) (n : string) prev s (k : Re.cont) :
  all_chars cls n = true ->
  stops cls s = true ->
  k (last_char n prev) s <> None ->
  Re.star cls prev (n ++ s) k = k (last_char n prev) s.
Proof.
  revert prev. induction n as [|c n IH]; intros prev Hn Hs Hk; simpl in *.
  - destruct s as [|d s]; simpl in *; auto.
    apply negb_true_iff in Hs. now rewrite Hs.
  - apply andb_true_iff in Hn. destruct Hn as [Hc Hn].
    rewrite Hc, (IH _ Hn Hs Hk).
    destruct (k (last_char n (Some c)) s); [reflexivity | contradiction].
Qed.

Lemma star_sound (cls : ascii -> bool) prev s (k : Re.cont) t :
  Re.star cls prev s k = Some t ->
  exists n s', s = (n ++ s')%string /\ all_chars cls n = true
               /\ k (last_char n prev) s' = Some t.
Proof.
  revert prev. induction s as [|c s IH]; intros prev H; simpl in H.
  - exists "", "". auto.
  - destruct (cls c) eqn:Hc.
    + destruct (Re.star cls (Some c) s k) eqn:E.
      * inversion H; subst. destruct (IH _ E) as (n & s' & -> & Hn & Hk).
        exists (String c n), s'. simpl. rewrite Hc. auto.
      * exists "", (String c s). auto.
    + exists "", (String c s). auto.
Qed.

Lemma lit_prev (l : string) prev prev' s (k k' : Re.cont) :
  (forall p p' t, k p t = k' p' t) ->
  Re.lit l prev s k = Re.lit l prev' s k'.
Proof.
  intros Hk. revert prev prev' s. induction l as [|c l IH]; intros; simpl; auto.
  destruct s as [|d s]; auto. destruct (Ascii.eqb c d); auto.
Qed.

Lemma star_prev (cls : ascii -> bool) prev prev' s (k k' : Re.cont) :
  (forall p p' t, k p t = k' p' t) ->
  Re.star cls prev s k = Re.star cls prev' s k'.
Proof.
  intros Hk. revert prev prev'. induction s as [|c s IH]; intros; simpl; auto.
  destruct (cls c); auto.
  rewrite (IH (Some c) (Some c)). destruct (Re.star cls (Some c) s k'); auto.
Qed.

(** A pattern without [\b] does not look at the character before the cursor. *)
Lemma run_prev (r : Re.regex) :
  boundary_free r = true ->
  forall prev prev' s (k k' : Re.cont),
    (forall p p' t, k p t = k' p' t) ->
    Re.run r prev s k = Re.run r prev' s k'.
Proof.
  induction r as [l|cls|cls| |r1 IH1 r2 IH2|r1 IH1 r2 IH2]; simpl; intros Hb prev prev' s k k' Hk.
  - now apply lit_prev.
  - now apply star_prev.
  - unfold Re.plus. destruct s as [|c s]; auto. destruct (cls c); auto.
    now apply star_prev.
  - discriminate.
  - apply andb_true_iff in Hb. destruct Hb as [H1 H2].
    apply IH1; [assumption|]. intros p p' t. now apply IH2.
  - apply andb_true_iff in Hb. destruct Hb as [H1 H2].
    rewrite (IH1 H1 prev prev' s k k' Hk), (IH2 H2 prev prev' s k k' Hk). reflexivity.
Qed.

Lemma match_at_prev (r : Re.regex) prev prev' s :
  boundary_free r = true -> Re.match_at r prev s = Re.match_at r prev' s.
Proof.
  intros Hb. unfold Re.match_at. apply run_prev; auto.
Qed.

Lemma findall_from_prev (r : Re.regex) s :
  boundary_free r = true ->
  forall prev prev' skip, Re.findall_from r prev s skip = Re.findall_from r prev' s skip.
Proof.
  intros Hb. induction s as [|c s IH]; intros prev prev' skip;
    destruct skip; simpl; auto;
    rewrite (match_at_prev r prev prev') by assumption; reflexivity.
Qed.

(** Passing over the rest of a match. *)
Lemma findall_from_skip (r : Re.regex) (x : string) rest prev :
  Re.findall_from r prev (x ++ rest) (String.length x)
  = Re.findall_from r (last_char x prev) rest 0.
Proof.
  revert prev. induction x as [|c x IH]; intros prev; simpl; auto.
Qed.

Lemma findall_from_hit (r : Re.regex) prev (c : ascii) (x rest : string) :
  Re.match_at r prev (String c x ++ rest) = Some rest ->
  Re.findall_from r prev (String c x ++ rest) 0
  = String c x :: Re.findall_from r (last_char x (Some c)) rest 0.
Proof.
  intros H. simpl in *. rewrite H.
  change (String c (x ++ rest)) with (String c x ++ rest)%string.
  rewrite matched_app. simpl. now rewrite findall_from_skip.
Qed.

Lemma findall_from_miss (r : Re.regex) prev (c : ascii) (s : string) :
  Re.match_at r prev (String c s) = None ->
  Re.findall_from r prev (String c s) 0 = Re.findall_from r (Some c) s 0.
Proof.
  intros H. simpl. now rewrite H.
Qed.

(** ** [detect_placeholder] *)

Lemma pattern_boundary_free : boundary_free placeholder_pattern = true.
Proof. reflexivity. Qed.

Lemma detect_from_prev prev s :
  Re.findall_from placeholder_pattern prev s 0 = detect_placeholder s.
Proof.
  unfold detect_placeholder, Re.findall.
  apply findall_from_prev. exact pattern_boundary_free.
Qed.

Lemma name_char_not_brace c : name_char c = true -> Ascii.eqb "{" c = false.
Proof.
  intros H. destruct (Ascii.eqb "{" c) eqn:E; auto.
  apply Ascii.eqb_eq in E. subst c. discriminate H.
Qed.

Lemma match_token (tok : token) prev rest :
  valid_token tok = true ->
  Re.match_at placeholder_pattern prev (token_text tok ++ rest) = Some rest.
Proof.
  intros Hv. unfold Re.match_at, placeholder_pattern.
  destruct tok as [n|n|]; simpl in Hv.
  - cbn [token_text Re.run].
    rewrite !app_assoc_str. rewrite lit_app.
    rewrite star_run;
      [ rewrite lit_app; reflexivity | assumption | reflexivity
      | rewrite lit_app; discriminate ].
  - cbn [token_text Re.run].
    rewrite !app_assoc_str.
    assert (Hfirst : forall k, Re.lit "{{" prev ("{" ++ n ++ "}" ++ rest) k = None).
    { intros k. destruct n as [|c n]; [reflexivity|].
      simpl in Hv. apply andb_true_iff in Hv. destruct Hv as [Hc _].
      change (Re.lit "{{" prev (String "{" (String c (n ++ "}" ++ rest))) k = None).
      cbn [Re.lit]. rewrite Ascii.eqb_refl.
      now rewrite (name_char_not_brace _ Hc). }
    rewrite Hfirst. rewrite lit_app.
    rewrite star_run;
      [ rewrite lit_app; reflexivity | assumption | reflexivity
      | rewrite lit_app; discriminate ].
  - reflexivity.
Qed.

Lemma match_sound prev s t :
  Re.match_at placeholder_pattern prev s = Some t ->
  exists tok, valid_token tok = true /\ s = (token_text tok ++ t)%string.
Proof.
  unfold Re.match_at, placeholder_pattern. cbn [Re.run].
  destruct (Re.lit "{{" prev s _) eqn:E1.
  - intros H; inversion H; subst.
    apply lit_sound in E1. destruct E1 as (s1 & -> & E1).
    apply star_sound in E1. destruct E1 as (n & s2 & -> & Hn & E1).
    apply lit_sound in E1. destruct E1 as (s3 & -> & E1).
    inversion E1; subst.
    exists (DoubleBrace n). split; auto. simpl. now rewrite !app_assoc_str.
  - destruct (Re.lit "{" prev s _) eqn:E2.
    + intros H; inversion H; subst.
      apply lit_sound in E2. destruct E2 as (s1 & -> & E2).
      apply star_sound in E2. destruct E2 as (n & s2 & -> & Hn & E2).
      apply lit_sound in E2. destruct E2 as (s3 & -> & E2).
      inversion E2; subst.
      exists (SingleBrace n). split; auto. simpl. now rewrite !app_assoc_str.
    + intros H. apply lit_sound in H. destruct H as (s1 & -> & H).
      inversion H; subst. exists Marker. split; auto.
Qed.

Lemma token_text_nonempty tok : exists c x, token_text tok = String c x.
Proof.
  destruct tok; simpl; eauto.
Qed.

Lemma detect_token (tok : token) rest :
  valid_token tok = true ->
  detect_placeholder (token_text tok ++ rest) = token_text tok :: detect_placeholder rest.
Proof.
  intros Hv. unfold detect_placeholder at 1. unfold Re.findall.
  destruct (token_text_nonempty tok) as (c & x & Hx).
  pose proof (match_token tok None rest Hv) as Hm.
  rewrite Hx in *. rewrite (findall_from_hit _ _ _ _ _ Hm).
  now rewrite detect_from_prev.
Qed.

Lemma detect_no_token (c : ascii) rest :
  (forall tok, valid_token tok = true ->
               String.prefix (token_text tok) (String c rest) = false) ->
  detect_placeholder (String c rest) = detect_placeholder rest.
Proof.
  intros Hno. unfold detect_placeholder at 1. unfold Re.findall.
  rewrite findall_from_miss.
  - apply detect_from_prev.
  - destruct (Re.match_at placeholder_pattern None (String c rest)) eqn:E; auto.
    apply match_sound in E. destruct E as (tok & Hv & Hs).
    specialize (Hno tok Hv). rewrite Hs, prefix_app in Hno. discriminate.
Qed.

Lemma token_not_at_space tok rest :
  String.prefix (token_text tok) (String " " rest) = false.
Proof.
  destruct tok; reflexivity.
Qed.

Lemma detect_join_tokens toks :
  forallb valid_token toks = true ->
  detect_placeholder (join_tokens toks) = map token_text toks.
Proof.
  induction toks as [|t toks IH]; intros Hv.
  - reflexivity.
  - simpl in Hv. apply andb_true_iff in Hv. destruct Hv as [Ht Hv].
    cbn [join_tokens map]. rewrite detect_token by assumption.
    f_equal. change (" " ++ join_tokens toks)%string with (String " " (join_tokens toks)).
    rewrite detect_no_token; auto. intros tok _. apply token_not_at_space.
Qed.

(** C8.  [detect_placeholder] returns the three placeholders of the sample
    text in order, and in general every double-brace, single-brace and
    literal PLACEHOLDER match from left to right: a text that starts with a
    placeholder yields it followed by the placeholders of the rest, a text
    that does not start with one yields those of its tail, and a sequence of
    placeholders, repeated or not, comes back as it is. *)
Theorem detect_placeholder_in_order :
  detect_placeholder "Hello {{name}}, see {topic} and PLACEHOLDER"
  = ["{{name}}"; "{topic}"; "PLACEHOLDER"]
  /\ (forall tok rest,
         valid_token tok = true ->
         detect_placeholder (token_text tok ++ rest)
         = token_text tok :: detect_placeholder rest)
  /\ (forall c rest,
         (forall tok, valid_token tok = true ->
                      String.prefix (token_text tok) (String c rest) = false) ->
         detect_placeholder (String c rest) = detect_placeholder rest)
  /\ (forall toks,
         forallb valid_token toks = true ->
         detect_placeholder (join_tokens toks) = map token_text toks)
  /\ detect_placeholder "{{x}} and {{x}}" = ["{{x}}"; "{{x}}"].
Proof.
  split; [reflexivity|].
  split; [exact detect_token|].
  split; [exact detect_no_token|].
  split; [exact detect_join_tokens|reflexivity].
Qed.

Lemma detect_placeholder_in_order_witness :
  detect_placeholder (join_tokens [DoubleBrace "name"; SingleBrace "topic"; Marker;
                                   DoubleBrace "name"])
  = ["{{name}}"; "{topic}"; "PLACEHOLDER"; "{{name}}"].
Proof.
  exact (proj1 (proj2 (proj2 (proj2 detect_placeholder_in_order)))
           [DoubleBrace "name"; SingleBrace "topic"; Marker; DoubleBrace "name"]
           eq_refl).
Defined.

(** ** Word counting *)

Lemma span_spec (cls : ascii -> bool) s :
  s = (fst (span cls s) ++ snd (span cls s))%string
  /\ all_chars cls (fst (span cls s)) = true
  /\ stops cls (snd (span cls s)) = true.
Proof.
  induction s as [|c s IH]; simpl; auto.
  destruct (cls c) eqn:E.
  - destruct (span cls s) as [run rest]. simpl in *.
    destruct IH as (H1 & H2 & H3). rewrite E. repeat split; auto. now f_equal.
  - simpl. rewrite E. auto.
Qed.

Lemma last_char_word n c :
  all_chars Str.word_char n = true -> Str.word_char c = true ->
  Re.is_word (last_char n (Some c)) = true.
Proof.
  revert c. induction n as [|d n IH]; intros c Hn Hc; simpl in *; auto.
  apply andb_true_iff in Hn. destruct Hn as [Hd Hn]. now apply IH.
Qed.

Lemma stops_not_word rest :
  stops Str.word_char rest = true -> Re.is_word (Re.next_char rest) = false.
Proof.
  destruct rest as [|d rest]; simpl; auto. apply negb_true_iff.
Qed.

Lemma word_match_hit prev c run rest :
  Re.is_word prev = false ->
  Str.word_char c = true ->
  all_chars Str.word_char run = true ->
  stops Str.word_char rest = true ->
  Re.match_at word_pattern prev (String c run ++ rest) = Some rest.
Proof.
  intros Hp Hc Hrun Hrest. unfold Re.match_at, word_pattern. cbn [Re.run].
  change (String c run ++ rest)%string with (String c (run ++ rest)).
  unfold Re.at_boundary at 1. rewrite Hp. cbn [Re.next_char Re.is_word].
  rewrite Hc. cbn [xorb]. unfold Re.plus. rewrite Hc.
  assert (Hb : Re.at_boundary (last_char run (Some c)) rest = true).
  { unfold Re.at_boundary. rewrite (last_char_word _ _ Hrun Hc).
    now rewrite (stops_not_word _ Hrest). }
  rewrite star_run; auto; rewrite Hb; [reflexivity | discriminate].
Qed.

Lemma word_match_miss prev s :
  Re.is_word prev = true \/ Re.is_word (Re.next_char s) = false ->
  Re.match_at word_pattern prev s = None.
Proof.
  intros H. unfold Re.match_at, word_pattern. cbn [Re.run].
  unfold Re.at_boundary at 1.
  destruct (Re.is_word (Re.next_char s)) eqn:En.
  - destruct H as [H|H]; [|discriminate]. now rewrite H.
  - destruct (xorb _ _); auto. unfold Re.plus.
    destruct s as [|c s]; auto. simpl in En. now rewrite En.
Qed.

Lemma word_starts_all n :
  all_chars Str.word_char n = true -> word_starts true n = 0 /\ ends_in_word true n = true.
Proof.
  induction n as [|c n IH]; simpl; auto.
  intros H. apply andb_true_iff in H. destruct H as [Hc Hn].
  rewrite Hc. simpl. auto.
Qed.

Lemma count_from s :
  forall prev skip,
    (skip = 0 \/ (Re.is_word prev = true
                  /\ all_chars Str.word_char (Str.take skip s) = true)) ->
    List.length (Re.findall_from word_pattern prev s skip)
    = word_starts (Re.is_word prev) s.
Proof.
  induction s as [|c s IH]; intros prev skip Hskip.
  - destruct skip; simpl; auto.
    rewrite word_match_miss; auto.
  - destruct skip as [|n].
    + destruct (Str.word_char c && negb (Re.is_word prev)) eqn:E.
      * apply andb_true_iff in E. destruct E as [Hc Hp].
        apply negb_true_iff in Hp.
        destruct (span_spec Str.word_char s) as (Hs & Hrun & Hrest).
        set (run := fst (span Str.word_char s)) in *.
        set (rest := snd (span Str.word_char s)) in *.
        pose proof (word_match_hit prev c run rest Hp Hc Hrun Hrest) as Hm.
        rewrite Hs at 1.
        change (String c (run ++ rest)) with (String c run ++ rest)%string.
        rewrite (findall_from_hit _ _ _ _ _ Hm).
        cbn [List.length word_starts]. rewrite Hc, Hp. simpl negb. simpl andb.
        cbv iota. rewrite <- findall_from_skip.
        rewrite <- Hs. rewrite IH.
        -- cbn [Re.is_word]. rewrite Hc. reflexivity.
        -- right. split; [exact Hc|]. rewrite Hs. now rewrite take_app_length.
      * rewrite findall_from_miss.
        -- rewrite IH by auto. cbn [word_starts]. rewrite E. reflexivity.
        -- apply word_match_miss. simpl.
           apply andb_false_iff in E. destruct E as [E|E]; auto.
           apply negb_false_iff in E. auto.
    + destruct Hskip as [Hskip|[Hp Hall]]; [discriminate|].
      simpl in Hall. apply andb_true_iff in Hall. destruct Hall as [Hc Hall].
      cbn [Re.findall_from word_starts]. rewrite IH.
      * cbn [Re.is_word]. rewrite Hp, Hc. reflexivity.
      * right. auto.
Qed.

Lemma count_words_starts s : count_words s = Z.of_nat (word_starts false s).
Proof.
  unfold count_words, Re.findall. now rewrite count_from by auto.
Qed.

Lemma word_starts_app p x y :
  word_starts p (x ++ y) = word_starts p x + word_starts (ends_in_word p x) y.
Proof.
  revert p. induction x as [|c x IH]; intros p; simpl; auto.
  rewrite IH. lia.
Qed.

Lemma word_starts_name (name rest : string) :
  name <> EmptyString ->
  all_chars Str.word_char name = true ->
  word_starts false (name ++ String "}" rest)
  = 1 + word_starts false rest.
Proof.
  intros Hne Hall. destruct name as [|c n]; [contradiction|].
  simpl in Hall. apply andb_true_iff in Hall. destruct Hall as [Hc Hn].
  change (String c n ++ String "}" rest)%string with (String c (n ++ String "}" rest)).
  cbn [word_starts]. rewrite Hc. simpl negb. simpl andb. cbv iota.
  rewrite word_starts_app.
  destruct (word_starts_all n Hn) as [H0 H1]. rewrite H0, H1.
  reflexivity.
Qed.

Lemma count_words_double a name b :
  name <> EmptyString ->
  all_chars Str.word_char name = true ->
  count_words (a ++ token_text (DoubleBrace name) ++ b)
  = (count_words a + 1 + count_words b)%Z.
Proof.
  intros Hne Hall. rewrite !count_words_starts.
  rewrite word_starts_app. cbn [token_text].
  rewrite !app_assoc_str.
  change ("{{" ++ name ++ "}}" ++ b)%string
    with (String "{" (String "{" (name ++ String "}" (String "}" b)))).
  cbn [word_starts]. change (Str.word_char "{") with false. simpl andb. cbv iota.
  rewrite word_starts_name by assumption.
  cbn [word_starts]. change (Str.word_char "}") with false. simpl andb. cbv iota.
  lia.
Qed.

Lemma count_words_single a name b :
  name <> EmptyString ->
  all_chars Str.word_char name = true ->
  count_words (a ++ token_text (SingleBrace name) ++ b)
  = (count_words a + 1 + count_words b)%Z.
Proof.
  intros Hne Hall. rewrite !count_words_starts.
  rewrite word_starts_app. cbn [token_text].
  rewrite !app_assoc_str.
  change ("{" ++ name ++ "}" ++ b)%string
    with (String "{" (name ++ String "}" b)).
  cbn [word_starts]. change (Str.word_char "{") with false. simpl andb. cbv iota.
  rewrite word_starts_name by assumption. lia.
Qed.

(** ** [calculate_relative_word_positions] *)

Lemma drop_zero s : Str.drop 0 s = s.
Proof. destruct s; reflexivity. Qed.

Lemma lit_match_at p prev s :
  Re.match_at (Re.Lit p) prev s
  = if String.prefix p s then Some (Str.drop (String.length p) s) else None.
Proof.
  unfold Re.match_at. cbn [Re.run].
  revert prev s. induction p as [|c p IH]; intros prev s.
  - simpl. destruct s; reflexivity.
  - destruct s as [|d s]; [reflexivity|].
    cbn [Re.lit String.prefix String.length Str.drop].
    destruct (ascii_dec c d) as [->|Hne].
    + rewrite Ascii.eqb_refl. apply IH.
    + destruct (Ascii.eqb c d) eqn:E; auto.
      apply Ascii.eqb_eq in E. contradiction.
Qed.

Lemma matched_prefix p s :
  String.prefix p s = true -> Re.matched s (Str.drop (String.length p) s) = p.
Proof.
  intros H. destruct (prefix_split _ _ H) as [y ->].
  rewrite drop_app_length. apply matched_app.
Qed.

Lemma search_from_lit p s :
  forall prev start i m,
    Re.search_from (Re.Lit p) prev s start = Some (i, m) ->
    m = p /\ exists d, i = start + d
                       /\ String.prefix p (Str.drop d s) = true
                       /\ forall j, j < d -> String.prefix p (Str.drop j s) = false.
Proof.
  induction s as [|c s IH]; intros prev start i m H.
  - cbn [Re.search_from] in H. rewrite lit_match_at in H.
    destruct (String.prefix p "") eqn:E; [|discriminate].
    inversion H; subst. split.
    + now apply matched_prefix.
    + exists 0. rewrite drop_zero. repeat split; auto; lia.
  - cbn [Re.search_from] in H. rewrite lit_match_at in H.
    destruct (String.prefix p (String c s)) eqn:E.
    + inversion H; subst. split.
      * now apply matched_prefix.
      * exists 0. rewrite drop_zero. repeat split; auto; lia.
    + destruct (IH _ _ _ _ H) as (Hm & d & Hi & Hd & Hj).
      split; auto. exists (S d). repeat split; auto; try lia.
      intros j Hlt. destruct j as [|j]; [now rewrite drop_zero|].
      simpl. apply Hj. lia.
Qed.

Lemma search_first_occurrence p t i m :
  Re.search (Re.Lit p) t = Some (i, m) -> m = p /\ first_occurrence p t i.
Proof.
  intros H. apply search_from_lit in H.
  destruct H as (Hm & d & Hi & Hd & Hj). simpl in Hi. subst d.
  split; auto. split; auto.
Qed.

Lemma positions_loop_first t tw ps p pos :
  In (p, pos) (positions_loop t tw ps) ->
  exists i, first_occurrence p t i
            /\ pos = classify_relative_word_position (count_words (Str.take i t)) tw.
Proof.
  induction ps as [|q ps IH]; simpl; [contradiction|].
  destruct (Re.search (Re.Lit q) t) as [[i m]|] eqn:E; auto.
  intros [H|H]; auto. inversion H; subst.
  apply search_first_occurrence in E. destruct E as [_ E]. eauto.
Qed.

Lemma classify_rule (word_position total_words : Z) :
  classify_relative_word_position word_position total_words
  = if (3 * word_position <=? total_words)%Z then "Beginning"
    else if (2 * total_words <=? 3 * word_position)%Z then "End"
    else "Middle".
Proof.
  unfold classify_relative_word_position, Qle_bool. cbn -[Z.mul Z.leb].
  repeat match goal with
         | |- context [(?a <=? ?b)%Z] => destruct (Z.leb_spec a b)
         end; try reflexivity; lia.
Qed.

(** C7.  The placeholder of the three sample texts is placed in the
    middle, at the beginning and at the end.  The bucket is Beginning when
    the word index is at most a third of the word count, End when it is at
    least two thirds of it, Middle otherwise; thirds are exact, so word
    index 4 of 7 is in the middle although 7 // 3 * 2 = 4. *)
Theorem relative_word_position_buckets :
  calculate_relative_word_positions "a b c {{x}} d e f"
    (detect_placeholder "a b c {{x}} d e f") = [("{{x}}", "Middle")]
  /\ calculate_relative_word_positions "{{x}} a b c d e f"
       (detect_placeholder "{{x}} a b c d e f") = [("{{x}}", "Beginning")]
  /\ calculate_relative_word_positions "a b c d e f {{x}}"
       (detect_placeholder "a b c d e f {{x}}") = [("{{x}}", "End")]
  /\ (forall word_position total_words : Z,
         classify_relative_word_position word_position total_words
         = if (3 * word_position <=? total_words)%Z then "Beginning"
           else if (2 * total_words <=? 3 * word_position)%Z then "End"
           else "Middle")
  /\ classify_relative_word_position 4 7 = "Middle".
Proof.
  repeat split; try reflexivity. exact classify_rule.
Qed.

(** C10.  Word counts include the names inside placeholders: the sample
    text has 7 words, and a brace placeholder with a name of word
    characters adds one word wherever it stands, so the words counted before
    a placeholder include the names of the placeholders before it.  Every
    entry of [calculate_relative_word_positions] is computed at the first
    offset where the placeholder's text occurs, so a repeated placeholder
    gets the position of its first occurrence each time. *)
Theorem word_counts_include_placeholder_names :
  count_words "a b c {{x}} d e f" = 7%Z
  /\ (forall a name b,
         name <> EmptyString ->
         all_chars Str.word_char name = true ->
         count_words (a ++ token_text (DoubleBrace name) ++ b)
         = (count_words a + 1 + count_words b)%Z
         /\ count_words (a ++ token_text (SingleBrace name) ++ b)
            = (count_words a + 1 + count_words b)%Z)
  /\ calculate_relative_word_positions "{{a}} {{b}} {{c}}"
       (detect_placeholder "{{a}} {{b}} {{c}}")
     = [("{{a}}", "Beginning"); ("{{b}}", "Beginning"); ("{{c}}", "End")]
  /\ (forall prompt_template placeholders p pos,
         In (p, pos) (calculate_relative_word_positions prompt_template placeholders) ->
         exists i,
           first_occurrence p prompt_template i
           /\ pos = classify_relative_word_position
                      (count_words (Str.take i prompt_template))
                      (count_words prompt_template))
  /\ calculate_relative_word_positions "{{x}} a b c d e f {{x}}"
       (detect_placeholder "{{x}} a b c d e f {{x}}")
     = [("{{x}}", "Beginning"); ("{{x}}", "Beginning")].
Proof.
  split; [reflexivity|].
  split; [intros a name b Hne Hall; split;
          [now apply count_words_double | now apply count_words_single]|].
  split; [reflexivity|].
  split; [|reflexivity].
  intros t ps p pos H. now apply positions_loop_first in H.
Qed.

Lemma word_counts_include_placeholder_names_witness :
  count_words ("see " ++ token_text (DoubleBrace "topic") ++ " now") = 3%Z
  /\ exists i,
       first_occurrence "{x}" "a {x} b {x}" i
       /\ "Beginning" = classify_relative_word_position
                          (count_words (Str.take i "a {x} b {x}"))
                          (count_words "a {x} b {x}").
Proof.
  split.
  - exact (proj1 (proj1 (proj2 word_counts_include_placeholder_names)
                    "see " "topic" " now"
                    (fun H => match H with eq_refl => I end) eq_refl)).
  - exact (proj1 (proj2 (proj2 (proj2 word_counts_include_placeholder_names)))
             "a {x} b {x}" ["{x}"; "{x}"] "{x}" "Beginning"
             (or_introl eq_refl)).
Defined.

(** ** [get_close_matches] and [classify_placeholder_with_llm] *)

Lemma insert_desc_in p q l : In q (Difflib.insert_desc p l) -> q = p \/ In q l.
Proof.
  induction l as [|r l IH]; simpl.
  - intros [H|[]]; auto.
  - destruct (Difflib.scored_gt p r); simpl.
    + intros [H|[H|H]]; auto.
    + intros [H|H]; auto. destruct (IH H); auto.
Qed.

Lemma sort_desc_in q l : In q (Difflib.sort_desc l) -> In q l.
Proof.
  unfold Difflib.sort_desc.
  assert (G : forall l acc, In q (fold_left (fun sorted p => Difflib.insert_desc p sorted) l acc)
                            -> In q acc \/ In q l).
  { clear l. induction l as [|p l IH]; intros acc H; simpl in *; auto.
    destruct (IH _ H) as [H1|H1]; auto.
    destruct (insert_desc_in _ _ _ H1); auto. }
  intros H. destruct (G _ _ H) as [[]|H1]; auto.
Qed.

Lemma firstn_in {A : Type} n (l : list A) x : In x (firstn n l) -> In x l.
Proof.
  revert l. induction n as [|n IH]; intros [|y l]; simpl; auto.
  - contradiction.
  - intros [H|H]; auto.
Qed.

Lemma get_close_matches_in word possibilities n cutoff x :
  In x (Difflib.get_close_matches word possibilities n cutoff) ->
  In x possibilities /\ Difflib.close_enough cutoff word x = true.
Proof.
  unfold Difflib.get_close_matches. intros H.
  apply in_map_iff in H. destruct H as ([score y] & Hx & H). simpl in Hx. subst y.
  apply firstn_in in H. apply sort_desc_in in H.
  apply in_map_iff in H. destruct H as (y & Hy & H). inversion Hy; subst.
  now apply filter_In in H.
Qed.

Lemma get_close_matches_none word possibilities n cutoff :
  (forall c, In c possibilities ->
             Difflib.Qge_bool (Difflib.str_ratio c word) cutoff = false) ->
  Difflib.get_close_matches word possibilities n cutoff = [].
Proof.
  intros H. unfold Difflib.get_close_matches.
  replace (filter (Difflib.close_enough cutoff word) possibilities) with (@nil string).
  - destruct n; reflexivity.
  - symmetry. induction possibilities as [|c l IH]; simpl; auto.
    unfold Difflib.close_enough at 1. rewrite (H c) by (left; reflexivity).
    rewrite andb_false_r. apply IH. intros d Hd. apply H. now right.
Qed.

(** C9, counterexample.  The answer is User Question followed by 18
    spaces.  No category reaches similarity 0.6 with the answer as it came,
    and [get_close_matches] finds nothing close to it; yet the category
    returned is User Question, not Others, since the answer is stripped
    before it is compared. *)
Lemma classify_padded_answer :
  String.length padded_answer = 31
  /\ forallb (fun c => negb (Difflib.Qge_bool (Difflib.str_ratio c padded_answer) (6 # 10)))
       PLACEHOLDER_CATEGORIES = true
  /\ Difflib.get_close_matches padded_answer PLACEHOLDER_CATEGORIES 1 (6 # 10) = []
  /\ classify_placeholder_with_llm "{{question}}" "Answer {{question}}"
       (fun _ => Content padded_answer) start
     = (Ret "User Question", World 1 [])
  /\ "User Question" <> "Others".
Proof.
  split; [reflexivity|].
  split; [vm_compute; reflexivity|].
  split; [vm_compute; reflexivity|].
  split; [vm_compute; reflexivity|discriminate].
Qed.

(** C9, amended.  Whatever the service does on the request,
    [classify_placeholder_with_llm] returns normally with one of the five
    categories, after exactly one request; it returns Others when the
    request raised, and when no category reaches similarity 0.6 with the
    answer stripped of the white space around it. *)
Theorem classify_placeholder_in_taxonomy :
  forall placeholder prompt_template client w,
  exists category,
    classify_placeholder_with_llm placeholder prompt_template client w
    = (Ret category, World (S (calls w)) (slept w))
    /\ In category PLACEHOLDER_CATEGORIES
    /\ (forall error_message,
           client (calls w) = Failure error_message -> category = "Others")
    /\ (forall text,
           client (calls w) = Content text ->
           (forall c, In c PLACEHOLDER_CATEGORIES ->
                      Difflib.Qge_bool (Difflib.str_ratio c (Str.strip text)) (6 # 10)
                      = false) ->
           category = "Others").
Proof.
  intros placeholder prompt_template client w.
  unfold classify_placeholder_with_llm, try_except, bind, create.
  destruct (client (calls w)) as [text|msg] eqn:E.
  - destruct (Difflib.get_close_matches (Str.strip text) PLACEHOLDER_CATEGORIES 1 (6 # 10))
      as [|category rest] eqn:G.
    + exists "Others". split; [reflexivity|]. split; [simpl; tauto|].
      split; [discriminate|]. reflexivity.
    + exists category. split; [reflexivity|].
      assert (Hin : In category PLACEHOLDER_CATEGORIES).
      { apply (get_close_matches_in (Str.strip text) PLACEHOLDER_CATEGORIES 1 (6 # 10)).
        rewrite G. now left. }
      split; [exact Hin|]. split; [discriminate|].
      intros text' Ht Hnone. inversion Ht; subst text'.
      rewrite get_close_matches_none in G by assumption. discriminate.
  - exists "Others". split; [reflexivity|]. split; [simpl; tauto|].
    split; [reflexivity|]. discriminate.
Qed.

Lemma classify_placeholder_in_taxonomy_witness :
  exists category,
    classify_placeholder_with_llm "{{question}}" "Answer {{question}}"
      (fun _ => Content "I cannot tell") start
    = (Ret category, World 1 [])
    /\ category = "Others".
Proof.
  destruct (classify_placeholder_in_taxonomy "{{question}}" "Answer {{question}}"
              (fun _ => Content "I cannot tell") start)
    as (category & Hrun & _ & _ & Hlow).
  exists category. split; [exact Hrun|].
  apply (Hlow "I cannot tell"); [reflexivity|].
  intros c Hc. simpl in Hc.
  repeat (destruct Hc as [<-|Hc]; [vm_compute; reflexivity|]).
  contradiction.
Defined.

Import ComponentIdentification.

(** ** The loops of [SequenceMatcher] end before their fuel does *)

Section MatchingBlocks.

Context {A : Type} (elt_eqb : A -> A -> bool).
Variables a b : list A.

Lemma passes_cons alo ahi blo bhi queue :
  passes ((alo, ahi, blo, bhi) :: queue) = 2 * (ahi - alo) + 1 + passes queue.
Proof. reflexivity. Qed.

Lemma j2len_get_bound j2len j n :
  runs_within n j2len -> Difflib.j2len_get j2len j <= n.
Proof.
  induction 1 as [|[j' k] l Hk _ IH]; cbn [Difflib.j2len_get]; [lia|].
  destruct (j' =? j); [exact Hk|exact IH].
Qed.

Lemma scan_row_within alo blo bhi i j2len js :
  alo <= i -> runs_within (i - alo) j2len ->
  forall newj2len bst,
    runs_within (S i - alo) newj2len -> block_within alo (S i) bst ->
    runs_within (S i - alo) (fst (Difflib.scan_row blo bhi i j2len js newj2len bst))
    /\ block_within alo (S i) (snd (Difflib.scan_row blo bhi i j2len js newj2len bst)).
Proof.
  intros Hi Hj. induction js as [|j js IH]; intros newj2len bst Hn Hb;
    cbn [Difflib.scan_row]; [auto|].
  destruct (j <? blo); [now apply IH|].
  destruct (bhi <=? j); [auto|].
  assert (Hk : match j with O => 0 | S j' => Difflib.j2len_get j2len j' end + 1
               <= S i - alo).
  { destruct j as [|j']; [lia|]. pose proof (j2len_get_bound j2len j' _ Hj). lia. }
  destruct (Difflib.bestsize bst <? _); apply IH;
    try (constructor; [exact Hk|exact Hn]); auto.
  unfold block_within. cbn [Difflib.besti Difflib.bestsize]. lia.
Qed.

Lemma scan_rows_within alo blo bhi n :
  forall i j2len bst,
    alo <= i -> runs_within (i - alo) j2len -> block_within alo i bst ->
    block_within alo (i + n)
      (Difflib.scan_rows elt_eqb a b blo bhi (seq i n) j2len bst).
Proof.
  induction n as [|n IH]; intros i j2len bst Hi Hj Hb; cbn [seq Difflib.scan_rows].
  - now rewrite Nat.add_0_r.
  - match goal with
    | |- context [Difflib.scan_row ?blo ?bhi ?i ?j2len ?js ?new ?bst] =>
        pose proof (scan_row_within alo blo bhi i j2len js Hi Hj new bst) as H;
        destruct (Difflib.scan_row blo bhi i j2len js new bst) as [newj2len bst']
    end.
    cbn [fst snd] in H. destruct H as [Hn' Hb']; [constructor| |].
    + destruct Hb as [H1 H2]. split; lia.
    + replace (i + S n) with (S i + n) by lia. apply IH; [lia| |exact Hb'].
      exact Hn'.
Qed.

Lemma extend_left_within alo blo ahi fuel :
  forall bst,
    block_within alo ahi bst ->
    block_within alo ahi (Difflib.extend_left elt_eqb a b fuel alo blo bst).
Proof.
  induction fuel as [|fuel IH]; intros bst Hb; cbn [Difflib.extend_left]; [exact Hb|].
  destruct (_ && _) eqn:E; [|exact Hb].
  apply andb_true_iff in E. destruct E as [E _].
  apply andb_true_iff in E. destruct E as [E _]. apply Nat.ltb_lt in E.
  apply IH. destruct Hb as [H1 H2]. unfold block_within.
  cbn [Difflib.besti Difflib.bestsize]. lia.
Qed.

Lemma extend_right_within alo ahi bhi fuel :
  forall bst,
    block_within alo ahi bst ->
    block_within alo ahi (Difflib.extend_right elt_eqb a b fuel ahi bhi bst).
Proof.
  induction fuel as [|fuel IH]; intros bst Hb; cbn [Difflib.extend_right]; [exact Hb|].
  destruct (_ && _) eqn:E; [|exact Hb].
  apply andb_true_iff in E. destruct E as [E _].
  apply andb_true_iff in E. destruct E as [E _]. apply Nat.ltb_lt in E.
  apply IH. destruct Hb as [H1 H2]. unfold block_within.
  cbn [Difflib.besti Difflib.bestsize]. lia.
Qed.

(** The two extension loops stop on their own test, not on their fuel. *)
Lemma extend_left_fuel alo blo extra :
  forall fuel bst,
    Difflib.besti bst <= fuel ->
    Difflib.extend_left elt_eqb a b (fuel + extra) alo blo bst
    = Difflib.extend_left elt_eqb a b fuel alo blo bst.
Proof.
  induction fuel as [|fuel IH]; intros bst Hf.
  - destruct extra as [|extra]; [reflexivity|]. cbn [Nat.add Difflib.extend_left].
    replace (Difflib.besti bst) with 0 by lia.
    destruct (alo <? 0) eqn:E; [apply Nat.ltb_lt in E; lia|reflexivity].
  - cbn [Nat.add Difflib.extend_left]. destruct (_ && _); [|reflexivity].
    apply IH. cbn [Difflib.besti]. lia.
Qed.

Lemma extend_right_fuel ahi bhi extra :
  forall fuel bst,
    ahi - (Difflib.besti bst + Difflib.bestsize bst) <= fuel ->
    Difflib.extend_right elt_eqb a b (fuel + extra) ahi bhi bst
    = Difflib.extend_right elt_eqb a b fuel ahi bhi bst.
Proof.
  induction fuel as [|fuel IH]; intros bst Hf.
  - destruct extra as [|extra]; [reflexivity|]. cbn [Nat.add Difflib.extend_right].
    destruct (Difflib.besti bst + Difflib.bestsize bst <? ahi) eqn:E; [|reflexivity].
    apply Nat.ltb_lt in E. lia.
  - cbn [Nat.add Difflib.extend_right]. destruct (_ && _); [|reflexivity].
    apply IH. cbn [Difflib.besti Difflib.bestsize]. lia.
Qed.

(** The longest match of a range lies in the range. *)
Lemma find_longest_match_within alo ahi blo bhi :
  alo <= ahi ->
  block_within alo ahi (Difflib.find_longest_match elt_eqb a b alo ahi blo bhi).
Proof.
  intros H. unfold Difflib.find_longest_match.
  apply extend_right_within, extend_left_within.
  replace ahi with (alo + (ahi - alo)) at 1 by lia.
  apply scan_rows_within; [lia| |].
  - constructor.
  - unfold block_within. cbn [Difflib.besti Difflib.bestsize]. lia.
Qed.

(** More fuel than [passes] changes nothing: the loop ends on an empty
    work list. *)
Lemma blocks_loop_fuel extra :
  forall fuel queue acc,
    Forall ordered queue -> passes queue <= fuel ->
    Difflib.blocks_loop elt_eqb a b (fuel + extra) queue acc
    = Difflib.blocks_loop elt_eqb a b fuel queue acc.
Proof.
  induction fuel as [|fuel IH]; intros queue acc Ho Hp.
  - destruct queue as [|[[[alo ahi] blo] bhi] queue].
    + destruct extra; reflexivity.
    + rewrite passes_cons in Hp. lia.
  - cbn [Nat.add Difflib.blocks_loop].
    destruct queue as [|[[[alo ahi] blo] bhi] queue]; [reflexivity|].
    inversion Ho as [|? ? Hr Ho']; subst. cbn [ordered] in Hr.
    pose proof (find_longest_match_within alo ahi blo bhi Hr) as [H1 H2].
    rewrite passes_cons in Hp.
    set (x := Difflib.find_longest_match elt_eqb a b alo ahi blo bhi) in *.
    destruct (Difflib.bestsize x =? 0) eqn:Ek; [apply IH; [exact Ho'|lia]|].
    apply Nat.eqb_neq in Ek.
    apply IH.
    + destruct ((Difflib.besti x + Difflib.bestsize x <? ahi)
                && (Difflib.bestj x + Difflib.bestsize x <? bhi)) eqn:E2;
        destruct ((alo <? Difflib.besti x) && (blo <? Difflib.bestj x)) eqn:E1;
        repeat constructor; auto; cbn [ordered]; lia.
    + destruct ((Difflib.besti x + Difflib.bestsize x <? ahi)
                && (Difflib.bestj x + Difflib.bestsize x <? bhi)) eqn:E2;
        destruct ((alo <? Difflib.besti x) && (blo <? Difflib.bestj x)) eqn:E1;
        rewrite ?passes_cons; lia.
Qed.

(** [get_matching_blocks] is what the loop gives with any larger fuel. *)
Lemma get_matching_blocks_fuel extra :
  Difflib.blocks_loop elt_eqb a b (2 * List.length a + 1 + extra)
    [(0, List.length a, 0, List.length b)] []
  = Difflib.get_matching_blocks elt_eqb a b.
Proof.
  unfold Difflib.get_matching_blocks. apply blocks_loop_fuel.
  - constructor; [cbn [ordered]; lia|constructor].
  - rewrite passes_cons. change (passes []) with 0. lia.
Qed.

End MatchingBlocks.

(** ** Dictionaries *)

Lemma text_eqb_eq s t : text_eqb s t = true <-> s = t.
Proof.
  unfold text_eqb. destruct (list_eq_dec N.eq_dec s t); split; auto; discriminate.
Qed.

Lemma text_eqb_refl s : text_eqb s s = true.
Proof. now apply text_eqb_eq. Qed.

Lemma text_eqb_sym s t : text_eqb s t = text_eqb t s.
Proof.
  destruct (text_eqb s t) eqn:E1, (text_eqb t s) eqn:E2; auto.
  - apply text_eqb_eq in E1. subst. now rewrite text_eqb_refl in E2.
  - apply text_eqb_eq in E2. subst. now rewrite text_eqb_refl in E1.
Qed.

Lemma dict_set_in d key v k w :
  In (k, w) (dict_set d key v) -> In (k, w) d \/ (k = key /\ w = v).
Proof.
  induction d as [|[k' w'] d IH]; simpl.
  - intros [H|[]]. inversion H; auto.
  - destruct (text_eqb k' key) eqn:E; simpl.
    + intros [H|H]; auto. inversion H; subst. apply text_eqb_eq in E. auto.
    + intros [H|H]; auto. destruct (IH H); auto.
Qed.

Lemma dict_set_get d key v : dict_get (dict_set d key v) key = Some v.
Proof.
  induction d as [|[k w] d IH]; simpl.
  - now rewrite text_eqb_refl.
  - destruct (text_eqb k key) eqn:E; simpl; rewrite E; auto.
Qed.

Lemma dict_set_get_other d key v k :
  k <> key -> dict_get (dict_set d key v) k = dict_get d k.
Proof.
  intros Hne. induction d as [|[k' w] d IH]; simpl.
  - destruct (text_eqb key k) eqn:E; auto. apply text_eqb_eq in E. congruence.
  - destruct (text_eqb k' key) eqn:E; simpl.
    + apply text_eqb_eq in E. subst k'.
      destruct (text_eqb key k) eqn:E'; auto. apply text_eqb_eq in E'. congruence.
    + destruct (text_eqb k' k); auto.
Qed.

Lemma dict_get_in d key : In key (map fst d) -> exists v, dict_get d key = Some v.
Proof.
  induction d as [|[k w] d IH]; simpl; [contradiction|].
  intros [H|H].
  - subst. rewrite text_eqb_refl. eauto.
  - destruct (text_eqb k key); eauto.
Qed.

Lemma dict_get_some d key v : dict_get d key = Some v -> In (key, v) d.
Proof.
  induction d as [|[k w] d IH]; simpl; [discriminate|].
  destruct (text_eqb k key) eqn:E; auto.
  intros H. inversion H; subst. apply text_eqb_eq in E. subst. now left.
Qed.

(** ** Numbers read back *)

Lemma starts_app p x y :
  starts p (x ++ y) = match x with EmptyString => starts p y | _ => starts p x end.
Proof. destruct x; reflexivity. Qed.

Lemma span_digits_split s ds r :
  Str.span_digits s = (ds, r) ->
  s = (ds ++ r)%string /\ all_chars Str.is_digit ds = true /\ starts Str.is_digit r = false.
Proof.
  revert ds r. induction s as [|c s IH]; intros ds r H; simpl in H.
  - inversion H; subst. auto.
  - destruct (Str.is_digit c) eqn:E.
    + destruct (Str.span_digits s) as [ds' r'] eqn:E'. inversion H; subst.
      destruct (IH _ _ eq_refl) as (H1 & H2 & H3). simpl. rewrite E.
      repeat split; auto. now f_equal.
    + inversion H; subst. simpl. rewrite E. auto.
Qed.

Lemma span_digits_app ds t :
  all_chars Str.is_digit ds = true -> starts Str.is_digit t = false ->
  Str.span_digits (ds ++ t) = (ds, t).
Proof.
  intros Hds Ht. induction ds as [|c ds IH]; simpl in *.
  - destruct t as [|d t]; simpl in *; auto. now rewrite Ht.
  - apply andb_true_iff in Hds. destruct Hds as [Hc Hds].
    rewrite Hc, IH; auto.
Qed.

Lemma delimited_plain t :
  delimited t = true ->
  starts Str.is_digit t = false /\ starts is_dot t = false /\ starts is_exp_mark t = false.
Proof.
  destruct t as [|c t]; simpl; auto. intros H.
  repeat (apply orb_true_iff in H; destruct H as [H|H]);
    apply Ascii.eqb_eq in H; subst c; auto.
Qed.

Lemma optional_split c s sign r :
  optional c s = (sign, r) -> s = (sign ++ r)%string.
Proof.
  unfold optional. destruct s as [|d s].
  - intros H; inversion H; reflexivity.
  - destruct (Ascii.eqb d c) eqn:E; intros H; inversion H; subst; auto.
    apply Ascii.eqb_eq in E. now subst.
Qed.

Lemma optional_again c s sign r t :
  optional c s = (sign, r) ->
  (sign = EmptyString -> starts (Ascii.eqb c) t = starts (Ascii.eqb c) r) ->
  optional c (sign ++ t) = (sign, t).
Proof.
  unfold optional. destruct s as [|d s].
  - intros H Ht; inversion H; subst. simpl. specialize (Ht eq_refl).
    destruct t as [|e t]; auto. simpl in Ht. rewrite Ascii.eqb_sym, Ht. reflexivity.
  - destruct (Ascii.eqb d c) eqn:E; intros H Ht; inversion H; subst; simpl.
    + now rewrite Ascii.eqb_refl.
    + specialize (Ht eq_refl). destruct t as [|e t]; auto.
      simpl in Ht. rewrite Ascii.eqb_sym, Ht, Ascii.eqb_sym, E. reflexivity.
Qed.

Lemma match_integer_reread s i r :
  match_integer s = Some (i, r) ->
  s = (i ++ r)%string
  /\ starts is_dot i = false /\ starts is_exp_mark i = false /\ i <> EmptyString
  /\ forall t, starts Str.is_digit t = false -> match_integer (i ++ t) = Some (i, t).
Proof.
  unfold match_integer.
  destruct (optional "-" s) as [sign s1] eqn:Hopt.
  pose proof (optional_split _ _ _ _ Hopt) as Hs.
  assert (Hsign : sign = "-" \/ sign = "").
  { unfold optional in Hopt. destruct s as [|d s]; [inversion Hopt; auto|].
    destruct (Ascii.eqb d "-"); inversion Hopt; auto. }
  destruct s1 as [|c s2]; [discriminate|].
  assert (Hc : sign = "" -> Ascii.eqb c "-" = false).
  { intros ->. unfold optional in Hopt. destruct s as [|d s]; [discriminate|].
    destruct (Ascii.eqb d "-") eqn:E; inversion Hopt; subst; auto. }
  assert (Hagain : forall u, optional "-" (sign ++ String c u) = (sign, String c u)).
  { intros u. destruct Hsign as [->| ->]; [reflexivity|].
    simpl. now rewrite (Hc eq_refl). }
  destruct (Ascii.eqb c "0") eqn:E0.
  - intros H; inversion H; subst i r. apply Ascii.eqb_eq in E0. subst c.
    split; [now rewrite app_assoc_str|].
    split; [destruct Hsign as [->| ->]; reflexivity|].
    split; [destruct Hsign as [->| ->]; reflexivity|].
    split; [destruct Hsign as [->| ->]; discriminate|].
    intros t Ht. rewrite app_assoc_str. change ("0" ++ t)%string with (String "0" t).
    rewrite Hagain. reflexivity.
  - destruct (Str.is_digit c) eqn:Ed; [|discriminate].
    destruct (Str.span_digits s2) as [ds rest] eqn:Hsp.
    intros H; inversion H; subst i r.
    destruct (span_digits_split _ _ _ Hsp) as (Hs2 & Hds & _).
    split; [rewrite app_assoc_str; simpl; now rewrite <- Hs2|].
    assert (Hnd : is_dot c = false /\ is_exp_mark c = false).
    { unfold is_dot, is_exp_mark.
      destruct (Ascii.eqb c ".") eqn:A1; [apply Ascii.eqb_eq in A1; subst; discriminate|].
      destruct (Ascii.eqb c "e") eqn:A2; [apply Ascii.eqb_eq in A2; subst; discriminate|].
      destruct (Ascii.eqb c "E") eqn:A3; [apply Ascii.eqb_eq in A3; subst; discriminate|].
      auto. }
    split; [destruct Hsign as [->| ->]; [reflexivity|apply Hnd]|].
    split; [destruct Hsign as [->| ->]; [reflexivity|apply Hnd]|].
    split; [destruct Hsign as [->| ->]; discriminate|].
    intros t Ht. rewrite app_assoc_str.
    change (String c ds ++ t)%string with (String c (ds ++ t)).
    rewrite Hagain, E0, Ed, span_digits_app; auto.
Qed.

Lemma match_frac_reread s f r :
  match_frac s = (f, r) ->
  s = (f ++ r)%string
  /\ (f = EmptyString \/ (starts is_dot f = true /\ starts Str.is_digit f = false
                          /\ starts is_exp_mark f = false))
  /\ forall t, starts Str.is_digit t = false -> starts is_dot t = false ->
               match_frac (f ++ t) = (f, t).
Proof.
  assert (Hempty : forall t, starts is_dot t = false -> match_frac t = (EmptyString, t)).
  { intros [|d t] Ht; auto. simpl in *. unfold is_dot in Ht. now rewrite Ht. }
  unfold match_frac. destruct s as [|d s1].
  - intros H; inversion H; subst. repeat split; auto; intros; now apply Hempty.
  - destruct (Ascii.eqb d ".") eqn:Ed.
    + destruct (Str.span_digits s1) as [ds rest] eqn:Hsp.
      destruct (span_digits_split _ _ _ Hsp) as (Hs1 & Hds & _).
      destruct ds as [|c ds].
      * intros H; inversion H; subst. repeat split; auto; intros; now apply Hempty.
      * intros H; inversion H; subst f r. apply Ascii.eqb_eq in Ed. subst d.
        split; [rewrite Hs1; reflexivity|].
        split; [right; repeat split; reflexivity|].
        intros t Ht _. change (String "." (String c ds) ++ t)%string
          with (String "." (String c ds ++ t)).
        cbv iota beta. change (Ascii.eqb "." ".") with true. cbv iota.
        rewrite span_digits_app; auto.
    + intros H; inversion H; subst. repeat split; auto; intros; now apply Hempty.
Qed.

Lemma optional_sign_reread s sign r :
  optional_sign s = (sign, r) ->
  s = (sign ++ r)%string
  /\ forall ds t,
       ds <> EmptyString -> all_chars Str.is_digit ds = true ->
       optional_sign (sign ++ ds ++ t) = (sign, (ds ++ t)%string).
Proof.
  unfold optional_sign, optional. destruct s as [|d s].
  - intros H; inversion H; subst. split; auto.
    intros [|c ds] t Hne Hds; [contradiction|]. simpl in *.
    apply andb_true_iff in Hds. destruct Hds as [Hc _].
    destruct (Ascii.eqb c "-") eqn:E1; [apply Ascii.eqb_eq in E1; subst; discriminate|].
    destruct (Ascii.eqb c "+") eqn:E2; [apply Ascii.eqb_eq in E2; subst; discriminate|].
    reflexivity.
  - destruct (Ascii.eqb d "-") eqn:E1.
    + intros H; inversion H; subst. apply Ascii.eqb_eq in E1. subst. split; auto.
    + destruct (Ascii.eqb d "+") eqn:E2.
      * intros H; inversion H; subst. apply Ascii.eqb_eq in E2. subst. split; auto.
      * intros H; inversion H; subst. split; auto.
        intros [|c ds] t Hne Hds; [contradiction|]. simpl in *.
        apply andb_true_iff in Hds. destruct Hds as [Hc _].
        destruct (Ascii.eqb c "-") eqn:E3; [apply Ascii.eqb_eq in E3; subst; discriminate|].
        destruct (Ascii.eqb c "+") eqn:E4; [apply Ascii.eqb_eq in E4; subst; discriminate|].
        reflexivity.
Qed.

Lemma match_exp_reread s e r :
  match_exp s = (e, r) ->
  s = (e ++ r)%string
  /\ (e = EmptyString \/ (starts is_exp_mark e = true /\ starts Str.is_digit e = false
                          /\ starts is_dot e = false))
  /\ forall t, starts Str.is_digit t = false -> starts is_exp_mark t = false ->
               match_exp (e ++ t) = (e, t).
Proof.
  assert (Hempty : forall t, starts is_exp_mark t = false -> match_exp t = (EmptyString, t)).
  { intros [|d t] Ht; auto. simpl in *. unfold is_exp_mark in Ht. now rewrite Ht. }
  unfold match_exp. destruct s as [|d s1].
  - intros H; inversion H; subst. repeat split; auto; intros; now apply Hempty.
  - destruct (Ascii.eqb d "e" || Ascii.eqb d "E") eqn:Ed.
    + destruct (optional_sign s1) as [sign s2] eqn:Hsign.
      destruct (optional_sign_reread _ _ _ Hsign) as (Hs1 & Hagain).
      destruct (Str.span_digits s2) as [ds rest] eqn:Hsp.
      destruct (span_digits_split _ _ _ Hsp) as (Hs2 & Hds & _).
      destruct ds as [|c ds].
      * intros H; inversion H; subst. repeat split; auto; intros; now apply Hempty.
      * intros H; inversion H; subst e r.
        split; [rewrite Hs1, Hs2; simpl; now rewrite app_assoc_str|].
        assert (Hd : Str.is_digit d = false /\ is_dot d = false).
        { unfold is_dot. apply orb_true_iff in Ed.
          destruct Ed as [Ed|Ed]; apply Ascii.eqb_eq in Ed; subst d; auto. }
        split; [right; simpl; unfold is_exp_mark; rewrite Ed; tauto|].
        intros t Ht _.
        change (String d (sign ++ String c ds) ++ t)%string
          with (String d ((sign ++ String c ds) ++ t)).
        cbv iota beta. rewrite Ed, app_assoc_str.
        rewrite Hagain by (auto; discriminate).
        rewrite span_digits_app; auto.
    + intros H; inversion H; subst. repeat split; auto; intros; now apply Hempty.
Qed.

(** A number read from [s] is read again, with the same value, from its
    own text followed by a delimiter. *)
Lemma match_number_reread s v r :
  match_number s = Some (v, r) ->
  exists x,
    s = (x ++ r)%string
    /\ (forall lit, v = Float lit -> lit = x)
    /\ (forall z, v = Int z -> z = int_of_literal x)
    /\ x <> EmptyString
    /\ forall t, delimited t = true -> match_number (x ++ t) = Some (v, t).
Proof.
  unfold match_number.
  destruct (match_integer s) as [[i s1]|] eqn:Hi; [|discriminate].
  destruct (match_frac s1) as [f s2] eqn:Hf.
  destruct (match_exp s2) as [e s3] eqn:He.
  destruct (match_integer_reread _ _ _ Hi) as (Hs & Hi1 & Hi2 & Hne & Hia).
  destruct (match_frac_reread _ _ _ Hf) as (Hs1 & Hf1 & Hfa).
  destruct (match_exp_reread _ _ _ He) as (Hs2 & He1 & Hea).
  intros H.
  assert (Hr : r = s3 /\ v = match f, e with
                               | EmptyString, EmptyString => Int (int_of_literal i)
                               | _, _ => Float (i ++ f ++ e)
                               end).
  { destruct f, e; inversion H; auto. }
  destruct Hr as [-> Hv].
  assert (Hre : forall t, delimited t = true ->
                          match_integer (i ++ f ++ e ++ t) = Some (i, (f ++ e ++ t)%string)
                          /\ match_frac (f ++ e ++ t) = (f, (e ++ t)%string)
                          /\ match_exp (e ++ t) = (e, t)).
  { intros t Ht. destruct (delimited_plain _ Ht) as (T1 & T2 & T3).
    split; [|split].
    - apply Hia. rewrite starts_app. destruct f as [|c f].
      + rewrite starts_app. destruct e as [|c e]; auto.
        destruct He1 as [He1|He1]; [discriminate|tauto].
      + destruct Hf1 as [Hf1|Hf1]; [discriminate|tauto].
    - apply Hfa.
      + rewrite starts_app. destruct e as [|c e]; auto.
        destruct He1 as [He1|He1]; [discriminate|tauto].
      + rewrite starts_app. destruct e as [|c e]; auto.
        destruct He1 as [He1|He1]; [discriminate|tauto].
    - now apply Hea. }
  exists (i ++ f ++ e)%string.
  split; [rewrite !app_assoc_str; now rewrite <- Hs2, <- Hs1|].
  split.
  { intros lit Hl. rewrite Hl in Hv. destruct f, e; inversion Hv; reflexivity. }
  split.
  { intros z Hz. rewrite Hz in Hv. destruct f, e; inversion Hv.
    now rewrite !app_empty_r. }
  split.
  { intros Hx. destruct i; [contradiction|discriminate]. }
  intros t Ht. destruct (Hre t Ht) as (R1 & R2 & R3).
  rewrite !app_assoc_str, R1, R2, R3. rewrite Hv. destruct f, e; reflexivity.
Qed.

(** ** Integers written and read back *)

Lemma string_of_uint_digits d :
  all_chars Str.is_digit (NilEmpty.string_of_uint d) = true.
Proof. induction d; simpl; auto. Qed.

(** The value of the digit at the head of the goal, computed. *)
Ltac digit_value :=
  match goal with
  | |- context [Z.of_N ?n] =>
      let v := eval vm_compute in (Z.of_N n) in change (Z.of_N n) with v
  end.

Lemma digits_value_acc d acc :
  Str.digits_value (NilEmpty.string_of_uint d) (Zpos acc) = Zpos (Pos.of_uint_acc d acc).
Proof.
  revert acc.
  induction d; intros acc;
    cbn [NilEmpty.string_of_uint Str.digits_value Pos.of_uint_acc]; auto;
    digit_value;
    match goal with
    | |- Str.digits_value _ ?a = Z.pos (Pos.of_uint_acc _ ?b) =>
        replace a with (Z.pos b) by lia
    end; apply IHd.
Qed.

Lemma digits_value_of_uint d :
  Str.digits_value (NilEmpty.string_of_uint d) 0 = Z.of_N (Pos.of_uint d).
Proof.
  induction d; cbn [NilEmpty.string_of_uint Str.digits_value Pos.of_uint]; auto;
    digit_value; cbn [Z.mul Z.add]; try apply IHd; apply digits_value_acc.
Qed.

(** No leading zero in the decimal writing of a positive number. *)
Lemma to_uint_normal p : forall l, Pos.to_uint p <> Decimal.D0 l.
Proof.
  intros l H.
  pose proof (Unsigned.to_of (Pos.to_uint p)) as Hn.
  rewrite Unsigned.of_to in Hn. cbn [N.to_uint] in Hn.
  rewrite H in Hn. rewrite unorm_D0 in Hn.
  unfold Decimal.unorm in Hn.
  destruct (Decimal.nzhead l) eqn:E; try discriminate.
  - inversion Hn; subst. apply (Unsigned.to_uint_nonzero p). exact H.
  - exact (nzhead_nonzero _ _ E).
Qed.

Lemma pos_repr_shape p :
  exists c ds,
    NilEmpty.string_of_uint (Pos.to_uint p) = String c ds
    /\ Str.is_digit c = true /\ Ascii.eqb c "0" = false /\ Ascii.eqb c "-" = false
    /\ all_chars Str.is_digit ds = true
    /\ Str.digits_value (String c ds) 0 = Zpos p.
Proof.
  pose proof (string_of_uint_digits (Pos.to_uint p)) as Hd.
  pose proof (digits_value_of_uint (Pos.to_uint p)) as Hv.
  rewrite Unsigned.of_to in Hv.
  pose proof (to_uint_normal p) as Hn.
  pose proof (Unsigned.to_uint_nonnil p) as Hnil.
  destruct (Pos.to_uint p) as [|l|l|l|l|l|l|l|l|l|l];
    [contradiction | elim (Hn l); reflexivity | ..];
    cbn [NilEmpty.string_of_uint] in *; eexists; eexists;
    (split; [reflexivity|]); repeat split; auto; exact Hd.
Qed.

(** [repr] of an integer is read as that integer. *)
Lemma int_repr_number z : match_number (int_repr z) = Some (Int z, EmptyString).
Proof.
  destruct z as [|p|p]; [reflexivity| |];
    destruct (pos_repr_shape p) as (c & ds & Hs & Hc & H0 & Hm & Hds & Hv);
    unfold match_number, match_integer, int_repr; rewrite Hs.
  - cbn [optional]. rewrite Hm, H0, Hc.
    rewrite <- (app_empty_r ds) at 1. rewrite span_digits_app by auto.
    cbn [append match_frac match_exp]. unfold int_of_literal.
    cbn [optional]. rewrite Hm, Hv. reflexivity.
  - cbn [optional]. rewrite Ascii.eqb_refl, H0, Hc.
    rewrite <- (app_empty_r ds) at 1. rewrite span_digits_app by auto.
    cbn [append match_frac match_exp]. unfold int_of_literal.
    cbn [optional]. rewrite Ascii.eqb_refl, Hv. reflexivity.
Qed.

Lemma int_repr_reread z t :
  delimited t = true -> match_number (int_repr z ++ t) = Some (Int z, t).
Proof.
  intros Ht. destruct (match_number_reread _ _ _ (int_repr_number z))
    as (x & Hx & _ & _ & _ & Hre).
  rewrite app_empty_r in Hx. subst x. now apply Hre.
Qed.

(** ** Strings written and read back *)

Lemma check_from_spec fuel p :
  forall n, check_from fuel n p = true ->
            forall m, (n <= m < n + N.of_nat fuel)%N -> p m = true.
Proof.
  induction fuel as [|fuel IH]; intros n H m Hm; [lia|].
  cbn [check_from] in H. destruct (p n) eqn:E; [|discriminate].
  destruct (N.eq_dec m n) as [->|Hne]; auto.
  apply (IH _ H). lia.
Qed.

Lemma hex_reads_back_all n : (n < 65536)%N -> hex_reads_back n = true.
Proof.
  intros H. apply (check_from_spec (N.to_nat 65536) hex_reads_back 0%N).
  - vm_compute. reflexivity.
  - lia.
Qed.

Lemma high_reads_back_all a : (a < 1024)%N -> high_reads_back a = true.
Proof.
  intros H. apply (check_from_spec (N.to_nat 1024) high_reads_back 0%N).
  - vm_compute. reflexivity.
  - lia.
Qed.

Lemma low_reads_back_all b : (b < 1024)%N -> low_reads_back b = true.
Proof.
  intros H. apply (check_from_spec (N.to_nat 1024) low_reads_back 0%N).
  - vm_compute. reflexivity.
  - lia.
Qed.

(** The two ten-bit halves of [m], put together again. *)
Lemma lor_halves m :
  N.lor (N.shiftl (N.shiftr m 10) 10) (N.land m 1023) = m.
Proof.
  apply N.bits_inj. intros n. rewrite N.lor_spec.
  change 1023%N with (N.ones 10). rewrite N.land_ones.
  destruct (N.lt_ge_cases n 10) as [Hn|Hn].
  - rewrite N.shiftl_spec_low by exact Hn.
    rewrite N.mod_pow2_bits_low by exact Hn. reflexivity.
  - rewrite N.shiftl_spec_high' by exact Hn.
    rewrite N.shiftr_spec'. rewrite N.mod_pow2_bits_high by exact Hn.
    rewrite orb_false_r. f_equal. lia.
Qed.

Lemma pair_reads_back_all m : (m < 1048576)%N -> pair_reads_back m = true.
Proof.
  intros H. unfold pair_reads_back.
  assert (Ha : (N.shiftr m 10 < 1024)%N).
  { rewrite N.shiftr_div_pow2. apply N.Div0.div_lt_upper_bound. exact H. }
  assert (Hb : (N.land m 1023 < 1024)%N).
  { change 1023%N with (N.ones 10). rewrite N.land_ones. now apply N.mod_lt. }
  assert (Ea : N.land (N.shiftr m 10) 1023 = N.shiftr m 10).
  { change 1023%N with (N.ones 10). rewrite N.land_ones. now apply N.mod_small. }
  rewrite Ea.
  pose proof (high_reads_back_all _ Ha) as Hh.
  pose proof (low_reads_back_all _ Hb) as Hl.
  unfold high_reads_back in Hh. unfold low_reads_back in Hl.
  apply andb_true_iff in Hh. destruct Hh as [Hh1 Hh2].
  apply andb_true_iff in Hl. destruct Hl as [Hl1 Hl2].
  apply N.eqb_eq in Hh2, Hl2.
  cbv zeta. rewrite Hh1, Hl1. cbn [andb]. apply N.eqb_eq.
  unfold join_surrogates. rewrite Hh2, Hl2. now rewrite lor_halves.
Qed.

Lemma decode_uXXXX_app x m rest :
  decode_uXXXX x = Some (m, EmptyString) -> decode_uXXXX (x ++ rest) = Some (m, rest).
Proof.
  destruct x as [|c1 [|c2 [|c3 [|c4 x]]]]; try discriminate.
  cbn [decode_uXXXX append].
  destruct (hex_value c1), (hex_value c2), (hex_value c3), (hex_value c4); try discriminate.
  intros H; inversion H; subst. reflexivity.
Qed.

Lemma decode_hex4 n rest :
  (n < 65536)%N -> decode_uXXXX (hex4 n ++ rest) = Some (n, rest).
Proof.
  intros H. apply decode_uXXXX_app.
  pose proof (hex_reads_back_all n H) as Hr. unfold hex_reads_back in Hr.
  destruct (decode_uXXXX (hex4 n)) as [[m [|c r]]|]; try discriminate.
  apply N.eqb_eq in Hr. now subst.
Qed.

(** Every code point is written in one of the four shapes. *)
Lemma escape_cases n : (n <= 1114111)%N -> escape_shape n.
Proof.
  intros Hn. unfold escape_char.
  destruct (N.eqb_spec n 92); [subst; now apply (Short 92%N backslash)|].
  destruct (N.eqb_spec n 34); [subst; now apply (Short 34%N dquote)|].
  destruct (N.eqb_spec n 8); [subst; now apply (Short 8%N "b"%char)|].
  destruct (N.eqb_spec n 12); [subst; now apply (Short 12%N "f"%char)|].
  destruct (N.eqb_spec n 10); [subst; now apply (Short 10%N "n"%char)|].
  destruct (N.eqb_spec n 13); [subst; now apply (Short 13%N "r"%char)|].
  destruct (N.eqb_spec n 9); [subst; now apply (Short 9%N "t"%char)|].
  destruct ((32 <=? n) && (n <=? 126))%N eqn:Er.
  - apply andb_true_iff in Er. destruct Er as [E1 E2].
    apply N.leb_le in E1, E2.
    assert (Hcode : Str.code (ascii_of_N n) = n).
    { unfold Str.code. apply N_ascii_embedding. lia. }
    apply (Plain n (ascii_of_N n)).
    + unfold escape_char.
      repeat match goal with
             | |- context [N.eqb n ?k] => destruct (N.eqb_spec n k); [contradiction|]
             end.
      replace ((32 <=? n) && (n <=? 126))%N with true; auto.
      symmetry. apply andb_true_iff. split; now apply N.leb_le.
    + destruct (Ascii.eqb (ascii_of_N n) dquote) eqn:E; auto.
      apply Ascii.eqb_eq in E. rewrite E in Hcode. vm_compute in Hcode. congruence.
    + destruct (Ascii.eqb (ascii_of_N n) backslash) eqn:E; auto.
      apply Ascii.eqb_eq in E. rewrite E in Hcode. vm_compute in Hcode. congruence.
    + rewrite Hcode. apply N.ltb_ge. lia.
    + exact Hcode.
  - destruct (N.ltb_spec n 65536).
    + apply Unicode; auto. unfold escape_char.
      repeat match goal with
             | |- context [N.eqb n ?k] => destruct (N.eqb_spec n k); [contradiction|]
             end.
      rewrite Er. destruct (N.ltb_spec n 65536); [reflexivity|lia].
    + pose proof (pair_reads_back_all (n - 65536) ltac:(lia)) as Hp.
      unfold pair_reads_back in Hp.
      apply andb_true_iff in Hp. destruct Hp as [Hp Hj].
      apply andb_true_iff in Hp. destruct Hp as [Hhi Hlo].
      apply N.eqb_eq in Hj.
      apply (Pair n (N.lor 55296 (N.land (N.shiftr (n - 65536) 10) 1023))
                    (N.lor 56320 (N.land (n - 65536) 1023))); auto.
      * unfold escape_char.
        repeat match goal with
               | |- context [N.eqb n ?k] => destruct (N.eqb_spec n k); [contradiction|]
               end.
        rewrite Er. destruct (N.ltb_spec n 65536); [lia|reflexivity].
      * rewrite Hj. lia.
Qed.

Lemma prefix_cons a x b y :
  String.prefix (String a x) (String b y) = Ascii.eqb a b && String.prefix x y.
Proof.
  cbn [String.prefix]. destruct (ascii_dec a b) as [->|Hne].
  - now rewrite Ascii.eqb_refl.
  - destruct (Ascii.eqb a b) eqn:E; auto. apply Ascii.eqb_eq in E. contradiction.
Qed.

Lemma prefix_empty y : String.prefix EmptyString y = true.
Proof. destruct y; reflexivity. Qed.

Lemma high_not_low n : is_high_surrogate n = true -> is_low_surrogate n = false.
Proof.
  unfold is_high_surrogate, is_low_surrogate. intros H.
  apply andb_true_iff in H. destruct H as [H1 H2]. apply N.leb_le in H1, H2.
  apply andb_false_iff. left. apply N.leb_gt. lia.
Qed.

Lemma high_bound n : is_high_surrogate n = true -> (n < 65536)%N.
Proof.
  unfold is_high_surrogate. intros H.
  apply andb_true_iff in H. destruct H as [H1 H2]. apply N.leb_le in H2. lia.
Qed.

Lemma low_bound n : is_low_surrogate n = true -> (n < 65536)%N.
Proof.
  unfold is_low_surrogate. intros H.
  apply andb_true_iff in H. destruct H as [H1 H2]. apply N.leb_le in H2. lia.
Qed.

Lemma escape_u_app n tail :
  (escape_u n ++ tail)%string = String backslash (String "u" (hex4 n ++ tail)).
Proof. reflexivity. Qed.

(** What the scanner sees when it looks past a high surrogate at the
    escape of the next character. *)
Lemma escape_lookahead d tail :
  (d <= 1114111)%N -> is_low_surrogate d = false ->
  String.prefix "\u" (escape_char d ++ tail) = true ->
  exists x s4,
    decode_uXXXX (Str.drop 2 (escape_char d ++ tail)) = Some (x, s4)
    /\ is_low_surrogate x = false.
Proof.
  intros Hd Hlow. destruct (escape_cases d Hd) as [esc He Hu Hb|c He Hq Hs Hc Hn|He Hn|hi lo He Hhi Hlo Hj];
    rewrite He.
  - cbn [append]. rewrite !prefix_cons. rewrite (Ascii.eqb_sym "u" esc), Hu.
    rewrite andb_false_r. discriminate.
  - cbn [append]. rewrite prefix_cons. rewrite (Ascii.eqb_sym _ c).
    fold backslash. rewrite Hs. discriminate.
  - intros _. rewrite escape_u_app. cbn [Str.drop].
    rewrite decode_hex4 by assumption. eauto.
  - intros _. rewrite app_assoc_str, escape_u_app. cbn [Str.drop].
    rewrite decode_hex4 by now apply high_bound.
    eexists. eexists. split; [reflexivity|]. now apply high_not_low.
Qed.

(** An escaped text and its closing quote are scanned as the text. *)
Lemma scanstring_escape s :
  forall fuel rest,
    wf_text s = true -> List.length s < fuel ->
    scanstring fuel (escape s ++ String dquote rest) = Scanned s rest.
Proof.
  induction s as [|n s IH]; intros fuel rest Hwf Hfuel;
    (destruct fuel as [|fuel]; [inversion Hfuel|]).
  - cbn [escape append scanstring]. now rewrite Ascii.eqb_refl.
  - cbn [wf_text] in Hwf.
    apply andb_true_iff in Hwf. destruct Hwf as [Hwf Hs].
    apply andb_true_iff in Hwf. destruct Hwf as [Hn Hadj].
    apply N.leb_le in Hn. apply negb_true_iff in Hadj.
    cbn [escape]. rewrite app_assoc_str.
    set (tail := (escape s ++ String dquote rest)%string).
    assert (Htail : scanstring fuel tail = Scanned s rest).
    { apply IH; auto. simpl in Hfuel. lia. }
    destruct (escape_cases n Hn) as [esc He Hu Hb|c He Hq Hsl Hc Hcn|He Hlt|hi lo He Hhi Hlo Hj];
      rewrite He.
    + cbn [append scanstring].
      change (Ascii.eqb backslash dquote) with false.
      rewrite Ascii.eqb_refl, Hu, Hb, Htail. reflexivity.
    + cbn [append scanstring]. rewrite Hq, Hsl, Hc, Htail, Hcn. reflexivity.
    + rewrite escape_u_app. cbn [scanstring].
      change (Ascii.eqb backslash dquote) with false.
      rewrite !Ascii.eqb_refl. rewrite decode_hex4 by assumption.
      destruct (is_high_surrogate n && String.prefix "\u" tail) eqn:Eh.
      * apply andb_true_iff in Eh. destruct Eh as [Eh Ep].
        rewrite Eh in Hadj. cbn [andb] in Hadj.
        destruct s as [|d s'].
        { subst tail. cbn [escape append] in Ep. rewrite prefix_cons in Ep.
          discriminate Ep. }
        cbn [wf_text] in Hs.
        apply andb_true_iff in Hs. destruct Hs as [Hs _].
        apply andb_true_iff in Hs. destruct Hs as [Hd _]. apply N.leb_le in Hd.
        subst tail. cbn [escape] in *. rewrite app_assoc_str in *.
        destruct (escape_lookahead d _ Hd Hadj Ep) as (x & s4 & Hx & Hxl).
        rewrite Hx, Hxl, Htail. reflexivity.
      * rewrite Htail. reflexivity.
    + rewrite app_assoc_str, escape_u_app. cbn [scanstring].
      change (Ascii.eqb backslash dquote) with false.
      rewrite !Ascii.eqb_refl. rewrite decode_hex4 by now apply high_bound.
      rewrite Hhi. rewrite escape_u_app. rewrite !prefix_cons, prefix_empty.
      change (Ascii.eqb "\" backslash) with true. rewrite Ascii.eqb_refl.
      cbn [andb Str.drop]. rewrite decode_hex4 by now apply low_bound.
      rewrite Hlo, Htail, Hj. reflexivity.
Qed.

(** ** Values written and read back *)

Lemma json_induction (P : json -> Prop) :
  P Null ->
  (forall b, P (Bool b)) ->
  (forall z, P (Int z)) ->
  (forall lit, P (Float lit)) ->
  (forall s, P (Str s)) ->
  (forall items, Forall P items -> P (Arr items)) ->
  (forall pairs, Forall (fun kv => P (snd kv)) pairs -> P (Obj pairs)) ->
  forall v, P v.
Proof.
  intros HNull HBool HInt HFloat HStr HArr HObj.
  fix IH 1. intros [|b|z|lit|s|items|pairs].
  - exact HNull.
  - apply HBool.
  - apply HInt.
  - apply HFloat.
  - apply HStr.
  - apply HArr. induction items as [|x items IHitems]; constructor.
    + apply IH.
    + exact IHitems.
  - apply HObj. induction pairs as [|[k x] pairs IHpairs]; constructor.
    + apply IH.
    + exact IHpairs.
Qed.

Lemma match_number_start s v r :
  match_number s = Some (v, r) -> starts is_number_start s = true.
Proof.
  unfold match_number, match_integer, optional, is_number_start.
  destruct s as [|c s]; [discriminate|]. cbn [starts].
  destruct (Ascii.eqb c "-") eqn:E; [now rewrite orb_true_r|].
  destruct (Ascii.eqb c "0") eqn:E0.
  - apply Ascii.eqb_eq in E0. now subst.
  - destruct (Str.is_digit c); [reflexivity|discriminate].
Qed.

Lemma number_start_value c : is_number_start c = true -> is_value_start c = true.
Proof.
  unfold is_number_start, is_value_start, is_ws. intros H.
  apply orb_true_iff in H. destruct H as [H|H].
  - destruct (Ascii.eqb c " ") eqn:E1; [apply Ascii.eqb_eq in E1; subst; discriminate|].
    destruct (Ascii.eqb c "009") eqn:E2; [apply Ascii.eqb_eq in E2; subst; discriminate|].
    destruct (Ascii.eqb c "010") eqn:E3; [apply Ascii.eqb_eq in E3; subst; discriminate|].
    destruct (Ascii.eqb c "013") eqn:E4; [apply Ascii.eqb_eq in E4; subst; discriminate|].
    destruct (Ascii.eqb c "]") eqn:E5; [apply Ascii.eqb_eq in E5; subst; discriminate|].
    reflexivity.
  - apply Ascii.eqb_eq in H. now subst.
Qed.

Lemma starts_weaken (p q : ascii -> bool) s :
  (forall c, p c = true -> q c = true) -> starts p s = true -> starts q s = true.
Proof. destruct s; simpl; auto. Qed.

Lemma wf_float_cases lit :
  wf_float lit = true ->
  lit = "NaN" \/ lit = "Infinity" \/ lit = "-Infinity"
  \/ match_number lit = Some (Float lit, EmptyString).
Proof.
  unfold wf_float. intros H.
  repeat (apply orb_true_iff in H; destruct H as [H|H]);
    try (apply String.eqb_eq in H; auto).
  destruct (match_number lit) as [[[| | |l| | |] [|c r]]|]; try discriminate.
  apply String.eqb_eq in H. subst. auto.
Qed.

Lemma int_repr_start z : starts is_number_start (int_repr z) = true.
Proof. exact (match_number_start _ _ _ (int_repr_number z)). Qed.

Lemma dumps_start v : wf v = true -> starts is_value_start (dumps v) = true.
Proof.
  destruct v as [|[|]|z|lit|s|items|pairs]; try reflexivity.
  - intros _. apply (starts_weaken is_number_start); [exact number_start_value|].
    apply int_repr_start.
  - cbn [wf dumps]. intros H.
    destruct (wf_float_cases _ H) as [->|[->|[->|Hm]]]; try reflexivity.
    apply (starts_weaken is_number_start); [exact number_start_value|].
    exact (match_number_start _ _ _ Hm).
Qed.

Lemma skip_ws_value s :
  starts is_value_start s = true -> skip_ws s = s.
Proof.
  destruct s as [|c s]; [discriminate|]. unfold is_value_start. cbn [starts].
  intros H. apply andb_true_iff in H. destruct H as [H _].
  apply negb_true_iff in H. unfold skip_ws. cbn [Str.lstrip_by]. now rewrite H.
Qed.

Lemma escape_length s : List.length s <= String.length (escape s).
Proof.
  induction s as [|n s IH]; [auto|].
  cbn [escape List.length]. rewrite length_app.
  assert (1 <= String.length (escape_char n)); [|lia].
  unfold escape_char.
  repeat match goal with
         | |- context [if ?b then _ else _] => destruct b
         end; cbn; lia.
Qed.

Lemma scan_once_number fuel s v r :
  match_number s = Some (v, r) -> scan_once (S fuel) s = Scanned v r.
Proof.
  intros H. pose proof (match_number_start _ _ _ H) as Hs.
  destruct s as [|c s]; [discriminate|]. cbn [starts] in Hs.
  cbn [scan_once].
  assert (Hne : forall d, is_number_start d = false -> Ascii.eqb c d = false).
  { intros d Hd. destruct (Ascii.eqb c d) eqn:E; auto.
    apply Ascii.eqb_eq in E. subst. congruence. }
  rewrite (Hne dquote), (Hne "{"%char), (Hne "["%char) by reflexivity.
  assert (Hp : forall d x, is_number_start d = false ->
                           String.prefix (String d x) (String c s) = false).
  { intros d x Hd. rewrite prefix_cons, Ascii.eqb_sym, (Hne d Hd). reflexivity. }
  rewrite !Hp by reflexivity. now rewrite H.
Qed.

Lemma join_cons sep x y l :
  join sep (x :: y :: l) = (x ++ sep ++ join sep (y :: l))%string.
Proof. reflexivity. Qed.

Lemma member_unfold kv : member kv = String dquote (member_tail kv).
Proof.
  unfold member, member_tail, encode_basestring_ascii, quoted.
  cbn [append]. now rewrite app_assoc_str.
Qed.

Lemma members_join kv pairs :
  join ", " (map member (kv :: pairs)) = String dquote (members_tail (kv :: pairs)).
Proof.
  revert kv. induction pairs as [|kv' pairs IH]; intros kv.
  - cbn [map join members_tail]. apply member_unfold.
  - cbn [map]. rewrite join_cons. cbn [map] in IH. rewrite IH.
    rewrite member_unfold. reflexivity.
Qed.

Lemma skip_ws_space s : skip_ws (String " " s) = skip_ws s.
Proof. reflexivity. Qed.

Lemma delimited_cons c s :
  Ascii.eqb c "," || Ascii.eqb c "}" || Ascii.eqb c "]" = true ->
  delimited (String c s) = true.
Proof. auto. Qed.

Lemma starts_app_l p x y : starts p x = true -> starts p (x ++ y) = true.
Proof. destruct x; [discriminate|auto]. Qed.

Lemma join_start p sep x l : starts p x = true -> starts p (join sep (x :: l)) = true.
Proof.
  intros H. destruct l as [|y l]; [exact H|].
  rewrite join_cons. now apply starts_app_l.
Qed.

Lemma skip_ws_comma s : skip_ws (String "," s) = String "," s.
Proof. reflexivity. Qed.

Lemma skip_ws_brace s : skip_ws (String "}" s) = String "}" s.
Proof. reflexivity. Qed.

Lemma skip_ws_bracket s : skip_ws (String "]" s) = String "]" s.
Proof. reflexivity. Qed.

(** The items of a written array, up to the closing bracket. *)
Lemma array_items_read_back x items :
  Forall read_back (x :: items) ->
  forallb wf (x :: items) = true ->
  forall fuel rest,
    String.length (join ", " (map dumps (x :: items))) + 1 < fuel ->
    array_items fuel (join ", " (map dumps (x :: items)) ++ String "]" rest)
    = Scanned (x :: items) rest.
Proof.
  revert x. induction items as [|y items IH]; intros x HF Hwf fuel rest Hfuel;
    (destruct fuel as [|fuel]; [inversion Hfuel|]);
    inversion HF as [|? ? Hx HF']; subst;
    cbn [forallb] in Hwf; apply andb_true_iff in Hwf; destruct Hwf as [Hwx Hwf].
  - cbn [map join] in *. cbn [array_items].
    rewrite (Hx Hwx fuel (String "]" rest)) by (auto; lia).
    reflexivity.
  - cbn [map] in *. rewrite join_cons in *. rewrite length_app in Hfuel.
    cbn [append String.length] in Hfuel.
    rewrite !app_assoc_str. cbn [array_items].
    rewrite (Hx Hwx fuel) by (auto; lia).
    cbn [append]. rewrite skip_ws_comma.
    change (Ascii.eqb "," "]") with false. change (Ascii.eqb "," ",") with true.
    cbv iota. rewrite skip_ws_space.
    rewrite skip_ws_value.
    + rewrite (IH y HF') by (auto; lia). reflexivity.
    + apply starts_app_l. apply join_start. apply dumps_start.
      cbn [forallb] in Hwf. apply andb_true_iff in Hwf. tauto.
Qed.

(** Members with distinct keys make the [dict] with those members. *)
Lemma dict_of_pairs_distinct pairs :
  distinct (map fst pairs) = true -> dict_of_pairs pairs = pairs.
Proof.
  unfold dict_of_pairs.
  assert (G : forall pairs acc,
             distinct (map fst (acc ++ pairs)) = true ->
             fold_left (fun d kv => dict_set d (fst kv) (snd kv)) pairs acc = acc ++ pairs).
  { clear pairs. induction pairs as [|[k v] pairs IH]; intros acc Hd.
    - now rewrite app_nil_r.
    - cbn [fold_left fst snd].
      assert (Hset : dict_set acc k v = acc ++ [(k, v)]).
      { clear IH. induction acc as [|[k' v'] acc IHacc]; [reflexivity|].
        cbn [app map fst distinct] in Hd.
        apply andb_true_iff in Hd. destruct Hd as [Hk Hd].
        cbn [dict_set]. destruct (text_eqb k' k) eqn:E.
        - apply negb_true_iff in Hk. rewrite map_app in Hk. cbn [map fst] in Hk.
          rewrite existsb_app in Hk. cbn [existsb] in Hk. rewrite E in Hk.
          cbn [orb] in Hk. rewrite orb_true_r in Hk. discriminate.
        - cbn [app]. now rewrite IHacc. }
      rewrite Hset. rewrite IH.
      + now rewrite <- app_assoc.
      + now rewrite <- app_assoc. }
  intros H. apply (G pairs []). exact H.
Qed.

Lemma skip_ws_colon s : skip_ws (String ":" s) = String ":" s.
Proof. reflexivity. Qed.

Lemma skip_ws_quote s : skip_ws (String dquote s) = String dquote s.
Proof. reflexivity. Qed.

Lemma members_tail_cons kv kv' pairs :
  members_tail (kv :: kv' :: pairs)
  = (member_tail kv ++ ", " ++ String dquote (members_tail (kv' :: pairs)))%string.
Proof. reflexivity. Qed.

(** One member read: the key, the colon, the value. *)
Lemma member_read_back k v fuel more :
  read_back v -> wf_text k = true -> wf v = true ->
  String.length (member_tail (k, v)) < fuel ->
  delimited more = true ->
  scanstring fuel (member_tail (k, v) ++ more)
  = Scanned k (String ":" (String " " (dumps v ++ more)))
  /\ scan_once fuel (skip_ws (String " " (dumps v ++ more))) = Scanned v more.
Proof.
  intros Hv Hk Hwv Hfuel Hmore. unfold member_tail in *. cbn [fst snd] in *.
  rewrite length_app in Hfuel. cbn [String.length append] in Hfuel.
  pose proof (escape_length k) as Hlen. split.
  - rewrite app_assoc_str. cbn [append].
    apply scanstring_escape; auto. lia.
  - rewrite skip_ws_space.
    rewrite skip_ws_value by (apply starts_app_l; now apply dumps_start).
    apply Hv; auto. lia.
Qed.

(** The members of a written object, up to the closing brace. *)
Lemma object_members_read_back kv pairs :
  Forall (fun kv => read_back (snd kv)) (kv :: pairs) ->
  forallb (fun kv => match kv with (k, x) => wf_text k && wf x end) (kv :: pairs) = true ->
  forall fuel rest,
    String.length (members_tail (kv :: pairs)) + 1 < fuel ->
    object_members fuel (members_tail (kv :: pairs) ++ String "}" rest)
    = Scanned (kv :: pairs) rest.
Proof.
  revert kv. induction pairs as [|kv' pairs IH]; intros [k v] HF Hwf fuel rest Hfuel;
    (destruct fuel as [|fuel]; [inversion Hfuel|]);
    inversion HF as [|? ? Hv HF']; subst; cbn [snd] in Hv;
    cbn [forallb] in Hwf; apply andb_true_iff in Hwf; destruct Hwf as [Hkv Hwf];
    apply andb_true_iff in Hkv; destruct Hkv as [Hk Hwv].
  - change (members_tail [(k, v)]) with (member_tail (k, v)) in *.
    destruct (member_read_back k v fuel (String "}" rest) Hv Hk Hwv) as [R1 R2];
      [lia|reflexivity|].
    cbn [object_members]. rewrite R1. rewrite skip_ws_colon. cbn [expect].
    change (Ascii.eqb ":" ":") with true. cbv iota. rewrite R2.
    rewrite skip_ws_brace. change (Ascii.eqb "}" "}") with true. reflexivity.
  - rewrite members_tail_cons in *. rewrite length_app in Hfuel.
    cbn [String.length append] in Hfuel. rewrite app_assoc_str.
    destruct (member_read_back k v fuel
                ((", " ++ String dquote (members_tail (kv' :: pairs))) ++ String "}" rest)
                Hv Hk Hwv) as [R1 R2]; [lia|reflexivity|].
    cbn [object_members]. rewrite R1. rewrite skip_ws_colon. cbn [expect].
    change (Ascii.eqb ":" ":") with true. cbv iota. rewrite R2.
    cbn [append]. rewrite skip_ws_comma.
    change (Ascii.eqb "," "}") with false. change (Ascii.eqb "," ",") with true.
    cbv iota. rewrite skip_ws_space, skip_ws_quote. cbn [expect].
    rewrite Ascii.eqb_refl.
    rewrite (IH kv' HF' Hwf) by lia. reflexivity.
Qed.

Ltac read_keyword :=
  cbn [dumps append scan_once];
  repeat (rewrite prefix_cons || rewrite prefix_empty);
  reflexivity.

(** Every well-formed value is read back from what [dumps] writes. *)
Theorem read_back_all v : read_back v.
Proof.
  induction v as [|b|z|lit|s|items HF|pairs HF] using json_induction;
    intros Hwf fuel rest Hfuel Hrest;
    (destruct fuel as [|fuel]; [inversion Hfuel|]).
  - read_keyword.
  - destruct b; read_keyword.
  - apply scan_once_number. now apply int_repr_reread.
  - cbn [wf dumps] in *.
    destruct (wf_float_cases _ Hwf) as [->|[->|[->|Hm]]]; try read_keyword.
    apply scan_once_number.
    destruct (match_number_reread _ _ _ Hm) as (x & Hx & _ & _ & _ & Hre).
    rewrite app_empty_r in Hx. subst x. now apply Hre.
  - cbn [wf dumps] in *. unfold encode_basestring_ascii, quoted in *.
    cbn [append String.length] in *. rewrite length_app in Hfuel.
    pose proof (escape_length s).
    rewrite app_assoc_str. cbn [append scan_once].
    rewrite Ascii.eqb_refl.
    rewrite scanstring_escape by (auto; lia). reflexivity.
  - cbn [wf dumps] in *. destruct items as [|x items]; [reflexivity|].
    cbn [append String.length] in *. rewrite length_app in Hfuel.
    cbn [String.length] in Hfuel.
    rewrite app_assoc_str. cbn [append scan_once].
    change (Ascii.eqb "[" dquote) with false. change (Ascii.eqb "[" "{") with false.
    change (Ascii.eqb "[" "[") with true. cbv iota.
    assert (Hstart : starts is_value_start
                       (join ", " (map dumps (x :: items)) ++ String "]" rest) = true).
    { apply starts_app_l. cbn [map]. apply join_start. apply dumps_start.
      cbn [forallb] in Hwf. apply andb_true_iff in Hwf. tauto. }
    rewrite skip_ws_value by exact Hstart.
    destruct (join ", " (map dumps (x :: items)) ++ String "]" rest)%string
      as [|d body] eqn:Hbody; [discriminate|].
    cbn [starts] in Hstart. unfold is_value_start in Hstart.
    apply andb_true_iff in Hstart. destruct Hstart as [_ Hd].
    apply negb_true_iff in Hd. rewrite Hd. rewrite <- Hbody.
    rewrite (array_items_read_back x items HF Hwf) by lia. reflexivity.
  - cbn [wf] in Hwf. apply andb_true_iff in Hwf. destruct Hwf as [Hwf Hdist].
    destruct pairs as [|kv pairs]; [reflexivity|].
    cbn [dumps] in *.
    change (map (fun kv0 : text * json =>
                   (encode_basestring_ascii (fst kv0) ++ ": " ++ dumps (snd kv0))%string)
              (kv :: pairs))
      with (map member (kv :: pairs)) in *.
    rewrite members_join in *.
    cbn [append String.length] in *. rewrite length_app in Hfuel.
    cbn [String.length] in Hfuel.
    rewrite app_assoc_str. cbn [append scan_once].
    change (Ascii.eqb "{" dquote) with false. change (Ascii.eqb "{" "{") with true.
    cbv iota. rewrite skip_ws_quote.
    change (Ascii.eqb dquote "}") with false. rewrite Ascii.eqb_refl. cbv iota.
    rewrite (object_members_read_back kv pairs HF Hwf) by lia.
    cbn [scanned_map]. now rewrite dict_of_pairs_distinct.
Qed.

(** [json.loads(json.dumps(v))] is [v]. *)
Lemma loads_dumps v : wf v = true -> loads (dumps v) = Ret v.
Proof.
  intros Hwf. unfold loads, decode.
  rewrite skip_ws_value by now apply dumps_start.
  rewrite <- (app_empty_r (dumps v)) at 2.
  rewrite (read_back_all v Hwf) by (auto; lia).
  reflexivity.
Qed.

(** ** What [loads] reads *)

Lemma code_bound c : (Str.code c < 256)%N.
Proof. apply N_ascii_bounded. Qed.

Lemma hex_value_bound c h : hex_value c = Some h -> (h < 16)%N.
Proof.
  unfold hex_value, Str.is_digit, Str.in_range.
  repeat match goal with
         | |- context [if ?b then _ else _] =>
             let E := fresh "E" in
             destruct b eqn:E;
             [apply andb_true_iff in E; destruct E as [E1 E2];
              apply N.leb_le in E1, E2; intros H; inversion H; lia|]
         end.
  discriminate.
Qed.

Lemma decode_uXXXX_spec s u r :
  decode_uXXXX s = Some (u, r) ->
  (u < 65536)%N /\ String.length s = 4 + String.length r.
Proof.
  destruct s as [|c1 [|c2 [|c3 [|c4 x]]]]; try discriminate.
  cbn [decode_uXXXX].
  destruct (hex_value c1) as [h1|] eqn:E1; [|discriminate].
  destruct (hex_value c2) as [h2|] eqn:E2; [|discriminate].
  destruct (hex_value c3) as [h3|] eqn:E3; [|discriminate].
  destruct (hex_value c4) as [h4|] eqn:E4; [|discriminate].
  apply hex_value_bound in E1, E2, E3, E4.
  intros H; inversion H; subst. split; [lia|reflexivity].
Qed.

Lemma backslash_char_bound esc ch : backslash_char esc = Some ch -> (ch < 128)%N.
Proof.
  unfold backslash_char.
  repeat match goal with
         | |- context [if ?b then _ else _] =>
             destruct b; [intros H; inversion H; lia|]
         end.
  discriminate.
Qed.

Lemma lor_below a b :
  (a < 1048576)%N -> (b < 1048576)%N -> (N.lor a b < 1048576)%N.
Proof.
  intros Ha Hb.
  destruct (N.eq_dec (N.lor a b) 0) as [E|E]; [rewrite E; lia|].
  change 1048576%N with (2 ^ 20)%N. apply N.log2_lt_pow2; [lia|].
  rewrite N.log2_lor.
  assert (La : (N.log2 a < 20)%N).
  { destruct (N.eq_dec a 0) as [->|Hne]; [reflexivity|].
    apply N.log2_lt_pow2; [lia|exact Ha]. }
  assert (Lb : (N.log2 b < 20)%N).
  { destruct (N.eq_dec b 0) as [->|Hne]; [reflexivity|].
    apply N.log2_lt_pow2; [lia|exact Hb]. }
  lia.
Qed.

Lemma join_surrogates_bound hi lo :
  is_high_surrogate hi = true -> is_low_surrogate lo = true ->
  (65536 <= join_surrogates hi lo <= 1114111)%N.
Proof.
  unfold is_high_surrogate, is_low_surrogate, join_surrogates. intros Hh Hl.
  apply andb_true_iff in Hh, Hl. destruct Hh as [H1 H2], Hl as [H3 H4].
  apply N.leb_le in H1, H2, H3, H4.
  assert (N.lor (N.shiftl (hi - 55296) 10) (lo - 56320) < 1048576)%N; [|lia].
  apply lor_below; [|lia]. rewrite N.shiftl_mul_pow2.
  change (2 ^ 10)%N with 1024%N. lia.
Qed.

Lemma not_surrogate n :
  (n < 55296)%N \/ (57343 < n)%N ->
  is_high_surrogate n = false /\ is_low_surrogate n = false.
Proof.
  unfold is_high_surrogate, is_low_surrogate. intros H.
  split; apply andb_false_iff; destruct H as [H|H];
    ((left; apply N.leb_gt; lia) || (right; apply N.leb_gt; lia)).
Qed.

Lemma scanned_map_inv {A B : Type} (f : A -> B) r b rest :
  scanned_map f r = Scanned b rest -> exists a, r = Scanned a rest /\ b = f a.
Proof.
  destruct r as [a rest'| |]; try discriminate.
  cbn [scanned_map]. intros H; inversion H; subst. eauto.
Qed.

(** A low surrogate at the head of a scanned text was written as an
    escape. *)
Lemma scanstring_low fuel s d t rest :
  scanstring fuel s = Scanned (d :: t) rest ->
  is_low_surrogate d = true ->
  String.prefix "\u" s = true
  /\ exists s4, decode_uXXXX (Str.drop 2 s) = Some (d, s4).
Proof.
  destruct fuel as [|fuel]; [discriminate|].
  destruct s as [|c s1]; [discriminate|]. cbn [scanstring].
  destruct (Ascii.eqb c dquote); [discriminate|].
  destruct (Ascii.eqb c backslash) eqn:Eb.
  - apply Ascii.eqb_eq in Eb. subst c.
    destruct s1 as [|esc s2]; [discriminate|].
    destruct (Ascii.eqb esc "u") eqn:Eu.
    + apply Ascii.eqb_eq in Eu. subst esc.
      destruct (decode_uXXXX s2) as [[uni s3]|] eqn:Ed; [|discriminate].
      destruct (is_high_surrogate uni && String.prefix "\u" s3) eqn:Eh.
      * apply andb_true_iff in Eh. destruct Eh as [Eh _].
        destruct (decode_uXXXX (Str.drop 2 s3)) as [[uni2 s4]|]; [|discriminate].
        destruct (is_low_surrogate uni2) eqn:El; intros H Hd;
          apply scanned_map_inv in H; destruct H as (a & _ & Ha);
          inversion Ha; subst.
        -- pose proof (join_surrogates_bound _ _ Eh El).
           destruct (not_surrogate (join_surrogates uni uni2)) as [_ Hn]; [lia|].
           congruence.
        -- rewrite (high_not_low _ Eh) in Hd. discriminate.
      * intros H Hd. apply scanned_map_inv in H. destruct H as (a & _ & Ha).
        inversion Ha; subst. split; [now rewrite !prefix_cons, prefix_empty|].
        exists s3. exact Ed.
    + destruct (backslash_char esc) as [ch|] eqn:Ec; [|discriminate].
      intros H Hd. apply scanned_map_inv in H. destruct H as (a & _ & Ha).
      inversion Ha; subst. apply backslash_char_bound in Ec.
      destruct (not_surrogate ch) as [_ Hn]; [lia|]. congruence.
  - destruct (Str.code c <? 32)%N; [discriminate|].
    intros H Hd. apply scanned_map_inv in H. destruct H as (a & _ & Ha).
    inversion Ha; subst. pose proof (code_bound c).
    destruct (not_surrogate (Str.code c)) as [_ Hn]; [lia|]. congruence.
Qed.

Lemma wf_text_cons c t :
  (c <= 1114111)%N ->
  (is_high_surrogate c = true ->
   forall d t', t = d :: t' -> is_low_surrogate d = false) ->
  wf_text t = true -> wf_text (c :: t) = true.
Proof.
  intros Hc Hh Ht. cbn [wf_text]. rewrite Ht, andb_true_r.
  apply andb_true_iff. split; [now apply N.leb_le|].
  apply negb_true_iff. destruct (is_high_surrogate c); [|reflexivity].
  destruct t as [|d t']; [reflexivity|]. cbn [andb]. now apply (Hh eq_refl d t').
Qed.

Lemma wf_text_small c t :
  (c < 55296)%N \/ (57343 < c <= 1114111)%N ->
  wf_text t = true -> wf_text (c :: t) = true.
Proof.
  intros Hc Ht. apply wf_text_cons; auto; [lia|].
  destruct (not_surrogate c) as [Hn _]; [lia|]. congruence.
Qed.

(** Every text [scanstring] gives is well formed. *)
Lemma scanstring_wf fuel :
  forall s t rest, scanstring fuel s = Scanned t rest -> wf_text t = true.
Proof.
  induction fuel as [|fuel IH]; intros s t rest; [discriminate|].
  destruct s as [|c s1]; [discriminate|]. cbn [scanstring].
  destruct (Ascii.eqb c dquote); [intros H; inversion H; reflexivity|].
  destruct (Ascii.eqb c backslash).
  - destruct s1 as [|esc s2]; [discriminate|].
    destruct (Ascii.eqb esc "u").
    + destruct (decode_uXXXX s2) as [[uni s3]|] eqn:Ed; [|discriminate].
      destruct (decode_uXXXX_spec _ _ _ Ed) as [Hu _].
      destruct (is_high_surrogate uni && String.prefix "\u" s3) eqn:Eh.
      * apply andb_true_iff in Eh. destruct Eh as [Eh Ep].
        destruct (decode_uXXXX (Str.drop 2 s3)) as [[uni2 s4]|] eqn:Ed2;
          [|discriminate].
        destruct (is_low_surrogate uni2) eqn:El; intros H;
          apply scanned_map_inv in H; destruct H as (a & Ha & ->).
        -- pose proof (join_surrogates_bound _ _ Eh El) as Hj.
           apply wf_text_small; [lia|]. exact (IH _ _ _ Ha).
        -- apply wf_text_cons; [lia| |exact (IH _ _ _ Ha)].
           intros _ d t' ->. destruct (is_low_surrogate d) eqn:Eld; [|reflexivity].
           destruct (scanstring_low _ _ _ _ _ Ha Eld) as (_ & s4' & Hd').
           rewrite Ed2 in Hd'. inversion Hd'; subst. congruence.
      * intros H. apply scanned_map_inv in H. destruct H as (a & Ha & ->).
        apply wf_text_cons; [lia| |exact (IH _ _ _ Ha)].
        intros Hh d t' ->. destruct (is_low_surrogate d) eqn:Eld; [|reflexivity].
        destruct (scanstring_low _ _ _ _ _ Ha Eld) as (Hp & _).
        rewrite Hh, Hp in Eh. discriminate.
    + destruct (backslash_char esc) as [ch|] eqn:Ec; [|discriminate].
      apply backslash_char_bound in Ec.
      intros H. apply scanned_map_inv in H. destruct H as (a & Ha & ->).
      apply wf_text_small; [lia|]. exact (IH _ _ _ Ha).
  - destruct (Str.code c <? 32)%N; [discriminate|].
    pose proof (code_bound c) as Hc.
    intros H. apply scanned_map_inv in H. destruct H as (a & Ha & ->).
    apply wf_text_small; [lia|]. exact (IH _ _ _ Ha).
Qed.

Lemma drop_length n s : String.length (Str.drop n s) <= String.length s.
Proof.
  revert s. induction n as [|n IH]; intros [|c s]; cbn [Str.drop String.length]; auto.
Qed.

Lemma skip_ws_length s : String.length (skip_ws s) <= String.length s.
Proof.
  unfold skip_ws. induction s as [|c s IH]; cbn [Str.lstrip_by String.length]; auto.
  destruct (is_ws c); cbn [String.length]; lia.
Qed.

Lemma reads_map {A B : Type} (P : A -> bool) (Q : B -> bool) (f : A -> B) s s' r :
  reads P s' r ->
  (forall a, P a = true -> Q (f a) = true) ->
  String.length s' <= String.length s ->
  reads Q s (scanned_map f r).
Proof.
  destruct r as [a rest| |]; cbn [reads scanned_map]; auto.
  intros [Ha Hl] Hf Hs. split; [auto|lia].
Qed.

(** [scanstring] with more fuel than characters ends, on a shorter text. *)
Lemma scanstring_ends fuel :
  forall s, String.length s < fuel -> reads (fun _ => true) s (scanstring fuel s).
Proof.
  induction fuel as [|fuel IH]; intros s Hf; [inversion Hf|].
  assert (G : forall s' c, String.length s' < String.length s ->
                           reads (fun _ => true) s
                             (scanned_map (cons c) (scanstring fuel s'))).
  { intros s' c Hs'.
    apply (reads_map (fun _ => true) _ _ s s'); [apply IH; lia|auto|lia]. }
  destruct s as [|c s1]; [exact I|]. cbn [scanstring]. cbn [String.length] in *.
  destruct (Ascii.eqb c dquote); [cbn [reads String.length]; auto|].
  destruct (Ascii.eqb c backslash).
  - destruct s1 as [|esc s2]; [exact I|]. cbn [String.length] in *.
    destruct (Ascii.eqb esc "u").
    + destruct (decode_uXXXX s2) as [[uni s3]|] eqn:Ed; [|exact I].
      destruct (decode_uXXXX_spec _ _ _ Ed) as [_ Hl].
      destruct (is_high_surrogate uni && String.prefix "\u" s3); [|apply G; lia].
      destruct (decode_uXXXX (Str.drop 2 s3)) as [[uni2 s4]|] eqn:Ed2; [|exact I].
      destruct (decode_uXXXX_spec _ _ _ Ed2) as [_ Hl2].
      pose proof (drop_length 2 s3).
      destruct (is_low_surrogate uni2); apply G; lia.
    + destruct (backslash_char esc) as [ch|]; [apply G; lia|exact I].
  - destruct (Str.code c <? 32)%N; [exact I|apply G; lia].
Qed.

Lemma scanstring_reads fuel s :
  String.length s < fuel -> reads wf_text s (scanstring fuel s).
Proof.
  intros Hf. pose proof (scanstring_ends fuel s Hf) as H.
  destruct (scanstring fuel s) as [t rest| |] eqn:E; auto.
  split; [exact (scanstring_wf _ _ _ _ E)|exact (proj2 H)].
Qed.

Lemma match_number_wf s v rest :
  match_number s = Some (v, rest) ->
  wf v = true /\ String.length rest < String.length s.
Proof.
  intros H.
  destruct (match_number_reread _ _ _ H) as (x & Hs & Hf & _ & Hne & Hre).
  split.
  - assert (Hv : (exists z, v = Int z) \/ (exists lit, v = Float lit)).
    { unfold match_number in H.
      destruct (match_integer s) as [[i s1]|]; [|discriminate].
      destruct (match_frac s1) as [f s2]. destruct (match_exp s2) as [e s3].
      destruct f, e; inversion H; eauto. }
    destruct Hv as [[z ->]|[lit ->]]; [reflexivity|].
    specialize (Hf lit eq_refl). subst x.
    specialize (Hre EmptyString eq_refl). rewrite app_empty_r in Hre.
    cbn [wf]. unfold wf_float. rewrite Hre, String.eqb_refl. apply orb_true_r.
  - subst s. rewrite length_app. destruct x; [congruence|]. cbn [String.length]. lia.
Qed.

Lemma dict_set_wf d k v :
  forallb wf_member d = true -> wf_text k = true -> wf v = true ->
  forallb wf_member (dict_set d k v) = true.
Proof.
  intros Hd Hk Hv. induction d as [|[k' w] d IH]; cbn [dict_set forallb wf_member].
  - now rewrite Hk, Hv.
  - cbn [forallb wf_member] in Hd. apply andb_true_iff in Hd. destruct Hd as [Hkw Hd].
    apply andb_true_iff in Hkw. destruct Hkw as [Hk' Hw].
    destruct (text_eqb k' k); cbn [forallb wf_member].
    + now rewrite Hk', Hv, Hd.
    + now rewrite Hk', Hw, IH.
Qed.

Lemma dict_set_keys a d k v :
  existsb (text_eqb a) (map fst (dict_set d k v))
  = existsb (text_eqb a) (map fst d) || text_eqb a k.
Proof.
  induction d as [|[k' w] d IH]; cbn [dict_set map fst existsb].
  - apply orb_comm.
  - destruct (text_eqb k' k) eqn:E; cbn [map fst existsb].
    + apply text_eqb_eq in E. subst k'.
      destruct (text_eqb a k), (existsb (text_eqb a) (map fst d)); reflexivity.
    + rewrite IH. now rewrite orb_assoc.
Qed.

Lemma dict_set_distinct d k v :
  distinct (map fst d) = true -> distinct (map fst (dict_set d k v)) = true.
Proof.
  induction d as [|[k' w] d IH]; cbn [dict_set map fst distinct]; [reflexivity|].
  intros H. apply andb_true_iff in H. destruct H as [Hk Hd].
  destruct (text_eqb k' k) eqn:E; cbn [map fst distinct].
  - now rewrite Hk, Hd.
  - rewrite dict_set_keys, E, orb_false_r, Hk. now apply IH.
Qed.

(** The object built from scanned members is well formed. *)
Lemma dict_of_pairs_wf pairs :
  forallb wf_member pairs = true -> wf (Obj (dict_of_pairs pairs)) = true.
Proof.
  unfold dict_of_pairs.
  assert (G : forall acc,
             forallb wf_member acc = true -> distinct (map fst acc) = true ->
             forallb wf_member pairs = true ->
             wf (Obj (fold_left (fun d kv => dict_set d (fst kv) (snd kv)) pairs acc))
             = true).
  { induction pairs as [|[k v] pairs IH]; intros acc Ha Hd Hp.
    - cbn [fold_left wf]. change (forallb _ acc) with (forallb wf_member acc).
      now rewrite Ha, Hd.
    - cbn [forallb wf_member] in Hp. apply andb_true_iff in Hp. destruct Hp as [Hkv Hp].
      apply andb_true_iff in Hkv. destruct Hkv as [Hk Hv].
      cbn [fold_left fst snd]. apply IH; auto.
      + now apply dict_set_wf.
      + now apply dict_set_distinct. }
  intros H. now apply G.
Qed.

Lemma drop_shorter n c s :
  String.length (Str.drop (S n) (String c s)) < String.length (String c s).
Proof. cbn [Str.drop String.length]. pose proof (drop_length n s). lia. Qed.

Ltac reads_scanned :=
  cbv beta iota; cbn [reads]; split;
  [reflexivity|first [apply drop_shorter|cbn [String.length]; lia]].

(** The three scanners never run out of fuel on a text less than half as
    long, and what they give is well formed and leaves a shorter text. *)
Lemma parser_reads fuel :
  (forall s, 2 * String.length s < fuel -> reads wf s (scan_once fuel s))
  /\ (forall s, 2 * String.length s + 1 < fuel ->
                reads (forallb wf_member) s (object_members fuel s))
  /\ (forall s, 2 * String.length s + 1 < fuel ->
                reads (forallb wf) s (array_items fuel s)).
Proof.
  induction fuel as [|fuel (IH1 & IH2 & IH3)];
    [repeat split; intros s H; inversion H|].
  split; [|split]; intros s Hf.
  - destruct s as [|c s1]; [exact I|]. cbn [scan_once]. cbn [String.length] in Hf.
    destruct (Ascii.eqb c dquote).
    { apply (reads_map wf_text wf Str _ s1);
        [apply scanstring_reads; lia|auto|cbn [String.length]; lia]. }
    destruct (Ascii.eqb c "{").
    { pose proof (skip_ws_length s1) as Hw.
      destruct (skip_ws s1) as [|d s3]; [exact I|]. cbn [String.length] in Hw.
      destruct (Ascii.eqb d "}"); [reads_scanned|].
      destruct (Ascii.eqb d dquote); [|exact I].
      apply (reads_map (forallb wf_member) wf _ _ s3);
        [apply IH2; lia|exact dict_of_pairs_wf|cbn [String.length]; lia]. }
    destruct (Ascii.eqb c "[").
    { pose proof (skip_ws_length s1) as Hw.
      destruct (skip_ws s1) as [|d s3] eqn:E2.
      - apply (reads_map (forallb wf) wf Arr _ EmptyString);
          [apply IH3; cbn [String.length]; lia|auto|cbn [String.length]; lia].
      - cbn [String.length] in Hw.
        destruct (Ascii.eqb d "]"); [reads_scanned|].
        apply (reads_map (forallb wf) wf Arr _ (String d s3));
          [apply IH3; cbn [String.length]; lia|auto|cbn [String.length]; lia]. }
    destruct (String.prefix "null" (String c s1));
      [reads_scanned|].
    destruct (String.prefix "true" (String c s1));
      [reads_scanned|].
    destruct (String.prefix "false" (String c s1));
      [reads_scanned|].
    destruct (match_number (String c s1)) as [[v rest]|] eqn:En.
    { apply match_number_wf in En. exact En. }
    destruct (String.prefix "NaN" (String c s1));
      [reads_scanned|].
    destruct (String.prefix "Infinity" (String c s1));
      [reads_scanned|].
    destruct (String.prefix "-Infinity" (String c s1));
      [reads_scanned|].
    exact I.
  - cbn [object_members].
    pose proof (scanstring_reads fuel s) as Hk.
    destruct (scanstring fuel s) as [key s1| |]; [|exact I|apply Hk; lia].
    destruct Hk as [Hk Hl1]; [lia|].
    pose proof (skip_ws_length s1) as Hw1. unfold expect.
    destruct (skip_ws s1) as [|d1 s2]; [exact I|]. cbn [String.length] in Hw1.
    destruct (Ascii.eqb ":" d1); [|exact I].
    pose proof (skip_ws_length s2) as Hw2.
    pose proof (IH1 (skip_ws s2)) as Hv.
    destruct (scan_once fuel (skip_ws s2)) as [value s3| |]; [|exact I|apply Hv; lia].
    destruct Hv as [Hv Hl3]; [lia|].
    pose proof (skip_ws_length s3) as Hw3.
    destruct (skip_ws s3) as [|d s4]; [exact I|]. cbn [String.length] in Hw3.
    destruct (Ascii.eqb d "}").
    { cbn [reads forallb wf_member]. rewrite Hk, Hv. split; [reflexivity|lia]. }
    destruct (Ascii.eqb d ","); [|exact I].
    pose proof (skip_ws_length s4) as Hw4.
    destruct (skip_ws s4) as [|d5 s5]; [exact I|]. cbn [String.length] in Hw4.
    destruct (Ascii.eqb dquote d5); [|exact I].
    apply (reads_map (forallb wf_member) _ _ _ s5); [apply IH2; lia| |lia].
    intros a Ha. cbn [forallb wf_member]. now rewrite Hk, Hv, Ha.
  - cbn [array_items].
    pose proof (IH1 s) as Hv.
    destruct (scan_once fuel s) as [value s1| |]; [|exact I|apply Hv; lia].
    destruct Hv as [Hv Hl1]; [lia|].
    pose proof (skip_ws_length s1) as Hw1.
    destruct (skip_ws s1) as [|d s2]; [exact I|]. cbn [String.length] in Hw1.
    destruct (Ascii.eqb d "]").
    { cbn [reads forallb]. rewrite Hv. split; [reflexivity|lia]. }
    destruct (Ascii.eqb d ","); [|exact I].
    pose proof (skip_ws_length s2) as Hw2.
    apply (reads_map (forallb wf) _ _ _ (skip_ws s2)); [apply IH3; lia| |lia].
    intros a Ha. cbn [forallb]. now rewrite Hv, Ha.
Qed.

(** [decode] with the fuel [loads] gives it. *)
Lemma decode_reads s :
  match decode (2 * String.length s + 2) s with
  | Scanned v _ => wf v = true
  | Malformed => True
  | Exhausted => False
  end.
Proof.
  unfold decode. pose proof (skip_ws_length s) as Hw.
  destruct (parser_reads (2 * String.length s + 2)) as (H1 & _ & _).
  specialize (H1 (skip_ws s)).
  destruct (scan_once (2 * String.length s + 2) (skip_ws s)) as [v rest| |];
    [|exact I|apply H1; lia].
  destruct H1 as [Hv _]; [lia|]. now destruct (skip_ws rest).
Qed.

(** [loads] never runs out of fuel. *)
Lemma decode_fuel s : decode (2 * String.length s + 2) s <> Exhausted.
Proof.
  intros E. pose proof (decode_reads s) as H. now rewrite E in H.
Qed.

(** What [loads] returns is well formed. *)
Lemma loads_wf s v : loads s = Ret v -> wf v = true.
Proof.
  unfold loads. pose proof (decode_reads s) as H.
  destruct (decode _ s) as [v' rest| |]; [|discriminate|discriminate].
  intros E. inversion E; subst. exact H.
Qed.

(** [loads] raises only on a text that is not JSON. *)
Lemma loads_malformed s e :
  loads s = Raise e ->
  e = JSONDecodeError /\ decode (2 * String.length s + 2) s = Malformed.
Proof.
  unfold loads. pose proof (decode_fuel s) as Hf.
  destruct (decode _ s) as [v rest| |]; [discriminate| |congruence].
  intros H; inversion H; auto.
Qed.

(** ** [find_best_match] *)

Lemma best_match_loop_spec ks e bm br bm' br' :
  best_match_loop ks e bm br = (bm', br') ->
  (bm' = bm /\ br' = br)
  \/ exists key, In key ks /\ bm' = Some key /\ br' = Difflib.ratio N.eqb key e.
Proof.
  revert bm br. induction ks as [|k ks IH]; simpl; intros bm br H.
  - inversion H; auto.
  - destruct (Difflib.Qgt_bool (Difflib.ratio N.eqb k e) br).
    + destruct (IH _ _ H) as [[-> ->]|(key & Hin & -> & ->)]; right.
      * exists k. auto.
      * exists key. auto.
    + destruct (IH _ _ H) as [[-> ->]|(key & Hin & -> & ->)]; auto.
      right. exists key. auto.
Qed.

Lemma find_best_match_spec ks e bm br :
  find_best_match ks e = (bm, br) ->
  (bm = None /\ br = 0%Q)
  \/ exists key, In key ks /\ bm = Some key
                 /\ br = Difflib.ratio N.eqb key (of_str e).
Proof.
  unfold find_best_match. intros H. now apply best_match_loop_spec in H.
Qed.

(** ** [validate_and_clean_response] *)

Lemma loads_raise s e : loads s = Raise e -> e = JSONDecodeError.
Proof.
  unfold loads. destruct (decode _ s); intros H; inversion H; reflexivity.
Qed.

Lemma clean_loop_obj pairs thr expected :
  forall acc,
    clean_loop (Obj pairs) thr expected acc
    = Ret (fold_left (fun d e => dict_set d (of_str e) (chosen_value pairs thr e))
             expected acc).
Proof.
  induction expected as [|e expected IH]; intros acc; [reflexivity|].
  cbn [clean_loop keys fold_left]. unfold chosen_value at 2.
  match goal with
  | |- context [find_best_match ?ks ?x] =>
      destruct (find_best_match ks x) as [bm br] eqn:E
  end.
  destruct (truthy bm && Difflib.Qgt_bool br thr) eqn:T.
  - destruct bm as [key|]; [|discriminate].
    apply find_best_match_spec in E.
    destruct E as [[E _]|(key' & Hin & E & _)]; [discriminate|].
    inversion E; subst key'.
    destruct (dict_get_in _ _ Hin) as [v Hv].
    cbn [getitem]. rewrite Hv. apply IH.
  - apply IH.
Qed.

Lemma of_str_inj s t : of_str s = of_str t -> s = t.
Proof.
  unfold of_str. revert t. induction s as [|c s IH]; intros [|d t] H;
    simpl in H; try discriminate; auto.
  inversion H as [[Hc Hs]].
  apply (f_equal ascii_of_N) in Hc. rewrite !ascii_N_embedding in Hc.
  subst d. f_equal. now apply IH.
Qed.

Lemma clean_loop_expected pairs thr :
  clean_loop (Obj pairs) thr EXPECTED_COMPONENTS [] = Ret (cleaned_pairs pairs thr).
Proof.
  rewrite clean_loop_obj. reflexivity.
Qed.

Lemma validate_object response thr pairs :
  loads (Str.lower response) = Ret (Obj pairs) ->
  validate_and_clean_response response thr = Ret (dumps (Obj (cleaned_pairs pairs thr))).
Proof.
  intros H. unfold validate_and_clean_response. rewrite H.
  now rewrite clean_loop_expected.
Qed.

Lemma validate_decode_error response thr :
  loads (Str.lower response) = Raise JSONDecodeError ->
  validate_and_clean_response response thr = Ret get_default_response.
Proof.
  intros H. unfold validate_and_clean_response. now rewrite H.
Qed.

Lemma object_or_not v :
  (exists pairs, v = Obj pairs) \/ (forall pairs, v <> Obj pairs).
Proof. destruct v; eauto; right; discriminate. Qed.

Lemma validate_not_object response thr v :
  loads (Str.lower response) = Ret v ->
  (forall pairs, v <> Obj pairs) ->
  validate_and_clean_response response thr
  = Raise (AttributeError ("'" ++ type_name v ++ "' object has no attribute 'keys'")).
Proof.
  intros H Hv. unfold validate_and_clean_response. rewrite H.
  destruct v; try reflexivity. now elim (Hv pairs).
Qed.

Lemma chosen_value_origin pairs thr e :
  chosen_value pairs thr e = Str []
  \/ exists key, dict_get pairs key = Some (chosen_value pairs thr e).
Proof.
  unfold chosen_value.
  match goal with
  | |- context [find_best_match ?ks ?x] => destruct (find_best_match ks x) as [bm br]
  end.
  destruct (truthy bm && Difflib.Qgt_bool br thr); auto.
  destruct bm as [key|]; auto.
  destruct (dict_get pairs key) eqn:E; eauto.
Qed.

Lemma chosen_value_unmatched pairs thr e :
  (forall key, In key (map fst pairs) ->
               Difflib.Qgt_bool (Difflib.ratio N.eqb key (of_str e)) thr = false) ->
  chosen_value pairs thr e = Str [].
Proof.
  intros H. unfold chosen_value.
  match goal with
  | |- context [find_best_match ?ks ?x] =>
      destruct (find_best_match ks x) as [bm br] eqn:E
  end.
  apply find_best_match_spec in E.
  destruct E as [[-> ->]|(key & Hin & -> & ->)]; [reflexivity|].
  rewrite (H key Hin). now rewrite andb_false_r.
Qed.

Lemma cleaned_pairs_keys pairs thr :
  map fst (cleaned_pairs pairs thr) = map of_str EXPECTED_COMPONENTS.
Proof.
  unfold cleaned_pairs. rewrite map_map. reflexivity.
Qed.

Lemma cleaned_pairs_get pairs thr e :
  In e EXPECTED_COMPONENTS ->
  dict_get (cleaned_pairs pairs thr) (of_str e) = Some (chosen_value pairs thr e).
Proof.
  unfold cleaned_pairs. generalize EXPECTED_COMPONENTS as l.
  induction l as [|e' l IH]; simpl; [contradiction|].
  intros [H|H].
  - subst. now rewrite text_eqb_refl.
  - destruct (text_eqb (of_str e') (of_str e)) eqn:E; auto.
    apply text_eqb_eq, of_str_inj in E. now subst.
Qed.

Lemma cleaned_pairs_values pairs thr k v :
  In (k, v) (cleaned_pairs pairs thr) ->
  v = Str [] \/ exists key, dict_get pairs key = Some v.
Proof.
  unfold cleaned_pairs. intros Hin.
  apply in_map_iff in Hin. destruct Hin as (e & He & _). inversion He; subst.
  apply chosen_value_origin.
Qed.

Lemma default_pairs_values k v : In (k, v) default_pairs -> v = Str [].
Proof.
  unfold default_pairs. intros Hin.
  apply in_map_iff in Hin. destruct Hin as (e & He & _). now inversion He.
Qed.

Lemma default_is_cleaned_empty thr : cleaned_pairs [] thr = default_pairs.
Proof. reflexivity. Qed.

Lemma loads_default : loads get_default_response = Ret (Obj default_pairs).
Proof. vm_compute. reflexivity. Qed.

(** ** The cleaned map, written and read back *)

Lemma wf_text_latin t :
  Forall (fun c => (c < 256)%N) t -> wf_text t = true.
Proof.
  induction 1 as [|c t Hc _ IH]; [reflexivity|].
  apply wf_text_small; [lia|exact IH].
Qed.

Lemma of_str_wf s : wf_text (of_str s) = true.
Proof.
  apply wf_text_latin. unfold of_str. apply Forall_map.
  apply Forall_forall. intros c _. apply N_ascii_bounded.
Qed.

Lemma wf_member_in pairs k v :
  forallb wf_member pairs = true -> In (k, v) pairs -> wf v = true.
Proof.
  intros H Hin. rewrite forallb_forall in H. specialize (H _ Hin).
  cbn [wf_member] in H. apply andb_true_iff in H. tauto.
Qed.

Lemma chosen_value_wf pairs thr e :
  forallb wf_member pairs = true -> wf (chosen_value pairs thr e) = true.
Proof.
  intros H. destruct (chosen_value_origin pairs thr e) as [->|[key Hk]]; [reflexivity|].
  apply dict_get_some in Hk. exact (wf_member_in _ _ _ H Hk).
Qed.

Lemma cleaned_pairs_wf pairs thr :
  wf (Obj pairs) = true -> wf (Obj (cleaned_pairs pairs thr)) = true.
Proof.
  cbn [wf]. intros H. apply andb_true_iff in H. destruct H as [H _].
  apply andb_true_iff. split; [|now rewrite cleaned_pairs_keys].
  apply forallb_forall. intros [k v] Hin. unfold cleaned_pairs in Hin.
  apply in_map_iff in Hin. destruct Hin as (e & He & _). inversion He; subst.
  now rewrite of_str_wf, chosen_value_wf.
Qed.

Lemma default_pairs_wf : wf (Obj default_pairs) = true.
Proof. reflexivity. Qed.

(** [dumps] tells well-formed values apart. *)
Lemma dumps_inj a b : wf a = true -> wf b = true -> dumps a = dumps b -> a = b.
Proof.
  intros Ha Hb H. apply loads_dumps in Ha, Hb. rewrite H in Ha.
  rewrite Ha in Hb. now inversion Hb.
Qed.

Lemma cleaned_is_default pairs thr :
  wf (Obj pairs) = true ->
  String.eqb (dumps (Obj (cleaned_pairs pairs thr))) get_default_response = true
  <-> cleaned_pairs pairs thr = default_pairs.
Proof.
  intros Hwf. rewrite String.eqb_eq. split.
  - intros H.
    assert (E : Obj (cleaned_pairs pairs thr) = Obj default_pairs).
    { apply dumps_inj; [now apply cleaned_pairs_wf|exact default_pairs_wf|exact H]. }
    exact (f_equal (fun v => match v with Obj d => d | _ => [] end) E).
  - intros ->. reflexivity.
Qed.

(** What [validate_and_clean_response] returns reads back as a map with
    the expected keys: the cleaned map of the decoded object, or the
    all-empty one when the response is not JSON. *)
Lemma validate_reads_back response thr r :
  validate_and_clean_response response thr = Ret r ->
  exists cleaned,
    r = dumps (Obj cleaned)
    /\ loads r = Ret (Obj cleaned)
    /\ (loads (Str.lower response) = Raise JSONDecodeError /\ cleaned = default_pairs
        \/ exists parsed,
             loads (Str.lower response) = Ret (Obj parsed)
             /\ cleaned = cleaned_pairs parsed thr).
Proof.
  destruct (loads (Str.lower response)) as [v|e] eqn:E.
  - destruct v as [| | | | | |parsed];
      try (rewrite (validate_not_object _ _ _ E) by discriminate; discriminate).
    rewrite (validate_object _ _ _ E). intros H.
    assert (Hr : r = dumps (Obj (cleaned_pairs parsed thr))) by congruence.
    clear H. subst r.
    exists (cleaned_pairs parsed thr). split; [reflexivity|].
    split; [|right; eauto].
    apply loads_dumps, cleaned_pairs_wf. exact (loads_wf _ _ E).
  - pose proof (loads_raise _ _ E). subst e.
    rewrite (validate_decode_error _ _ E). intros H.
    assert (Hr : r = get_default_response) by congruence.
    clear H. subst r.
    exists default_pairs. split; [reflexivity|]. split; [exact loads_default|auto].
Qed.

(** ** [component_detection] *)

Lemma validate_raise response thr e :
  validate_and_clean_response response thr = Raise e ->
  exists v, e = AttributeError ("'" ++ type_name v ++ "' object has no attribute 'keys'").
Proof.
  destruct (loads (Str.lower response)) as [v|e'] eqn:E.
  - destruct (object_or_not v) as [[parsed ->]|Hv].
    + rewrite (validate_object _ _ _ E). discriminate.
    + rewrite (validate_not_object _ _ _ E Hv). intros H. exists v. congruence.
  - pose proof (loads_raise _ _ E). subst e'.
    rewrite (validate_decode_error _ _ E). discriminate.
Qed.

Lemma attribute_error_not_rate_limit v :
  let msg := ("'" ++ type_name v ++ "' object has no attribute 'keys'")%string in
  Str.contains "429" msg || Str.contains "Rate limit reached" msg = false.
Proof. destruct v; vm_compute; reflexivity. Qed.

Lemma detection_content_ok prompt client w text r :
  client (calls w) = Content text ->
  validate_and_clean_response text default_similarity_threshold = Ret r ->
  component_detection prompt client w = (Ret r, made_call w).
Proof.
  intros Hc Hv. unfold component_detection, try_except, bind, create, lift.
  now rewrite Hc, Hv.
Qed.

Lemma detection_content_raise prompt client w text e :
  client (calls w) = Content text ->
  validate_and_clean_response text default_similarity_threshold = Raise e ->
  component_detection prompt client w = (Ret get_default_response, made_call w).
Proof.
  intros Hc Hv. unfold component_detection, try_except, bind, create, lift.
  rewrite Hc, Hv. cbn [any_exception].
  destruct (validate_raise _ _ _ Hv) as [v ->]. cbn [message].
  now rewrite (attribute_error_not_rate_limit v).
Qed.

Ltac settle_detection :=
  cbn [calls slept fst snd];
  eexists; split;
  [| first [ left; reflexivity | right; eexists; reflexivity ] ];
  reflexivity.

Lemma detection_failure prompt client w msg :
  client (calls w) = Failure msg ->
  exists w',
    calls w' = S (calls w)
    /\ (component_detection prompt client w = (Ret get_default_response, w')
        \/ exists e, component_detection prompt client w = (Raise e, w')).
Proof.
  intros Hc. unfold component_detection, try_except, bind, create, lift.
  rewrite Hc. cbn [any_exception message].
  destruct (Str.contains "429" msg || Str.contains "Rate limit reached" msg);
    [|settle_detection].
  unfold component_detection_prompt_only, raise, ret.
  destruct (last_item (Str.split "in " msg)) as [after|e1].
  - destruct (first_item (Str.split "s" after)) as [before|e2].
    + destruct (float_of_string before) as [[|negative|q]|e3]; cbn [sleep].
      * settle_detection.
      * settle_detection.
      * destruct (Qle_bool 0 q); settle_detection.
      * destruct (is_IndexError e3 || is_ValueError e3); settle_detection.
    + destruct (is_IndexError e2 || is_ValueError e2); settle_detection.
  - destruct (is_IndexError e1 || is_ValueError e1); settle_detection.
Qed.

(** ** The retry loop *)

Lemma attempt_success prompt client w text parsed :
  client (calls w) = Content text ->
  loads (Str.lower text) = Ret (Obj parsed) ->
  cleaned_pairs parsed default_similarity_threshold <> default_pairs ->
  attempt prompt client get_default_response w
  = (Ret (Some (Obj (cleaned_pairs parsed default_similarity_threshold))), made_call w).
Proof.
  intros Hc Hl Hd. unfold attempt, try_except, bind, lift.
  pose proof (loads_wf _ _ Hl) as Hwf.
  rewrite (detection_content_ok _ _ _ _ _ Hc (validate_object _ _ _ Hl)).
  rewrite (loads_dumps _ (cleaned_pairs_wf _ _ Hwf)).
  destruct (String.eqb _ get_default_response) eqn:E; [|reflexivity].
  apply cleaned_is_default in E; [contradiction|exact Hwf].
Qed.

Lemma attempt_default prompt client w text parsed :
  client (calls w) = Content text ->
  loads (Str.lower text) = Ret (Obj parsed) ->
  cleaned_pairs parsed default_similarity_threshold = default_pairs ->
  attempt prompt client get_default_response w = (Ret None, made_call w).
Proof.
  intros Hc Hl Hd. unfold attempt, try_except, bind, lift.
  rewrite (detection_content_ok _ _ _ _ _ Hc (validate_object _ _ _ Hl)).
  rewrite Hd. change (dumps (Obj default_pairs)) with get_default_response.
  now rewrite loads_default, String.eqb_refl.
Qed.

Lemma attempt_decode_error prompt client w text :
  client (calls w) = Content text ->
  loads (Str.lower text) = Raise JSONDecodeError ->
  attempt prompt client get_default_response w = (Ret None, made_call w).
Proof.
  intros Hc Hl. unfold attempt, try_except, bind, lift.
  rewrite (detection_content_ok _ _ _ _ get_default_response Hc)
    by now apply validate_decode_error.
  now rewrite loads_default, String.eqb_refl.
Qed.

Lemma attempt_not_object prompt client w text v :
  client (calls w) = Content text ->
  loads (Str.lower text) = Ret v ->
  (forall parsed, v <> Obj parsed) ->
  attempt prompt client get_default_response w = (Ret None, made_call w).
Proof.
  intros Hc Hl Hv. unfold attempt, try_except, bind, lift.
  rewrite (detection_content_raise _ _ _ _ _ Hc (validate_not_object _ _ _ Hl Hv)).
  now rewrite loads_default, String.eqb_refl.
Qed.

Lemma attempt_failure prompt client w msg :
  client (calls w) = Failure msg ->
  exists w', attempt prompt client get_default_response w = (Ret None, w')
             /\ calls w' = S (calls w).
Proof.
  intros Hc. unfold attempt, try_except, bind, lift.
  destruct (detection_failure prompt client w msg Hc) as (w' & Hw & [H|[e H]]);
    rewrite H; exists w'.
  - now rewrite loads_default, String.eqb_refl.
  - cbn [any_exception]. now destruct (is_JSONDecodeError e || is_TypeError e).
Qed.

(** One pass of the loop makes one request; it returns only the cleaned
    map of an answer that decodes to an object, and only when that map is
    not the all-empty one. *)
Lemma attempt_spec prompt client w :
  exists o w',
    attempt prompt client get_default_response w = (Ret o, w')
    /\ calls w' = S (calls w)
    /\ forall components,
         o = Some components ->
         exists text parsed,
           client (calls w) = Content text
           /\ loads (Str.lower text) = Ret (Obj parsed)
           /\ cleaned_pairs parsed default_similarity_threshold <> default_pairs
           /\ components = Obj (cleaned_pairs parsed default_similarity_threshold)
           /\ w' = made_call w.
Proof.
  destruct (client (calls w)) as [text|msg] eqn:Hc.
  - destruct (loads (Str.lower text)) as [v|e] eqn:Hl.
    + destruct (object_or_not v) as [[parsed ->]|Hv].
      * assert (Hd : cleaned_pairs parsed default_similarity_threshold = default_pairs
                     \/ cleaned_pairs parsed default_similarity_threshold <> default_pairs).
        { destruct (String.eqb
                      (dumps (Obj (cleaned_pairs parsed default_similarity_threshold)))
                      get_default_response) eqn:E.
          - left. apply cleaned_is_default in E; [exact E|exact (loads_wf _ _ Hl)].
          - right. intros H. rewrite H in E.
            change (dumps (Obj default_pairs)) with get_default_response in E.
            now rewrite String.eqb_refl in E. }
        destruct Hd as [Hd|Hd].
        -- exists None, (made_call w).
           rewrite (attempt_default _ _ _ _ _ Hc Hl Hd).
           repeat split; auto. discriminate.
        -- exists (Some (Obj (cleaned_pairs parsed default_similarity_threshold))),
             (made_call w).
           rewrite (attempt_success _ _ _ _ _ Hc Hl Hd).
           split; [reflexivity|]. split; [reflexivity|].
           intros components H. exists text, parsed.
           repeat split; auto. congruence.
      * exists None, (made_call w).
        rewrite (attempt_not_object _ _ _ _ _ Hc Hl Hv).
        repeat split; auto. discriminate.
    + pose proof (loads_raise _ _ Hl) as ->.
      exists None, (made_call w).
      rewrite (attempt_decode_error _ _ _ _ Hc Hl).
      repeat split; auto. discriminate.
  - destruct (attempt_failure prompt client w msg Hc) as (w' & Ha & Hw).
    exists None, w'. rewrite Ha. repeat split; auto. discriminate.
Qed.

Lemma retry_loop_spec prompt client max_retries :
  forall fuel retries w,
    (max_retries - retries <= Z.of_nat fuel)%Z ->
    exists pairs w',
      retry_loop fuel prompt client get_default_response retries max_retries w
      = (Ret (Some (Obj pairs)), w')
      /\ calls w <= calls w'
      /\ (Z.of_nat (calls w') <= Z.of_nat (calls w) + Z.max 0 (max_retries - retries))%Z
      /\ (pairs = default_pairs
          \/ exists text parsed,
               calls w < calls w'
               /\ client (Nat.pred (calls w')) = Content text
               /\ loads (Str.lower text) = Ret (Obj parsed)
               /\ pairs = cleaned_pairs parsed default_similarity_threshold).
Proof.
  induction fuel as [|fuel IH]; intros retries w Hfuel.
  - cbn [retry_loop]. destruct (Z.ltb_spec retries max_retries); [lia|].
    unfold bind, lift, ret. rewrite loads_default.
    exists default_pairs, w. repeat split; auto; lia.
  - cbn [retry_loop]. destruct (Z.ltb_spec retries max_retries).
    + unfold bind at 1.
      destruct (attempt_spec prompt client w) as (o & w1 & Ha & Hw & Ho).
      rewrite Ha. destruct o as [components|].
      * destruct (Ho _ eq_refl) as (text & parsed & Hc & Hl & _ & -> & ->).
        exists (cleaned_pairs parsed default_similarity_threshold), (made_call w).
        unfold ret, made_call; cbn [calls].
        repeat split; try lia.
        right. exists text, parsed. cbn [Nat.pred]. repeat split; auto.
      * destruct (IH (retries + 1)%Z w1) as (pairs & w' & Hr & Hle & Hub & Hp); [lia|].
        exists pairs, w'. rewrite Hr. repeat split; try lia.
        destruct Hp as [Hp|(text & parsed & Hlt & Hrest)]; auto.
        right. exists text, parsed. split; [lia|exact Hrest].
    + unfold bind, lift, ret. rewrite loads_default.
      exists default_pairs, w. repeat split; auto; lia.
Qed.

Lemma retry_loop_unparseable prompt client max_retries :
  (forall k, exists text,
        client k = Content text /\ loads (Str.lower text) = Raise JSONDecodeError) ->
  forall fuel retries w,
    (max_retries - retries <= Z.of_nat fuel)%Z ->
    retry_loop fuel prompt client get_default_response retries max_retries w
    = (Ret (Some (Obj default_pairs)),
       World (calls w + Z.to_nat (max_retries - retries)) (slept w)).
Proof.
  intros Hclient. induction fuel as [|fuel IH]; intros retries w Hfuel.
  - cbn [retry_loop]. destruct (Z.ltb_spec retries max_retries); [lia|].
    unfold bind, lift, ret. rewrite loads_default.
    replace (Z.to_nat (max_retries - retries)) with 0 by lia.
    rewrite Nat.add_0_r. now destruct w.
  - cbn [retry_loop]. destruct (Z.ltb_spec retries max_retries).
    + unfold bind at 1. destruct (Hclient (calls w)) as (text & Hc & Hl).
      rewrite (attempt_decode_error _ _ _ _ Hc Hl).
      rewrite IH by lia. unfold made_call; cbn [calls slept].
      do 2 f_equal.
      replace (Z.to_nat (max_retries - retries))
        with (S (Z.to_nat (max_retries - (retries + 1)))) by lia.
      lia.
    + unfold bind, lift, ret. rewrite loads_default.
      replace (Z.to_nat (max_retries - retries)) with 0 by lia.
      rewrite Nat.add_0_r. now destruct w.
Qed.

(** ** The claims on component identification *)

(** C1.  The responses 5 and [[]] decode to a number and to a list;
    [validate_and_clean_response] raises on them and returns no map, where
    it returns the all-empty map on a response that is not JSON.
    [component_detection] turns the exception into the default response. *)
Theorem validate_raises_on_number :
  validate_and_clean_response "5" default_similarity_threshold
  = Raise (AttributeError "'int' object has no attribute 'keys'")
  /\ validate_and_clean_response "[]" default_similarity_threshold
     = Raise (AttributeError "'list' object has no attribute 'keys'")
  /\ validate_and_clean_response "five" default_similarity_threshold
     = Ret get_default_response
  /\ ~ (exists cleaned,
          validate_and_clean_response "5" default_similarity_threshold
          = Ret (dumps (Obj cleaned))
          /\ map fst cleaned = map of_str EXPECTED_COMPONENTS)
  /\ component_detection "Sort {items}" (fun _ => Content "5") start
     = (Ret get_default_response, World 1 []).
Proof.
  assert (H : validate_and_clean_response "5" default_similarity_threshold
              = Raise (AttributeError "'int' object has no attribute 'keys'"))
    by (vm_compute; reflexivity).
  split; [exact H|].
  split; [vm_compute; reflexivity|].
  split; [vm_compute; reflexivity|].
  split; [|vm_compute; reflexivity].
  intros (cleaned & Hc & _). rewrite H in Hc. discriminate.
Qed.

(** X15.  On the other responses the function does what it is meant to.
    When the lower-cased response is not JSON, or is a JSON object,
    [validate_and_clean_response] returns the text of a map with exactly
    the 8 expected keys, which [loads] reads back as that map:
    every value is the empty string or a value of the object, an expected
    key that no key of the object matches with similarity above 0.7 gets
    the empty string, and a response that is not JSON gives the all-empty
    map. *)
Theorem validate_exactly_expected_keys :
  forall response,
    (loads (Str.lower response) = Raise JSONDecodeError
     \/ exists pairs, loads (Str.lower response) = Ret (Obj pairs)) ->
    exists cleaned,
      validate_and_clean_response response default_similarity_threshold
      = Ret (dumps (Obj cleaned))
      /\ loads (dumps (Obj cleaned)) = Ret (Obj cleaned)
      /\ map fst cleaned = map of_str EXPECTED_COMPONENTS
      /\ (forall k v, In (k, v) cleaned ->
            v = Str []
            \/ exists pairs key,
                 loads (Str.lower response) = Ret (Obj pairs)
                 /\ dict_get pairs key = Some v)
      /\ (forall pairs e,
            loads (Str.lower response) = Ret (Obj pairs) ->
            In e EXPECTED_COMPONENTS ->
            (forall key, In key (map fst pairs) ->
               Difflib.Qgt_bool (Difflib.ratio N.eqb key (of_str e))
                 default_similarity_threshold = false) ->
            dict_get cleaned (of_str e) = Some (Str []))
      /\ (loads (Str.lower response) = Raise JSONDecodeError -> cleaned = default_pairs).
Proof.
  intros response [Hl|[pairs Hl]].
  - exists default_pairs. rewrite (validate_decode_error _ _ Hl).
    split; [reflexivity|]. split; [exact loads_default|]. split; [reflexivity|]. split.
    + intros k v Hin. left. now apply default_pairs_values in Hin.
    + split; [|reflexivity]. intros pairs e Hl'. rewrite Hl in Hl'. discriminate.
  - exists (cleaned_pairs pairs default_similarity_threshold).
    rewrite (validate_object _ _ _ Hl).
    split; [reflexivity|].
    split; [apply loads_dumps, cleaned_pairs_wf; exact (loads_wf _ _ Hl)|].
    split; [apply cleaned_pairs_keys|]. split.
    + intros k v Hin. apply cleaned_pairs_values in Hin.
      destruct Hin as [H|[key H]]; [now left|]. right. exists pairs, key. auto.
    + split.
      * intros pairs' e Hl' He Hno. rewrite Hl in Hl'.
        assert (pairs' = pairs) by congruence. subst pairs'.
        rewrite cleaned_pairs_get by assumption. f_equal.
        now apply chosen_value_unmatched.
      * intros Hl'. rewrite Hl in Hl'. discriminate.
Qed.

Lemma validate_exactly_expected_keys_witness :
  exists cleaned,
    validate_and_clean_response
      (object_text [("Directive", "Sort the list"); ("Mood", "calm")])
      default_similarity_threshold
    = Ret (dumps (Obj cleaned))
    /\ loads (dumps (Obj cleaned)) = Ret (Obj cleaned)
    /\ map fst cleaned = map of_str EXPECTED_COMPONENTS.
Proof.
  destruct (validate_exactly_expected_keys
              (object_text [("Directive", "Sort the list"); ("Mood", "calm")]))
    as (cleaned & Hv & Hl & Hk & _).
  - right. eexists. vm_compute. reflexivity.
  - exists cleaned. repeat split; assumption.
Defined.

(** C2.  Whatever the service does, and whatever the retry bound,
    [detect_component_with_retry] returns normally with a map that has
    exactly the 8 expected keys, after at most [max_retries] requests.  The
    map is the all-empty default one, or the cleaned map of the last answer
    received, whose lower-cased text then decodes to an object. *)
Theorem detect_component_never_raises :
  forall prompt client max_retries w,
  exists pairs w',
    detect_component_with_retry prompt client max_retries w
    = (Ret (Some (Obj pairs)), w')
    /\ calls w <= calls w'
    /\ (Z.of_nat (calls w') <= Z.of_nat (calls w) + Z.max 0 max_retries)%Z
    /\ map fst pairs = map of_str EXPECTED_COMPONENTS
    /\ (pairs = default_pairs
        \/ exists text parsed,
             calls w < calls w'
             /\ client (Nat.pred (calls w')) = Content text
             /\ loads (Str.lower text) = Ret (Obj parsed)
             /\ pairs = cleaned_pairs parsed default_similarity_threshold).
Proof.
  intros prompt client max_retries w. unfold detect_component_with_retry.
  destruct (retry_loop_spec prompt client max_retries (Z.to_nat max_retries) 0%Z w)
    as (pairs & w' & H1 & H2 & H3 & H4); [lia|].
  exists pairs, w'. rewrite Z.sub_0_r in H3.
  split; [exact H1|]. split; [exact H2|]. split; [exact H3|]. split; [|exact H4].
  destruct H4 as [->|(text & parsed & _ & _ & _ & ->)];
    [reflexivity|apply cleaned_pairs_keys].
Qed.

(** C3.  If every answer of the service is text that is not JSON, the
    orchestrator makes exactly [max_retries] requests, takes no pause and
    returns the all-empty default map; with the default bound that is 3
    requests. *)
Theorem retry_exhausts_on_unparseable :
  forall prompt client max_retries w,
    (0 <= max_retries)%Z ->
    (forall k, exists text,
          client k = Content text /\ loads (Str.lower text) = Raise JSONDecodeError) ->
    detect_component_with_retry prompt client max_retries w
    = (Ret (Some (Obj default_pairs)),
       World (calls w + Z.to_nat max_retries) (slept w))
    /\ Z.of_nat (calls w + Z.to_nat max_retries) = (Z.of_nat (calls w) + max_retries)%Z.
Proof.
  intros prompt client max_retries w Hmax Hclient. split; [|lia].
  unfold detect_component_with_retry.
  rewrite (retry_loop_unparseable prompt client max_retries Hclient) by lia.
  now rewrite Z.sub_0_r.
Qed.

Lemma retry_exhausts_on_unparseable_witness :
  detect_component_with_retry "Summarise {text}" (fun _ => Content "Sorry, I cannot.")
    default_max_retries start
  = (Ret (Some (Obj default_pairs)), World 3 []).
Proof.
  refine (proj1 (retry_exhausts_on_unparseable "Summarise {text}"
                   (fun _ => Content "Sorry, I cannot.") default_max_retries start _ _)).
  - vm_compute. discriminate.
  - intros k. exists "Sorry, I cannot.". split; [reflexivity|]. vm_compute. reflexivity.
Defined.

(** C4, counterexample.  The service fails once and then answers with the
    eight-key object [sample_reply].  The orchestrator stops after the
    second request, but the map it returns is not the map of the answer:
    its values are in lower case. *)
Lemma retry_returns_lowered_map :
  exists sent returned w',
    loads sample_reply = Ret (Obj sent)
    /\ detect_component_with_retry "Sort {items}" fails_once default_max_retries start
       = (Ret (Some (Obj returned)), w')
    /\ calls w' = 2
    /\ dict_get sent (of_str "profile/role") = Some (Str (of_str "You are a Bot"))
    /\ dict_get returned (of_str "profile/role") = Some (Str (of_str "you are a bot"))
    /\ returned <> sent.
Proof.
  eexists. eexists. eexists.
  split; [vm_compute; reflexivity|].
  split; [vm_compute; reflexivity|].
  split; [reflexivity|].
  split; [vm_compute; reflexivity|].
  split; [vm_compute; reflexivity|].
  intros H. apply (f_equal (fun d => dict_get d (of_str "profile/role"))) in H.
  vm_compute in H. discriminate.
Qed.

(** C4, amended.  If the first request fails and the second is answered
    with a text whose lower-cased form decodes to an object, and the
    cleaned map of that object is not the all-empty one, the orchestrator
    returns that cleaned map (the 8 expected keys, values as read from the
    lower-cased answer) and has made exactly two requests. *)
Theorem retry_stops_at_second_attempt :
  forall prompt client max_retries w msg text parsed,
    (2 <= max_retries)%Z ->
    client (calls w) = Failure msg ->
    client (S (calls w)) = Content text ->
    loads (Str.lower text) = Ret (Obj parsed) ->
    cleaned_pairs parsed default_similarity_threshold <> default_pairs ->
    exists w',
      detect_component_with_retry prompt client max_retries w
      = (Ret (Some (Obj (cleaned_pairs parsed default_similarity_threshold))), w')
      /\ calls w' = calls w + 2.
Proof.
  intros prompt client max_retries w msg text parsed Hmax H1 H2 Hl Hd.
  unfold detect_component_with_retry.
  destruct (Z.to_nat max_retries) as [|[|fuel]] eqn:Hf; try lia.
  cbn [retry_loop].
  destruct (Z.ltb_spec 0 max_retries); [|lia].
  unfold bind at 1.
  destruct (attempt_failure prompt client w msg H1) as (w1 & Ha & Hw1).
  rewrite Ha. destruct (Z.ltb_spec (0 + 1) max_retries); [|lia].
  unfold bind. rewrite <- Hw1 in H2.
  rewrite (attempt_success _ _ _ _ _ H2 Hl Hd).
  exists (made_call w1). split; [reflexivity|].
  unfold made_call; cbn [calls]. lia.
Qed.

Lemma retry_stops_at_second_attempt_witness :
  exists returned w',
    detect_component_with_retry "Sort {items}" fails_once default_max_retries start
    = (Ret (Some (Obj returned)), w')
    /\ calls w' = 2.
Proof.
  eexists.
  refine (retry_stops_at_second_attempt "Sort {items}" fails_once default_max_retries
            start "Connection error." sample_reply _ _ eq_refl eq_refl _ _).
  - vm_compute. discriminate.
  - vm_compute. reflexivity.
  - intros H. vm_compute in H. discriminate.
Defined.

(** ** The rate-limit fallback *)

Lemma float_of_string_raise s e : float_of_string s = Raise e -> is_ValueError e = true.
Proof.
  unfold float_of_string.
  repeat match goal with
         | |- context [match ?x with _ => _ end] => destruct x
         | |- context [if ?x then _ else _] => destruct x
         end;
    intros H; inversion H; reflexivity.
Qed.

(** C5.  On a rate-limit failure whose wait time does not parse,
    [component_detection] pauses for 60 and then raises: the call it makes
    to try again lacks two of its three arguments.  It returns no
    response; the pass of the retry loop that made the call ends in its
    handler of exceptions and counts as a failed one. *)
Theorem rate_limit_fallback_raises :
  forall prompt client w error_message piece e,
    client (calls w) = Failure error_message ->
    Str.contains "429" error_message
    || Str.contains "Rate limit reached" error_message = true ->
    wait_text error_message = Ret piece ->
    float_of_string piece = Raise e ->
    component_detection prompt client w
    = (Raise missing_arguments, World (S (calls w)) (slept w ++ [inject_Z 60]))
    /\ attempt prompt client get_default_response w
       = (Ret None, World (S (calls w)) (slept w ++ [inject_Z 60])).
Proof.
  intros prompt client w msg piece e Hc Hrate Hpiece Hfloat.
  assert (H : component_detection prompt client w
              = (Raise missing_arguments,
                 World (S (calls w)) (slept w ++ [inject_Z 60]))).
  { unfold component_detection, try_except, bind, create, lift.
    rewrite Hc. cbn [any_exception message]. rewrite Hrate.
    unfold wait_text in Hpiece.
    destruct (last_item (Str.split "in " msg)) as [after|e1]; [|discriminate].
    rewrite Hpiece, Hfloat.
    rewrite (float_of_string_raise _ _ Hfloat), orb_true_r.
    reflexivity. }
  split; [exact H|].
  unfold attempt, try_except, bind. rewrite H. reflexivity.
Qed.

Lemma rate_limit_fallback_raises_witness :
  component_detection "Sort {items}"
    (fun _ => Failure "Error code: 429 - Rate limit reached, please try again in a few moments")
    start
  = (Raise missing_arguments, World 1 [inject_Z 60]).
Proof.
  refine (proj1 (rate_limit_fallback_raises "Sort {items}" _ start
            "Error code: 429 - Rate limit reached, please try again in a few moments"
            "a few moment" (ValueError "could not convert string to float")
            eq_refl _ _ _)).
  - vm_compute. reflexivity.
  - vm_compute. reflexivity.
  - vm_compute. reflexivity.
Defined.

(** ** The values of the cleaned map *)

(** C6, counterexample.  The answer [{"directive": null}] gives a cleaned
    map that holds null under directive, and the orchestrator returns that
    map. *)
Lemma cleaned_map_holds_null :
  exists cleaned w',
    validate_and_clean_response (String "{" (quoted "directive" ++ ": null}"))
      default_similarity_threshold
    = Ret (dumps (Obj cleaned))
    /\ detect_component_with_retry "Sort {items}"
         (fun _ => Content (String "{" (quoted "directive" ++ ": null}")))
         default_max_retries start
       = (Ret (Some (Obj cleaned)), w')
    /\ dict_get cleaned (of_str "directive") = Some Null
    /\ all_strings cleaned = false.
Proof.
  exists (cleaned_pairs [(of_str "directive", Null)] default_similarity_threshold).
  exists (World 1 []).
  split; [vm_compute; reflexivity|].
  split; [vm_compute; reflexivity|].
  split; vm_compute; reflexivity.
Qed.

(** C6, amended.  Every map [validate_and_clean_response] produces, and
    every map the orchestrator returns, has exactly the 8 expected keys,
    and each value is the empty string or the value, of whatever JSON type,
    that the decoded lower-cased response holds under one of its keys. *)
Theorem cleaned_values_are_copied :
  (forall response r,
      validate_and_clean_response response default_similarity_threshold = Ret r ->
      exists cleaned,
        r = dumps (Obj cleaned)
        /\ loads r = Ret (Obj cleaned)
        /\ map fst cleaned = map of_str EXPECTED_COMPONENTS
        /\ forall k v,
             In (k, v) cleaned ->
             v = Str []
             \/ exists parsed key,
                  loads (Str.lower response) = Ret (Obj parsed)
                  /\ dict_get parsed key = Some v)
  /\ (forall prompt client max_retries w components w',
        detect_component_with_retry prompt client max_retries w = (Ret components, w') ->
        exists pairs,
          components = Some (Obj pairs)
          /\ map fst pairs = map of_str EXPECTED_COMPONENTS
          /\ forall k v,
               In (k, v) pairs ->
               v = Str []
               \/ exists text parsed key,
                    client (Nat.pred (calls w')) = Content text
                    /\ loads (Str.lower text) = Ret (Obj parsed)
                    /\ dict_get parsed key = Some v).
Proof.
  split.
  - intros response r Hv.
    destruct (validate_reads_back _ _ _ Hv) as (cleaned & Hr & Hl & Hc).
    exists cleaned. split; [exact Hr|]. split; [exact Hl|].
    destruct Hc as [[_ ->]|(parsed & Hp & ->)].
    + split; [reflexivity|].
      intros k v Hin. left. now apply default_pairs_values in Hin.
    + split; [apply cleaned_pairs_keys|].
      intros k v Hin. apply cleaned_pairs_values in Hin.
      destruct Hin as [H|[key H]]; [now left|]. right. exists parsed, key. auto.
  - intros prompt client max_retries w components w' Hd.
    unfold detect_component_with_retry in Hd.
    destruct (retry_loop_spec prompt client max_retries (Z.to_nat max_retries) 0%Z w)
      as (pairs & w1 & H1 & _ & _ & H4); [lia|].
    rewrite H1 in Hd.
    assert (Hc : components = Some (Obj pairs)) by congruence.
    assert (Hw : w1 = w') by congruence. subst w1.
    exists pairs. split; [exact Hc|].
    destruct H4 as [->|(text & parsed & _ & Ht & Hp & ->)].
    + split; [reflexivity|].
      intros k v Hin. left. now apply default_pairs_values in Hin.
    + split; [apply cleaned_pairs_keys|].
      intros k v Hin. apply cleaned_pairs_values in Hin.
      destruct Hin as [H|[key H]]; [now left|]. right. exists text, parsed, key. auto.
Qed.

Lemma cleaned_values_are_copied_witness :
  (exists cleaned,
      loads (dumps (Obj (cleaned_pairs [(of_str "directive", Null)]
                           default_similarity_threshold)))
      = Ret (Obj cleaned)
      /\ map fst cleaned = map of_str EXPECTED_COMPONENTS)
  /\ (exists pairs,
        Some (Obj (cleaned_pairs [(of_str "directive", Null)]
                     default_similarity_threshold))
        = Some (Obj pairs)
        /\ map fst pairs = map of_str EXPECTED_COMPONENTS).
Proof.
  split.
  - destruct (proj1 cleaned_values_are_copied
                (String "{" (quoted "directive" ++ ": null}"))
                (dumps (Obj (cleaned_pairs [(of_str "directive", Null)]
                               default_similarity_threshold))))
      as (cleaned & _ & Hl & Hk & _).
    + vm_compute. reflexivity.
    + exists cleaned. split; assumption.
  - destruct (proj2 cleaned_values_are_copied "Sort {items}"
                (fun _ => Content (String "{" (quoted "directive" ++ ": null}")))
                default_max_retries start
                (Some (Obj (cleaned_pairs [(of_str "directive", Null)]
                              default_similarity_threshold)))
                (World 1 []))
      as (pairs & Hc & Hk & _).
    + vm_compute. reflexivity.
    + exists pairs. split; assumption.
Defined.

(* ================================================================== *)
(** * Further properties of [code/placeholder_identification.py] *)

(** ** [detect_placeholder]: what it returns and when it returns nothing *)

Lemma occurs_at_tail p c s i : occurs_at p s i -> occurs_at p (String c s) (S i).
Proof. exact (fun H => H). Qed.

Lemma findall_placeholder_sound s :
  forall prev skip p,
    In p (Re.findall_from placeholder_pattern prev s skip) ->
    placeholder_shaped p /\ exists i, occurs_at p s i.
Proof.
  induction s as [|c s IH]; intros prev skip p Hin.
  - destruct skip as [|n]; [|contradiction]. cbn [Re.findall_from] in Hin.
    destruct (Re.match_at placeholder_pattern prev EmptyString) as [rest|] eqn:E;
      [|contradiction].
    apply match_sound in E. destruct E as (tok & _ & E).
    destruct (token_text_nonempty tok) as (d & x & Hx). rewrite Hx in E. discriminate.
  - destruct skip as [|n]; cbn [Re.findall_from] in Hin.
    + destruct (Re.match_at placeholder_pattern prev (String c s)) as [rest|] eqn:E.
      * pose proof (match_sound _ _ _ E) as (tok & Hv & Hs).
        destruct Hin as [Hp|Hin].
        -- rewrite Hs, matched_app in Hp. subst p. split; [exists tok; auto|].
           exists 0. unfold occurs_at. rewrite drop_zero, Hs. apply prefix_app.
        -- destruct (IH _ _ _ Hin) as [H1 [i H2]]. split; [exact H1|].
           exists (S i). now apply occurs_at_tail.
      * destruct (IH _ _ _ Hin) as [H1 [i H2]]. split; [exact H1|].
        exists (S i). now apply occurs_at_tail.
    + destruct (IH _ _ _ Hin) as [H1 [i H2]]. split; [exact H1|].
      exists (S i). now apply occurs_at_tail.
Qed.

(** X1.  Every text [detect_placeholder] returns has the shape of a
    placeholder (double braces, single braces or the literal marker, the
    name made of the allowed characters) and occurs in the template. *)
Theorem detect_placeholder_sound :
  forall prompt_template p,
    In p (detect_placeholder prompt_template) ->
    placeholder_shaped p
    /\ p <> EmptyString
    /\ exists i, occurs_at p prompt_template i.
Proof.
  intros t p Hin. destruct (findall_placeholder_sound t None 0 p Hin) as [H1 H2].
  split; [exact H1|]. split; [|exact H2].
  destruct H1 as (tok & _ & ->).
  destruct (token_text_nonempty tok) as (d & x & Hx). rewrite Hx. discriminate.
Qed.

Lemma detect_placeholder_sound_witness :
  placeholder_shaped "{topic}" /\ "{topic}" <> EmptyString
  /\ exists i, occurs_at "{topic}" "Write about {topic}." i.
Proof.
  apply (detect_placeholder_sound "Write about {topic}." "{topic}").
  vm_compute. left. reflexivity.
Defined.

Lemma occurs_nonempty p s i c x :
  p = String c x -> occurs_at p s i -> exists d s', s = String d s'.
Proof.
  intros -> H. destruct s as [|d s']; eauto.
  unfold occurs_at in H. destruct i; cbn in H; discriminate.
Qed.

Lemma findall_placeholder_complete s :
  forall prev skip i tok,
    valid_token tok = true -> occurs_at (token_text tok) s i -> skip <= i ->
    Re.findall_from placeholder_pattern prev s skip <> [].
Proof.
  induction s as [|c s IH]; intros prev skip i tok Hv Ho Hs.
  - destruct (token_text_nonempty tok) as (d & x & Hx).
    destruct (occurs_nonempty _ _ _ _ _ Hx Ho) as (d' & s' & E). discriminate.
  - destruct skip as [|n]; cbn [Re.findall_from].
    + destruct (Re.match_at placeholder_pattern prev (String c s)) as [rest|] eqn:E;
        [discriminate|].
      destruct i as [|i].
      * unfold occurs_at in Ho. rewrite drop_zero in Ho.
        apply prefix_split in Ho. destruct Ho as [y Hy].
        rewrite Hy, (match_token tok prev y Hv) in E. discriminate.
      * apply (IH _ _ i tok Hv); [exact Ho|lia].
    + destruct i as [|i]; [lia|]. apply (IH _ _ i tok Hv); [exact Ho|lia].
Qed.

Lemma findall_placeholder_none s :
  forall prev,
    (forall tok i, valid_token tok = true -> ~ occurs_at (token_text tok) s i) ->
    Re.findall_from placeholder_pattern prev s 0 = [].
Proof.
  induction s as [|c s IH]; intros prev Hno; cbn [Re.findall_from].
  - destruct (Re.match_at placeholder_pattern prev EmptyString) as [rest|] eqn:E;
      [|reflexivity].
    apply match_sound in E. destruct E as (tok & _ & E).
    destruct (token_text_nonempty tok) as (d & x & Hx). rewrite Hx in E. discriminate.
  - destruct (Re.match_at placeholder_pattern prev (String c s)) as [rest|] eqn:E.
    + apply match_sound in E. destruct E as (tok & Hv & E).
      elim (Hno tok 0 Hv). unfold occurs_at. rewrite drop_zero, E. apply prefix_app.
    + apply IH. intros tok i Hv Ho. exact (Hno tok (S i) Hv Ho).
Qed.

(** X2.  [detect_placeholder] returns the empty list exactly when no text with
    the shape of a placeholder occurs in the template. *)
Theorem detect_placeholder_empty :
  forall prompt_template,
    detect_placeholder prompt_template = []
    <-> forall tok i, valid_token tok = true ->
                      ~ occurs_at (token_text tok) prompt_template i.
Proof.
  intros t. split.
  - intros H tok i Hv Ho.
    apply (findall_placeholder_complete t None 0 i tok Hv Ho); [lia|exact H].
  - apply findall_placeholder_none.
Qed.


(** ** [calculate_relative_word_positions]: which placeholders get a position *)

Lemma contains_occurs p s : Str.contains p s = true <-> exists i, occurs_at p s i.
Proof.
  induction s as [|c s IH]; cbn [Str.contains].
  - rewrite orb_false_r. split.
    + intros H. exists 0. exact H.
    + intros [i H]. unfold occurs_at in H. now destruct i.
  - rewrite orb_true_iff, IH. split.
    + intros [H|[i H]]; [exists 0; exact H|exists (S i); exact H].
    + intros [[|i] H]; [left; exact H|right; exists i; exact H].
Qed.

Lemma search_from_contains p s :
  forall prev start,
    match Re.search_from (Re.Lit p) prev s start with
    | Some _ => Str.contains p s = true
    | None => Str.contains p s = false
    end.
Proof.
  induction s as [|c s IH]; intros prev start;
    cbn [Re.search_from Str.contains]; rewrite lit_match_at.
  - destruct (String.prefix p EmptyString); reflexivity.
  - destruct (String.prefix p (String c s)); [reflexivity|]. apply IH.
Qed.

Lemma search_contains p t :
  Str.contains p t = true -> exists i, Re.search (Re.Lit p) t = Some (i, p).
Proof.
  intros H. pose proof (search_from_contains p t None 0) as Hs. unfold Re.search.
  destruct (Re.search_from (Re.Lit p) None t 0) as [[i m]|] eqn:E; [|congruence].
  exists i. now destruct (search_first_occurrence p t i m E) as [-> _].
Qed.

Lemma search_missing p t :
  Str.contains p t = false -> Re.search (Re.Lit p) t = None.
Proof.
  intros H. pose proof (search_from_contains p t None 0) as Hs. unfold Re.search.
  destruct (Re.search_from (Re.Lit p) None t 0); [congruence|reflexivity].
Qed.

Lemma classify_labels word_position total_words :
  In (classify_relative_word_position word_position total_words)
     ["Beginning"; "Middle"; "End"].
Proof.
  rewrite classify_rule.
  destruct (3 * word_position <=? total_words)%Z; [now left|].
  destruct (2 * total_words <=? 3 * word_position)%Z; cbn; auto.
Qed.

Lemma positions_loop_keys t tw ps :
  map fst (positions_loop t tw ps) = filter (fun p => Str.contains p t) ps.
Proof.
  induction ps as [|p ps IH]; [reflexivity|]. cbn [positions_loop filter].
  destruct (Str.contains p t) eqn:E.
  - destruct (search_contains p t E) as [i ->]. cbn [map fst]. now rewrite IH.
  - now rewrite (search_missing p t E).
Qed.

Lemma positions_loop_labels t tw ps p pos :
  In (p, pos) (positions_loop t tw ps) -> In pos ["Beginning"; "Middle"; "End"].
Proof.
  intros H. apply positions_loop_first in H. destruct H as (i & _ & ->).
  apply classify_labels.
Qed.

(** X4.  [calculate_relative_word_positions] keeps, in their order, exactly
    the placeholders whose text occurs in the template; the others are
    passed over without an entry. Every entry carries one of the three
    labels. *)
Theorem positions_only_for_occurring :
  forall prompt_template placeholders,
    map fst (calculate_relative_word_positions prompt_template placeholders)
    = filter (fun p => Str.contains p prompt_template) placeholders
    /\ forall p pos,
         In (p, pos) (calculate_relative_word_positions prompt_template placeholders) ->
         In pos ["Beginning"; "Middle"; "End"].
Proof.
  intros t ps. split; [apply positions_loop_keys|].
  intros p pos. apply positions_loop_labels.
Qed.

Lemma positions_only_for_occurring_witness :
  map fst (calculate_relative_word_positions "Greet {name} warmly" ["{name}"; "{title}"])
  = ["{name}"]
  /\ In "Beginning" ["Beginning"; "Middle"; "End"].
Proof.
  destruct (positions_only_for_occurring "Greet {name} warmly" ["{name}"; "{title}"])
    as [H1 H2].
  split; [exact H1|]. apply (H2 "{name}" "Beginning"). vm_compute. auto.
Defined.

Lemma filter_all {A : Type} (f : A -> bool) l :
  (forall x, In x l -> f x = true) -> filter f l = l.
Proof.
  induction l as [|x l IH]; intros H; [reflexivity|]. cbn [filter].
  rewrite (H x (or_introl eq_refl)). f_equal. apply IH. intros y Hy. apply H. now right.
Qed.

Lemma positions_of_detected_keys t :
  map fst (calculate_relative_word_positions t (detect_placeholder t))
  = detect_placeholder t.
Proof.
  unfold calculate_relative_word_positions.
  rewrite positions_loop_keys. apply filter_all.
  intros p Hin. apply contains_occurs.
  destruct (findall_placeholder_sound t None 0 p Hin) as [_ H]. exact H.
Qed.

Lemma positions_of_detected_length t :
  List.length (calculate_relative_word_positions t (detect_placeholder t))
  = List.length (detect_placeholder t).
Proof.
  rewrite <- (positions_of_detected_keys t) at 2. now rewrite length_map.
Qed.

(** X5.  Every placeholder [detect_placeholder] finds in a template gets a
    position, also when it occurs more than once: on its own output the
    search of [calculate_relative_word_positions] never fails, so the
    result has one entry per placeholder found. *)
Theorem positions_of_detected :
  forall prompt_template,
    map fst (calculate_relative_word_positions prompt_template
               (detect_placeholder prompt_template))
    = detect_placeholder prompt_template
    /\ List.length (calculate_relative_word_positions prompt_template
                      (detect_placeholder prompt_template))
       = List.length (detect_placeholder prompt_template).
Proof.
  intros t. split; [apply positions_of_detected_keys|].
  rewrite <- (positions_of_detected_keys t) at 2. now rewrite length_map.
Qed.

(** ** Word positions and their labels *)

Lemma take_drop i s : (Str.take i s ++ Str.drop i s)%string = s.
Proof.
  revert s. induction i as [|i IH]; intros [|c s]; cbn [Str.take Str.drop append];
    try reflexivity.
  now rewrite IH.
Qed.

Lemma take_take i j s : i <= j -> Str.take i (Str.take j s) = Str.take i s.
Proof.
  revert j s. induction i as [|i IH]; intros j s Hij.
  - now destruct (Str.take j s), s.
  - destruct j as [|j]; [lia|]. destruct s as [|c s]; [reflexivity|].
    cbn [Str.take]. f_equal. apply IH. lia.
Qed.

Lemma count_words_prefix i s : (0 <= count_words (Str.take i s) <= count_words s)%Z.
Proof.
  rewrite !count_words_starts. rewrite <- (take_drop i s) at 3.
  rewrite word_starts_app. lia.
Qed.

Lemma count_words_prefix_le i j s :
  i <= j -> (count_words (Str.take i s) <= count_words (Str.take j s))%Z.
Proof.
  intros Hij. rewrite <- (take_take i j s Hij). apply count_words_prefix.
Qed.

Lemma position_rank_classify word_position total_words :
  position_rank (classify_relative_word_position word_position total_words)
  = if (3 * word_position <=? total_words)%Z then 0
    else if (2 * total_words <=? 3 * word_position)%Z then 2
    else 1.
Proof.
  rewrite classify_rule.
  destruct (3 * word_position <=? total_words)%Z; [reflexivity|].
  destruct (2 * total_words <=? 3 * word_position)%Z; reflexivity.
Qed.

Lemma classify_rank_le (word_position word_position' total_words : Z) :
  (word_position <= word_position')%Z ->
  position_rank (classify_relative_word_position word_position total_words)
  <= position_rank (classify_relative_word_position word_position' total_words).
Proof.
  intros H. rewrite !position_rank_classify.
  destruct (Z.leb_spec (3 * word_position) total_words),
    (Z.leb_spec (3 * word_position') total_words); try lia;
    destruct (Z.leb_spec (2 * total_words) (3 * word_position)),
      (Z.leb_spec (2 * total_words) (3 * word_position')); lia.
Qed.

(** X9.  The label never moves back as the word index grows: Beginning, then
    Middle, then End. *)
Theorem position_rank_monotone :
  forall word_position word_position' total_words : Z,
    (word_position <= word_position')%Z ->
    position_rank (classify_relative_word_position word_position total_words)
    <= position_rank (classify_relative_word_position word_position' total_words).
Proof. intros w w' t. apply classify_rank_le. Qed.

Lemma position_rank_monotone_witness :
  position_rank (classify_relative_word_position 2 9)
  <= position_rank (classify_relative_word_position 5 9).
Proof. apply position_rank_monotone. lia. Defined.

Lemma first_occurrence_unique p t i j :
  first_occurrence p t i -> first_occurrence p t j -> i = j.
Proof.
  intros [Hi Hi'] [Hj Hj'].
  destruct (Nat.lt_trichotomy i j) as [H|[H|H]]; [|exact H|].
  - rewrite (Hj' i H) in Hi. discriminate.
  - rewrite (Hi' j H) in Hj. discriminate.
Qed.

Lemma search_at_first p t i :
  first_occurrence p t i -> Re.search (Re.Lit p) t = Some (i, p).
Proof.
  intros Hi. assert (Hc : Str.contains p t = true).
  { apply contains_occurs. exists i. exact (proj1 Hi). }
  destruct (search_contains p t Hc) as [j Hj]. rewrite Hj.
  destruct (search_first_occurrence p t j p Hj) as [_ Hf].
  now rewrite (first_occurrence_unique _ _ _ _ Hf Hi).
Qed.

Lemma positions_loop_in t tw ps p i :
  In p ps -> first_occurrence p t i ->
  In (p, classify_relative_word_position (count_words (Str.take i t)) tw)
     (positions_loop t tw ps).
Proof.
  intros Hin Hi. induction ps as [|q ps IH]; [contradiction|].
  cbn [positions_loop]. destruct Hin as [->|Hin].
  - rewrite (search_at_first p t i Hi). now left.
  - destruct (Re.search (Re.Lit q) t) as [[j m]|]; [right|]; now apply IH.
Qed.

(** X8.  Of two placeholders of a template, the one whose text first occurs
    earlier never gets the later label. *)
Theorem earlier_placeholder_earlier_label :
  forall prompt_template placeholders p pos i p' pos' i',
    In (p, pos) (calculate_relative_word_positions prompt_template placeholders) ->
    In (p', pos') (calculate_relative_word_positions prompt_template placeholders) ->
    first_occurrence p prompt_template i ->
    first_occurrence p' prompt_template i' ->
    i <= i' ->
    position_rank pos <= position_rank pos'.
Proof.
  intros t ps p pos i p' pos' i' H H' Hi Hi' Hle.
  apply positions_loop_first in H, H'.
  destruct H as (j & Hj & ->), H' as (j' & Hj' & ->).
  rewrite (first_occurrence_unique _ _ _ _ Hj Hi).
  rewrite (first_occurrence_unique _ _ _ _ Hj' Hi').
  apply classify_rank_le. now apply count_words_prefix_le.
Qed.

Lemma earlier_placeholder_earlier_label_witness :
  position_rank "Beginning" <= position_rank "End".
Proof.
  apply (earlier_placeholder_earlier_label "{a} one two three four {b}"
           ["{a}"; "{b}"] "{a}" "Beginning" 0 "{b}" "End" 23).
  - vm_compute. auto.
  - vm_compute. auto.
  - split; [reflexivity|]. intros j Hj. lia.
  - split; [reflexivity|]. intros j Hj.
    do 23 (destruct j as [|j]; [reflexivity|]). lia.
  - lia.
Defined.

(** X6.  A placeholder the template starts with is labelled Beginning,
    whatever follows it. *)
Theorem placeholder_at_start_is_beginning :
  forall prompt_template placeholders p,
    In p placeholders ->
    String.prefix p prompt_template = true ->
    In (p, "Beginning") (calculate_relative_word_positions prompt_template placeholders).
Proof.
  intros t ps p Hin Hp.
  assert (Hf : first_occurrence p t 0).
  { split; [now rewrite drop_zero|]. intros j Hj. lia. }
  pose proof (positions_loop_in t (count_words t) ps p 0 Hin Hf) as H.
  replace (classify_relative_word_position (count_words (Str.take 0 t)) (count_words t))
    with "Beginning" in H; [exact H|].
  rewrite classify_rule. pose proof (count_words_prefix 0 t) as Hc.
  replace (count_words (Str.take 0 t)) with 0%Z by now destruct t.
  destruct (Z.leb_spec (3 * 0) (count_words t)); [reflexivity|lia].
Qed.

Lemma placeholder_at_start_is_beginning_witness :
  In ("{{text}}", "Beginning")
     (calculate_relative_word_positions "{{text}}" ["{{text}}"]).
Proof.
  apply placeholder_at_start_is_beginning; [now left|reflexivity].
Defined.

(** X7.  A brace placeholder that ends the template, after [n] words, is
    labelled by [n] alone: Beginning after no word, Middle after one word,
    End after two words or more.  So the placeholder that closes a
    one-word instruction is in the middle. *)
Theorem placeholder_at_end_label :
  forall before name placeholders,
    name <> EmptyString ->
    all_chars Str.word_char name = true ->
    In (token_text (DoubleBrace name)) placeholders ->
    first_occurrence (token_text (DoubleBrace name))
      (before ++ token_text (DoubleBrace name)) (String.length before) ->
    In (token_text (DoubleBrace name),
        if (count_words before =? 0)%Z then "Beginning"
        else if (count_words before =? 1)%Z then "Middle"
        else "End")
       (calculate_relative_word_positions (before ++ token_text (DoubleBrace name))
          placeholders).
Proof.
  intros a name ps Hne Hall Hin Hf.
  set (p := token_text (DoubleBrace name)) in *.
  pose proof (positions_loop_in (a ++ p) (count_words (a ++ p)) ps p _ Hin Hf) as H.
  rewrite take_app_length in H.
  assert (Ht : count_words (a ++ p) = (count_words a + 1)%Z).
  { pose proof (count_words_double a name EmptyString Hne Hall) as Hd.
    rewrite app_empty_r in Hd. fold p in Hd. rewrite Hd.
    change (count_words EmptyString) with 0%Z. lia. }
  rewrite Ht, classify_rule in H.
  pose proof (count_words_prefix 0 a) as [_ Hpos].
  replace (count_words (Str.take 0 a)) with 0%Z in Hpos by now destruct a.
  unfold calculate_relative_word_positions. rewrite Ht.
  destruct (Z.eqb_spec (count_words a) 0) as [E0|E0].
  - destruct (Z.leb_spec (3 * count_words a) (count_words a + 1)); [exact H|lia].
  - destruct (Z.leb_spec (3 * count_words a) (count_words a + 1)); [lia|].
    destruct (Z.eqb_spec (count_words a) 1) as [E1|E1].
    + destruct (Z.leb_spec (2 * (count_words a + 1)) (3 * count_words a)); [lia|exact H].
    + destruct (Z.leb_spec (2 * (count_words a + 1)) (3 * count_words a)); [exact H|lia].
Qed.

Lemma placeholder_at_end_label_witness :
  In ("{{text}}", "Middle")
     (calculate_relative_word_positions "Summarize {{text}}" ["{{text}}"]).
Proof.
  apply (placeholder_at_end_label "Summarize " "text" ["{{text}}"]).
  - discriminate.
  - reflexivity.
  - now left.
  - split; [reflexivity|]. intros j Hj.
    do 10 (destruct j as [|j]; [reflexivity|]). cbn in Hj. lia.
Defined.

(** ** [identify_placeholders] *)

Lemma classify_returns placeholder prompt_template client w :
  exists category,
    classify_placeholder_with_llm placeholder prompt_template client w
    = (Ret category, made_call w)
    /\ In category PLACEHOLDER_CATEGORIES
    /\ (forall msg, client (calls w) = Failure msg -> category = "Others").
Proof.
  unfold classify_placeholder_with_llm, try_except, bind, create.
  destruct (client (calls w)) as [text|msg].
  - destruct (Difflib.get_close_matches (Str.strip text) PLACEHOLDER_CATEGORIES 1 (6 # 10))
      as [|category rest] eqn:G.
    + exists "Others". split; [reflexivity|]. split; [cbn; tauto|discriminate].
    + exists category. split; [reflexivity|]. split; [|discriminate].
      apply (get_close_matches_in (Str.strip text) PLACEHOLDER_CATEGORIES 1 (6 # 10)).
      rewrite G. now left.
  - exists "Others". split; [reflexivity|]. split; [cbn; tauto|reflexivity].
Qed.

Lemma classify_loop_spec prompt_template client positions :
  forall w,
  exists records,
    classify_loop prompt_template client positions w
    = (Ret records, World (calls w + List.length positions) (slept w))
    /\ map (fun r => (placeholder r, position r)) records = positions
    /\ Forall (fun r => In (category r) PLACEHOLDER_CATEGORIES) records
    /\ ((forall k, exists msg, client k = Failure msg) ->
        map category records = map (fun _ => "Others") positions).
Proof.
  induction positions as [|[p pos] positions IH]; intros w.
  - exists []. cbn [classify_loop List.length]. rewrite Nat.add_0_r.
    split; [now destruct w|]. repeat split; auto.
  - destruct (classify_returns p prompt_template client w) as (c & Hc & Hin & Hf).
    destruct (IH (made_call w)) as (records & Hr & Hm & Ha & Hd).
    exists (Classification p c pos :: records).
    cbn [classify_loop]. unfold bind. rewrite Hc, Hr.
    split.
    { unfold ret, made_call. cbn [calls slept List.length]. do 2 f_equal. lia. }
    split; [cbn [map placeholder position]; now rewrite Hm|].
    split; [constructor; [exact Hin|exact Ha]|].
    intros Hdown. cbn [map category]. rewrite (Hd Hdown). f_equal.
    destruct (Hdown (calls w)) as [msg Hmsg]. exact (Hf msg Hmsg).
Qed.

(** X11.  [identify_placeholders] never raises. It returns one record for
    every placeholder [detect_placeholder] finds, in that order and with
    repeats, each with the position [calculate_relative_word_positions]
    gives it and a category of the taxonomy, and it has made exactly one
    request per record and taken no pause. *)
Theorem identify_placeholders_total :
  forall prompt_template client w,
  exists records,
    identify_placeholders prompt_template client w
    = (Ret records,
       World (calls w + List.length (detect_placeholder prompt_template)) (slept w))
    /\ map placeholder records = detect_placeholder prompt_template
    /\ map (fun r => (placeholder r, position r)) records
       = calculate_relative_word_positions prompt_template
           (detect_placeholder prompt_template)
    /\ Forall (fun r => In (category r) PLACEHOLDER_CATEGORIES
                        /\ In (position r) ["Beginning"; "Middle"; "End"]) records.
Proof.
  intros t client w. unfold identify_placeholders.
  set (positions := calculate_relative_word_positions t (detect_placeholder t)).
  destruct (classify_loop_spec t client positions w) as (records & Hr & Hm & Ha & _).
  assert (Hk : map placeholder records = detect_placeholder t).
  { rewrite <- (positions_of_detected_keys t). fold positions. rewrite <- Hm.
    rewrite map_map. reflexivity. }
  exists records. split.
  { rewrite Hr. do 2 f_equal. rewrite <- Hk, <- Hm. now rewrite !length_map. }
  split; [exact Hk|]. split; [exact Hm|].
  apply Forall_forall. intros r Hin. split.
  - rewrite Forall_forall in Ha. now apply Ha.
  - apply (positions_loop_labels t (count_words t) (detect_placeholder t) (placeholder r)).
    fold (calculate_relative_word_positions t (detect_placeholder t)). fold positions.
    rewrite <- Hm. apply in_map_iff. exists r. auto.
Qed.

(** X12.  When every request fails, [identify_placeholders] still returns
    every placeholder with its position; every category is Others. *)
Theorem identify_placeholders_service_down :
  forall prompt_template client w,
    (forall k, exists msg, client k = Failure msg) ->
    fst (identify_placeholders prompt_template client w)
    = Ret (map (fun pp => Classification (fst pp) "Others" (snd pp))
             (calculate_relative_word_positions prompt_template
                (detect_placeholder prompt_template))).
Proof.
  intros t client w Hdown. unfold identify_placeholders.
  set (positions := calculate_relative_word_positions t (detect_placeholder t)).
  destruct (classify_loop_spec t client positions w) as (records & Hr & Hm & _ & Hd).
  rewrite Hr. cbn [fst]. f_equal. specialize (Hd Hdown).
  clear Hr. revert records Hm Hd.
  induction positions as [|[p pos] positions IH]; intros [|[p' c' pos'] records] Hm Hd;
    try discriminate; [reflexivity|].
  cbn [map placeholder position category fst snd] in *.
  injection Hm as -> -> Hm. injection Hd as -> Hd.
  f_equal. now apply IH.
Qed.

Lemma identify_placeholders_service_down_witness :
  fst (identify_placeholders "Translate {text} into {language}"
         (fun _ => Failure "Connection error.") start)
  = Ret [Classification "{text}" "Others" "Beginning";
         Classification "{language}" "Others" "End"].
Proof.
  refine (identify_placeholders_service_down "Translate {text} into {language}"
            (fun _ => Failure "Connection error.") start _).
  intros k. eexists. reflexivity.
Defined.

(** ** Texts [detect_placeholder] passes over *)

Lemma token_start tok :
  exists c x, token_text tok = String c x /\ no_start c = false.
Proof. destruct tok as [n|n|]; cbn; eauto. Qed.

Lemma no_token_without_start s :
  all_chars no_start s = true ->
  forall tok i, ~ occurs_at (token_text tok) s i.
Proof.
  intros Hs tok. destruct (token_start tok) as (c & x & -> & Hc).
  induction s as [|d s IH]; intros i Ho.
  - unfold occurs_at in Ho. destruct i; discriminate.
  - cbn [all_chars] in Hs. apply andb_true_iff in Hs. destruct Hs as [Hd Hs].
    destruct i as [|i]; [|exact (IH Hs i Ho)].
    unfold occurs_at in Ho. rewrite drop_zero, prefix_cons in Ho.
    apply andb_true_iff in Ho. destruct Ho as [Ho _].
    apply Ascii.eqb_eq in Ho. subst d. congruence.
Qed.

Lemma plain_no_start s : all_chars plain_char s = true -> all_chars no_start s = true.
Proof.
  induction s as [|c s IH]; [reflexivity|]. cbn [all_chars]. unfold plain_char at 1.
  intros H. apply andb_true_iff in H. destruct H as [H1 H2].
  apply andb_true_iff in H1. destruct H1 as [H1 _]. now rewrite H1, IH.
Qed.

Lemma all_chars_app p x y : all_chars p (x ++ y) = all_chars p x && all_chars p y.
Proof.
  induction x as [|c x IH]; [reflexivity|]. cbn [append all_chars].
  now rewrite IH, andb_assoc.
Qed.

Lemma name_char_not_close c : name_char c = true -> Ascii.eqb c "}" = false.
Proof.
  intros H. destruct (Ascii.eqb c "}") eqn:E; [|reflexivity].
  apply Ascii.eqb_eq in E. subst c. discriminate.
Qed.

(** A name and a text without a closing brace that agree up to the first
    closing brace are the same. *)
Lemma same_up_to_close nm n :
  all_chars name_char nm = true -> all_chars plain_char n = true ->
  forall x y, (nm ++ String "}" x = n ++ String "}" y)%string -> nm = n.
Proof.
  revert n. induction nm as [|c nm IH]; intros [|d n] Hnm Hn x y H;
    cbn [append all_chars] in *; try reflexivity.
  - injection H as Hd _. subst d. apply andb_true_iff in Hn. destruct Hn as [Hn _].
    discriminate.
  - injection H as Hc _. subst c. apply andb_true_iff in Hnm. destruct Hnm as [Hc _].
    discriminate.
  - injection H as -> H. apply andb_true_iff in Hnm, Hn.
    f_equal. apply (IH n (proj2 Hnm) (proj2 Hn) x y H).
Qed.

Lemma braces_hold_no_token n close :
  all_chars plain_char n = true -> all_chars name_char n = false ->
  forall tok, valid_token tok = true ->
              ~ occurs_at (token_text tok) (String "{" (n ++ String "}" close)) 0.
Proof.
  intros Hn Hbad tok Hv Ho. unfold occurs_at in Ho. rewrite drop_zero in Ho.
  apply prefix_split in Ho. destruct Ho as [y Hy].
  destruct n as [|d n]; [discriminate|].
  cbn [all_chars] in Hn. apply andb_true_iff in Hn. destruct Hn as [Hd Hn].
  destruct tok as [nm|nm|]; cbn [token_text valid_token append] in *.
  - injection Hy as Hy _. subst d. discriminate.
  - injection Hy as Hy. rewrite app_assoc_str in Hy. cbn [append] in Hy.
    assert (E : nm = String d n).
    { apply (same_up_to_close nm (String d n) Hv) with (x := y) (y := close);
        [|symmetry; exact Hy]. cbn [all_chars]. now rewrite Hd, Hn. }
    subst nm. congruence.
  - discriminate.
Qed.

(** X3.  What [detect_placeholder] passes over: a template without an opening
    brace and without a P has no placeholder, and braces, single or
    double, around a text that holds a character outside the allowed ones
    (a space, a hyphen) make none. *)
Theorem detect_placeholder_passes_over :
  (forall prompt_template,
      all_chars no_start prompt_template = true ->
      detect_placeholder prompt_template = [])
  /\ (forall n,
        all_chars plain_char n = true -> all_chars name_char n = false ->
        detect_placeholder ("{" ++ n ++ "}") = []
        /\ detect_placeholder ("{{" ++ n ++ "}}") = []).
Proof.
  split.
  - intros t Ht. apply findall_placeholder_none.
    intros tok i _. now apply no_token_without_start.
  - intros n Hn Hbad.
    assert (Htail : forall close, all_chars no_start close = true ->
                                  all_chars no_start (n ++ String "}" close) = true).
    { intros close Hc. rewrite all_chars_app, (plain_no_start n Hn).
      cbn [all_chars andb]. exact Hc. }
    split; apply findall_placeholder_none; intros tok i Hv Ho.
    + destruct i as [|i].
      * exact (braces_hold_no_token n EmptyString Hn Hbad tok Hv Ho).
      * exact (no_token_without_start _ (Htail EmptyString eq_refl) tok i Ho).
    + destruct i as [|[|i]].
      * unfold occurs_at in Ho. rewrite drop_zero in Ho.
        apply prefix_split in Ho. destruct Ho as [y Hy].
        destruct n as [|d n]; [discriminate|].
        cbn [all_chars] in Hn. apply andb_true_iff in Hn. destruct Hn as [Hd Hn].
        destruct tok as [nm|nm|]; cbn [token_text valid_token append] in *.
        -- injection Hy as Hy. rewrite app_assoc_str in Hy. cbn [append] in Hy.
           assert (E : nm = String d n).
           { apply (same_up_to_close nm (String d n) Hv) with (x := String "}" y)
               (y := "}"); [|symmetry; exact Hy]. cbn [all_chars]. now rewrite Hd, Hn. }
           subst nm. congruence.
        -- destruct nm as [|c nm]; [discriminate|].
           injection Hy as Hc _. subst c. discriminate.
        -- discriminate.
      * exact (braces_hold_no_token n "}" Hn Hbad tok Hv Ho).
      * exact (no_token_without_start _ (Htail "}" eq_refl) tok i Ho).
Qed.

Lemma detect_placeholder_passes_over_witness :
  detect_placeholder "Write a short poem." = []
  /\ detect_placeholder ("{" ++ "user name" ++ "}") = []
  /\ detect_placeholder ("{{" ++ "user name" ++ "}}") = [].
Proof.
  split; [apply (proj1 detect_placeholder_passes_over); reflexivity|].
  apply (proj2 detect_placeholder_passes_over "user name"); reflexivity.
Defined.

(** ** Answers [classify_placeholder_with_llm] recognises *)

(** X10.  An answer that is the name of a category, as it is written or in
    lower case, with any white space around it, is classified as that
    category. *)
Theorem classify_exact_answer :
  forall placeholder prompt_template client w text c,
    client (calls w) = Content text ->
    In c PLACEHOLDER_CATEGORIES ->
    Str.strip text = c \/ Str.strip text = Str.lower c ->
    classify_placeholder_with_llm placeholder prompt_template client w
    = (Ret c, made_call w).
Proof.
  intros placeholder t client w text c Hc Hin Hs.
  unfold classify_placeholder_with_llm, try_except, bind, create. rewrite Hc.
  cbn in Hin.
  destruct Hs as [-> | ->];
    repeat (destruct Hin as [<-|Hin]; [vm_compute; reflexivity|]); contradiction.
Qed.

Lemma classify_exact_answer_witness :
  classify_placeholder_with_llm "{{document}}" "Summarize {{document}}"
    (fun _ => Content "  knowledge input ") start
  = (Ret "Knowledge Input", World 1 []).
Proof.
  refine (classify_exact_answer "{{document}}" "Summarize {{document}}" _ start
            "  knowledge input " "Knowledge Input" eq_refl _ _).
  - cbn. tauto.
  - right. vm_compute. reflexivity.
Defined.

(** * Further properties of the [difflib] model *)

(** ** The matching blocks pair equal elements *)

Section MatchingBlocksOk.

Context {A : Type} (elt_eqb : A -> A -> bool).
Variables a b : list A.
Hypothesis elt_eqb_eq : forall x y, elt_eqb x y = true <-> x = y.

Lemma indices_from_spec x l :
  forall j0 j, In j (Difflib.indices_from elt_eqb x l j0) ->
               j0 <= j /\ nth_error l (j - j0) = Some x.
Proof.
  induction l as [|y l IH]; intros j0 j Hin; cbn [Difflib.indices_from] in Hin;
    [contradiction|].
  destruct (elt_eqb y x) eqn:E.
  - destruct Hin as [<-|Hin].
    + apply elt_eqb_eq in E. subst y. rewrite Nat.sub_diag. auto.
    + destruct (IH _ _ Hin) as [H1 H2]. split; [lia|].
      replace (j - j0) with (S (j - S j0)) by lia. exact H2.
  - destruct (IH _ _ Hin) as [H1 H2]. split; [lia|].
    replace (j - j0) with (S (j - S j0)) by lia. exact H2.
Qed.

Lemma b2j_same i x j :
  nth_error a i = Some x -> In j (Difflib.b2j elt_eqb b x) ->
  Difflib.same_at elt_eqb a b i j = true.
Proof.
  intros Hi Hj. unfold Difflib.b2j in Hj.
  destruct (Difflib.popular elt_eqb b x); [contradiction|].
  apply indices_from_spec in Hj. destruct Hj as [_ Hj]. rewrite Nat.sub_0_r in Hj.
  unfold Difflib.same_at. rewrite Hi, Hj. now apply elt_eqb_eq.
Qed.

Lemma j2len_get_in j2len j :
  Difflib.j2len_get j2len j = 0 \/ In (j, Difflib.j2len_get j2len j) j2len.
Proof.
  induction j2len as [|[j' k] l IH]; cbn [Difflib.j2len_get]; [now left|].
  destruct (Nat.eqb_spec j' j) as [->|Hne]; [right; now left|].
  destruct IH as [IH|IH]; [now left|right; now right].
Qed.

Lemma scan_row_ok alo ahi blo bhi i j2len js :
  alo <= i -> i < ahi -> blo <= bhi ->
  runs_ok elt_eqb a b alo blo i j2len ->
  (forall j, In j js -> Difflib.same_at elt_eqb a b i j = true) ->
  forall newj2len bst,
    runs_ok elt_eqb a b alo blo (S i) newj2len ->
    block_ok elt_eqb a b alo ahi blo bhi bst ->
    runs_ok elt_eqb a b alo blo (S i)
      (fst (Difflib.scan_row blo bhi i j2len js newj2len bst))
    /\ block_ok elt_eqb a b alo ahi blo bhi
         (snd (Difflib.scan_row blo bhi i j2len js newj2len bst)).
Proof.
  intros Hi Hahi Hb Hj. induction js as [|j js IH]; intros Hjs newj2len bst Hn Hbst;
    cbn [Difflib.scan_row]; [auto|].
  assert (Hjs' : forall j', In j' js -> Difflib.same_at elt_eqb a b i j' = true)
    by (intros j' Hin; apply Hjs; now right).
  destruct (Nat.ltb_spec j blo) as [Hlo|Hlo]; [now apply IH|].
  destruct (Nat.leb_spec bhi j) as [Hhi|Hhi]; [auto|].
  set (k := match j with O => 0 | S j' => Difflib.j2len_get j2len j' end + 1).
  assert (Hk : k <= S i - alo /\ k <= j + 1 - blo
               /\ forall t, t < k ->
                            Difflib.same_at elt_eqb a b (S i - k + t) (j + 1 - k + t) = true).
  { subst k. destruct j as [|j'].
    - split; [lia|]. split; [lia|]. intros t Ht.
      replace t with 0 by lia. replace (S i - (0 + 1) + 0) with i by lia.
      apply Hjs. now left.
    - destruct (j2len_get_in j2len j') as [E|Hin].
      + rewrite E. split; [lia|]. split; [lia|]. intros t Ht.
        replace t with 0 by lia. replace (S i - (0 + 1) + 0) with i by lia.
        replace (S j' + 1 - (0 + 1) + 0) with (S j') by lia. apply Hjs. now left.
      + unfold runs_ok in Hj. rewrite Forall_forall in Hj.
        destruct (Hj _ Hin) as (H1 & H2 & H3). cbn [fst snd] in *.
        set (k' := Difflib.j2len_get j2len j') in *.
        split; [lia|]. split; [lia|]. intros t Ht.
        destruct (Nat.eq_dec t k') as [->|Hne].
        * replace (S i - (k' + 1) + k') with i by lia.
          replace (S j' + 1 - (k' + 1) + k') with (S j') by lia. apply Hjs. now left.
        * replace (S i - (k' + 1) + t) with (i - k' + t) by lia.
          replace (S j' + 1 - (k' + 1) + t) with (j' + 1 - k' + t) by lia.
          apply H3. lia. }
  destruct Hk as (K1 & K2 & K3).
  assert (Hn' : runs_ok elt_eqb a b alo blo (S i) ((j, k) :: newj2len)).
  { constructor; [cbn [fst snd]; auto|exact Hn]. }
  destruct (Difflib.bestsize bst <? k); apply IH; auto.
  unfold block_ok. cbn [Difflib.besti Difflib.bestj Difflib.bestsize].
  split; [lia|]. split; [lia|]. split; [lia|]. split; [lia|].
  intros t Ht. replace (i + 1 - k + t) with (S i - k + t) by lia. now apply K3.
Qed.

Lemma scan_rows_ok alo ahi blo bhi n :
  forall i j2len bst,
    alo <= i -> i + n <= ahi -> blo <= bhi ->
    runs_ok elt_eqb a b alo blo i j2len ->
    block_ok elt_eqb a b alo ahi blo bhi bst ->
    block_ok elt_eqb a b alo ahi blo bhi
      (Difflib.scan_rows elt_eqb a b blo bhi (seq i n) j2len bst).
Proof.
  induction n as [|n IH]; intros i j2len bst Hi Hn Hb Hj Hbst;
    cbn [seq Difflib.scan_rows]; [exact Hbst|].
  match goal with
  | |- context [Difflib.scan_row ?blo ?bhi ?i ?j2len ?js ?new ?bst] =>
      pose proof (scan_row_ok alo ahi blo bhi i j2len js) as H;
      destruct (Difflib.scan_row blo bhi i j2len js new bst) as [newj2len bst'] eqn:E
  end.
  specialize (H Hi ltac:(lia) Hb Hj).
  match type of E with
  | Difflib.scan_row _ _ _ _ ?js _ _ = _ =>
      assert (Hjs : forall j, In j js -> Difflib.same_at elt_eqb a b i j = true)
  end.
  { destruct (nth_error a i) as [x|] eqn:Ex; [|contradiction].
    intros j Hin. exact (b2j_same i x j Ex Hin). }
  specialize (H Hjs [] bst (Forall_nil _) Hbst). rewrite E in H. cbn [fst snd] in H.
  destruct H as [H1 H2]. apply IH; auto; lia.
Qed.

Lemma extend_left_ok alo ahi blo bhi fuel :
  forall bst,
    block_ok elt_eqb a b alo ahi blo bhi bst ->
    block_ok elt_eqb a b alo ahi blo bhi (Difflib.extend_left elt_eqb a b fuel alo blo bst).
Proof.
  induction fuel as [|fuel IH]; intros bst Hb; cbn [Difflib.extend_left]; [exact Hb|].
  destruct (_ && _) eqn:E; [|exact Hb].
  apply andb_true_iff in E. destruct E as [E E3].
  apply andb_true_iff in E. destruct E as [E1 E2].
  apply Nat.ltb_lt in E1, E2.
  apply IH. destruct Hb as (H1 & H2 & H3 & H4 & H5). unfold block_ok.
  cbn [Difflib.besti Difflib.bestj Difflib.bestsize].
  split; [lia|]. split; [lia|]. split; [lia|]. split; [lia|].
  intros t Ht. destruct t as [|t].
  - now rewrite !Nat.add_0_r.
  - replace (Difflib.besti bst - 1 + S t) with (Difflib.besti bst + t) by lia.
    replace (Difflib.bestj bst - 1 + S t) with (Difflib.bestj bst + t) by lia.
    apply H5. lia.
Qed.

Lemma extend_right_ok alo ahi blo bhi fuel :
  forall bst,
    block_ok elt_eqb a b alo ahi blo bhi bst ->
    block_ok elt_eqb a b alo ahi blo bhi (Difflib.extend_right elt_eqb a b fuel ahi bhi bst).
Proof.
  induction fuel as [|fuel IH]; intros bst Hb; cbn [Difflib.extend_right]; [exact Hb|].
  destruct (_ && _) eqn:E; [|exact Hb].
  apply andb_true_iff in E. destruct E as [E E3].
  apply andb_true_iff in E. destruct E as [E1 E2].
  apply Nat.ltb_lt in E1, E2.
  apply IH. destruct Hb as (H1 & H2 & H3 & H4 & H5). unfold block_ok.
  cbn [Difflib.besti Difflib.bestj Difflib.bestsize].
  split; [lia|]. split; [lia|]. split; [lia|]. split; [lia|].
  intros t Ht. destruct (Nat.eq_dec t (Difflib.bestsize bst)) as [->|Hne];
    [exact E3|apply H5; lia].
Qed.

(** The block [find_longest_match] returns lies in the range on both
    sides and pairs equal elements. *)
Lemma find_longest_match_ok alo ahi blo bhi :
  alo <= ahi -> blo <= bhi ->
  block_ok elt_eqb a b alo ahi blo bhi
    (Difflib.find_longest_match elt_eqb a b alo ahi blo bhi).
Proof.
  intros Ha Hb. unfold Difflib.find_longest_match.
  apply extend_right_ok, extend_left_ok.
  apply scan_rows_ok; [lia|lia|lia|constructor|].
  unfold block_ok. cbn [Difflib.besti Difflib.bestj Difflib.bestsize].
  repeat split; try lia.
Qed.

Lemma sizes_cons x blocks : sizes (x :: blocks) = Difflib.bestsize x + sizes blocks.
Proof. reflexivity. Qed.

Lemma sizes_app l1 l2 : sizes (l1 ++ l2) = sizes l1 + sizes l2.
Proof. unfold sizes. now rewrite map_app, list_sum_app. Qed.

(** One range of the work list, worked off: the blocks it adds fit in the
    range, and fill it on both sides only if the two sides are equal. *)
Lemma blocks_loop_range n :
  forall alo ahi blo bhi queue acc fuel,
    2 * (ahi - alo) + 1 <= n ->
    alo <= ahi -> blo <= bhi ->
    passes ((alo, ahi, blo, bhi) :: queue) <= fuel ->
    exists blocks fuel',
      Difflib.blocks_loop elt_eqb a b fuel ((alo, ahi, blo, bhi) :: queue) acc
      = Difflib.blocks_loop elt_eqb a b fuel' queue (acc ++ blocks)
      /\ passes queue <= fuel'
      /\ range_ok elt_eqb a b (alo, ahi, blo, bhi) blocks.
Proof.
  induction n as [|n IH]; intros alo ahi blo bhi queue acc fuel Hn Ha Hb Hp; [lia|].
  assert (Hopt : forall (c : bool) alo' ahi' blo' bhi' q0 acc0 f0,
             (c = true -> 2 * (ahi' - alo') + 1 <= n /\ alo' <= ahi' /\ blo' <= bhi') ->
             passes (if c then (alo', ahi', blo', bhi') :: q0 else q0) <= f0 ->
             exists blocks f',
               Difflib.blocks_loop elt_eqb a b f0
                 (if c then (alo', ahi', blo', bhi') :: q0 else q0) acc0
               = Difflib.blocks_loop elt_eqb a b f' q0 (acc0 ++ blocks)
               /\ passes q0 <= f'
               /\ (if c then range_ok elt_eqb a b (alo', ahi', blo', bhi') blocks
                   else blocks = [])).
  { intros [|] alo' ahi' blo' bhi' q0 acc0 f0 Hc Hf.
    - destruct (Hc eq_refl) as (H1 & H2 & H3). now apply IH.
    - exists [], f0. rewrite app_nil_r. auto. }
  rewrite passes_cons in Hp.
  destruct fuel as [|fuel]; [lia|]. cbn [Difflib.blocks_loop].
  pose proof (find_longest_match_ok alo ahi blo bhi Ha Hb) as (X1 & X2 & X3 & X4 & X5).
  set (x := Difflib.find_longest_match elt_eqb a b alo ahi blo bhi) in *.
  set (i := Difflib.besti x) in *. set (j := Difflib.bestj x) in *.
  set (k := Difflib.bestsize x) in *.
  destruct (Nat.eqb_spec k 0) as [Ek|Ek].
  { exists [], fuel. rewrite app_nil_r. split; [reflexivity|]. split; [lia|].
    cbn [range_ok]. change (sizes []) with 0. repeat split; intros; lia. }
  set (cl := (alo <? i) && (blo <? j)).
  set (cr := (i + k <? ahi) && (j + k <? bhi)).
  assert (Hcl : cl = true -> alo < i /\ blo < j).
  { subst cl. intros H. apply andb_true_iff in H. destruct H as [H1 H2].
    apply Nat.ltb_lt in H1, H2. auto. }
  assert (Hcr : cr = true -> i + k < ahi /\ j + k < bhi).
  { subst cr. intros H. apply andb_true_iff in H. destruct H as [H1 H2].
    apply Nat.ltb_lt in H1, H2. auto. }
  set (queue1 := if cl then (alo, i, blo, j) :: queue else queue).
  assert (Hq1 : passes queue1 <= passes queue + (if cl then 2 * (i - alo) + 1 else 0)).
  { subst queue1. destruct cl; [rewrite passes_cons|]; lia. }
  destruct (Hopt cr (i + k) ahi (j + k) bhi queue1 (acc ++ [x]) fuel)
    as (bR & fR & ER & HfR & HR).
  { intros H. destruct (Hcr H). lia. }
  { destruct cr eqn:Ecr; [rewrite passes_cons; destruct (Hcr eq_refl)|];
      destruct cl eqn:Ecl; try destruct (Hcl eq_refl); lia. }
  destruct (Hopt cl alo i blo j queue ((acc ++ [x]) ++ bR) fR)
    as (bL & fL & EL & HfL & HL).
  { intros H. destruct (Hcl H). lia. }
  { exact HfR. }
  exists (x :: bR ++ bL), fL.
  split.
  { fold queue1. rewrite ER. fold queue1 in EL. rewrite EL.
    f_equal. rewrite <- !app_assoc. reflexivity. }
  split; [exact HfL|].
  assert (SR : sizes bR <= ahi - (i + k) /\ sizes bR <= bhi - (j + k)
               /\ (sizes bR = ahi - (i + k) -> sizes bR = bhi - (j + k) ->
                   forall t, t < sizes bR ->
                             Difflib.same_at elt_eqb a b (i + k + t) (j + k + t) = true)).
  { destruct cr; [exact HR|]. subst bR. change (sizes []) with 0.
    repeat split; intros; lia. }
  assert (SL : sizes bL <= i - alo /\ sizes bL <= j - blo
               /\ (sizes bL = i - alo -> sizes bL = j - blo ->
                   forall t, t < sizes bL ->
                             Difflib.same_at elt_eqb a b (alo + t) (blo + t) = true)).
  { destruct cl; [exact HL|]. subst bL. change (sizes []) with 0.
    repeat split; intros; lia. }
  destruct SR as (R1 & R2 & R3), SL as (L1 & L2 & L3).
  cbn [range_ok]. rewrite sizes_cons, sizes_app. fold k.
  split; [lia|]. split; [lia|].
  intros Fa Fb t Ht.
  assert (EL1 : sizes bL = i - alo) by lia.
  assert (EL2 : sizes bL = j - blo) by lia.
  assert (ER1 : sizes bR = ahi - (i + k)) by lia.
  assert (ER2 : sizes bR = bhi - (j + k)) by lia.
  destruct (Nat.lt_ge_cases t (sizes bL)) as [Ht1|Ht1]; [now apply L3|].
  destruct (Nat.lt_ge_cases t (sizes bL + k)) as [Ht2|Ht2].
  - replace (alo + t) with (i + (t - sizes bL)) by lia.
    replace (blo + t) with (j + (t - sizes bL)) by lia.
    apply X5. lia.
  - replace (alo + t) with (i + k + (t - sizes bL - k)) by lia.
    replace (blo + t) with (j + k + (t - sizes bL - k)) by lia.
    apply R3; auto. lia.
Qed.

(** The matching blocks of [a] and [b] hold at most as many elements as
    either sequence, and as many as both only when the sequences are
    equal. *)
Lemma get_matching_blocks_ok :
  sizes (Difflib.get_matching_blocks elt_eqb a b) <= List.length a
  /\ sizes (Difflib.get_matching_blocks elt_eqb a b) <= List.length b
  /\ (sizes (Difflib.get_matching_blocks elt_eqb a b) = List.length a ->
      sizes (Difflib.get_matching_blocks elt_eqb a b) = List.length b -> a = b).
Proof.
  unfold Difflib.get_matching_blocks.
  destruct (blocks_loop_range (2 * List.length a + 1) 0 (List.length a) 0 (List.length b)
              [] [] (2 * List.length a + 1))
    as (blocks & fuel' & E & _ & H1 & H2 & H3); try lia.
  { rewrite passes_cons. change (passes []) with 0. lia. }
  rewrite E. replace (Difflib.blocks_loop elt_eqb a b fuel' [] ([] ++ blocks)) with blocks
    by now destruct fuel'.
  rewrite !Nat.sub_0_r in *. split; [exact H1|]. split; [exact H2|].
  intros Fa Fb. specialize (H3 Fa Fb).
  apply nth_error_ext. intros t.
  destruct (Nat.lt_ge_cases t (sizes blocks)) as [Ht|Ht].
  - specialize (H3 t Ht). cbn [Nat.add] in H3. unfold Difflib.same_at in H3.
    destruct (nth_error a t) as [x|], (nth_error b t) as [y|]; try discriminate.
    apply elt_eqb_eq in H3. now subst.
  - rewrite (proj2 (nth_error_None a t)) by lia.
    rewrite (proj2 (nth_error_None b t)) by lia. reflexivity.
Qed.

End MatchingBlocksOk.

(** ** [ratio] *)

Lemma calculate_ratio_bounds matches length :
  2 * matches <= length ->
  (0 <= Difflib.calculate_ratio matches length <= 1)%Q.
Proof.
  intros H. unfold Difflib.calculate_ratio.
  destruct (Nat.eqb_spec length 0) as [E|E]; [split; discriminate|].
  assert (Hl : (0 < inject_Z (Z.of_nat length))%Q)
    by (rewrite <- (Zlt_Qlt 0); lia).
  split.
  - apply Qle_shift_div_l; [exact Hl|]. rewrite Qmult_0_l.
    rewrite <- (Zle_Qle 0). lia.
  - apply Qle_shift_div_r; [exact Hl|]. rewrite Qmult_1_l.
    rewrite <- Zle_Qle. lia.
Qed.

Lemma calculate_ratio_one matches length :
  2 * matches <= length ->
  (1 <= Difflib.calculate_ratio matches length)%Q -> 2 * matches = length.
Proof.
  intros H. unfold Difflib.calculate_ratio.
  destruct (Nat.eqb_spec length 0) as [E|E]; [lia|].
  assert (Hl : (0 < inject_Z (Z.of_nat length))%Q)
    by (rewrite <- (Zlt_Qlt 0); lia).
  intros H1. apply (Qmult_le_r _ _ _ Hl) in H1.
  rewrite Qmult_1_l in H1. unfold Qdiv in H1.
  rewrite <- Qmult_assoc, (Qmult_comm (/ _)), Qmult_inv_r, Qmult_1_r in H1
    by (intros Hz; rewrite Hz in Hl; discriminate).
  rewrite <- Zle_Qle in H1. lia.
Qed.

Section Ratio.

Context {A : Type} (elt_eqb : A -> A -> bool).
Hypothesis elt_eqb_eq : forall x y, elt_eqb x y = true <-> x = y.

(** A similarity ratio lies between 0 and 1. *)
Lemma ratio_bounds a b : (0 <= Difflib.ratio elt_eqb a b <= 1)%Q.
Proof.
  unfold Difflib.ratio. apply calculate_ratio_bounds.
  destruct (get_matching_blocks_ok elt_eqb a b elt_eqb_eq) as (H1 & H2 & _).
  unfold sizes in *. lia.
Qed.

(** Only equal sequences have ratio 1. *)
Lemma ratio_one a b : (1 <= Difflib.ratio elt_eqb a b)%Q -> a = b.
Proof.
  unfold Difflib.ratio. intros H.
  destruct (get_matching_blocks_ok elt_eqb a b elt_eqb_eq) as (H1 & H2 & H3).
  unfold sizes in *. apply calculate_ratio_one in H; [|lia].
  apply H3; lia.
Qed.

End Ratio.

Lemma N_eqb_eq x y : N.eqb x y = true <-> x = y.
Proof. apply N.eqb_eq. Qed.

Lemma Qgt_bool_lt x y : Difflib.Qgt_bool x y = true <-> (y < x)%Q.
Proof.
  unfold Difflib.Qgt_bool. rewrite negb_true_iff. split.
  - intros H. apply Qnot_le_lt. intros Hle. apply Qle_bool_iff in Hle. congruence.
  - intros H. destruct (Qle_bool x y) eqn:E; [|reflexivity].
    apply Qle_bool_iff in E. elim (Qlt_not_le _ _ H E).
Qed.

Lemma Qgt_bool_le x y : Difflib.Qgt_bool x y = false <-> (x <= y)%Q.
Proof.
  unfold Difflib.Qgt_bool. rewrite negb_false_iff. apply Qle_bool_iff.
Qed.

(** ** [find_best_match]: the first key with the largest ratio *)

Lemma best_match_loop_first ks e :
  forall bm br bm' br',
    best_match_loop ks e bm br = (bm', br') ->
    (br <= br')%Q
    /\ (forall k, In k ks -> (Difflib.ratio N.eqb k e <= br')%Q)
    /\ ((bm' = bm /\ br' = br)
        \/ exists before key after,
             ks = before ++ key :: after
             /\ bm' = Some key /\ br' = Difflib.ratio N.eqb key e
             /\ (br < br')%Q
             /\ forall k, In k before -> (Difflib.ratio N.eqb k e < br')%Q).
Proof.
  induction ks as [|key ks IH]; intros bm br bm' br' H; cbn [best_match_loop] in H.
  - inversion H; subst. split; [apply Qle_refl|]. split; [contradiction|now left].
  - destruct (Difflib.Qgt_bool (Difflib.ratio N.eqb key e) br) eqn:E.
    + apply Qgt_bool_lt in E.
      destruct (IH _ _ _ _ H) as (H1 & H2 & H3).
      split; [apply Qlt_le_weak; eapply Qlt_le_trans; eauto|].
      split; [intros k [<-|Hk]; auto|].
      right. destruct H3 as [[-> ->]|(before & key' & after & -> & -> & -> & H4 & H5)].
      * exists [], key, ks. repeat split; auto. contradiction.
      * exists (key :: before), key', after. repeat split; auto.
        -- eapply Qlt_trans; eauto.
        -- intros k [<-|Hk]; auto.
    + apply Qgt_bool_le in E.
      destruct (IH _ _ _ _ H) as (H1 & H2 & H3).
      split; [exact H1|].
      split; [intros k [<-|Hk]; [eapply Qle_trans; eauto|auto]|].
      destruct H3 as [[-> ->]|(before & key' & after & -> & -> & -> & H4 & H5)];
        [now left|right].
      exists (key :: before), key', after. repeat split; auto.
      intros k [<-|Hk]; auto. eapply Qle_lt_trans; eauto.
Qed.

(** X14.  [find_best_match] returns the first key whose ratio with the
    expected name is the largest, with that ratio, which lies above 0 and is
    at most 1. It returns no key, with ratio 0, exactly when there is no key
    or every key has ratio 0. *)
Theorem find_best_match_first_largest :
  forall keys expected_module best_match best_ratio,
    find_best_match keys expected_module = (best_match, best_ratio) ->
    (0 <= best_ratio <= 1)%Q
    /\ (forall key, In key keys ->
          (Difflib.ratio N.eqb key (of_str expected_module) <= best_ratio)%Q)
    /\ match best_match with
       | None => best_ratio = 0%Q
       | Some key =>
           exists before after,
             keys = before ++ key :: after
             /\ best_ratio = Difflib.ratio N.eqb key (of_str expected_module)
             /\ (0 < best_ratio)%Q
             /\ forall k, In k before ->
                  (Difflib.ratio N.eqb k (of_str expected_module) < best_ratio)%Q
       end.
Proof.
  intros keys e bm br H. unfold find_best_match in H.
  destruct (best_match_loop_first _ _ _ _ _ _ H) as (H1 & H2 & H3).
  split; [|split; [exact H2|]].
  - split; [exact H1|].
    destruct H3 as [[_ ->]|(before & key & after & _ & _ & -> & _)]; [discriminate|].
    apply (ratio_bounds N.eqb N_eqb_eq).
  - destruct H3 as [[-> ->]|(before & key & after & -> & -> & -> & H4 & H5)];
      [reflexivity|].
    exists before, after. auto.
Qed.

Lemma find_best_match_first_largest_witness :
  (0 <= Difflib.ratio N.eqb (of_str "directives") (of_str "directive") <= 1)%Q.
Proof.
  refine (proj1 (find_best_match_first_largest
                   [of_str "role"; of_str "directives"; of_str "direct"] "directive"
                   (Some (of_str "directives"))
                   (Difflib.ratio N.eqb (of_str "directives") (of_str "directive")) _)).
  vm_compute. reflexivity.
Defined.

(** An expected name that is itself among the keys is the key chosen. *)
Lemma find_best_match_exact keys e :
  In (of_str e) keys ->
  (1 <= Difflib.ratio N.eqb (of_str e) (of_str e))%Q ->
  find_best_match keys e
  = (Some (of_str e), Difflib.ratio N.eqb (of_str e) (of_str e)).
Proof.
  intros Hin Hone.
  destruct (find_best_match keys e) as [bm br] eqn:E. unfold find_best_match in E.
  destruct (best_match_loop_first _ _ _ _ _ _ E) as (_ & H2 & H3).
  pose proof (H2 _ Hin) as Hle.
  destruct H3 as [[-> ->]|(before & key & after & _ & -> & -> & _ & _)].
  - exfalso. apply (Qle_not_lt _ _ (Qle_trans _ _ _ Hone Hle)). reflexivity.
  - assert (key = of_str e)
      by (apply (ratio_one N.eqb N_eqb_eq); eapply Qle_trans; eauto).
    now subst key.
Qed.

(** * Further properties of [code/component_identification.py] *)

(** ** [validate_and_clean_response] *)

Lemma expected_ratio_one e :
  In e EXPECTED_COMPONENTS -> (1 <= Difflib.ratio N.eqb (of_str e) (of_str e))%Q.
Proof.
  intros H. apply Qle_bool_iff. cbn in H.
  repeat (destruct H as [<-|H]; [vm_compute; reflexivity|]). contradiction.
Qed.

Lemma expected_truthy e : In e EXPECTED_COMPONENTS -> truthy (Some (of_str e)) = true.
Proof.
  intros H. cbn in H.
  repeat (destruct H as [<-|H]; [reflexivity|]). contradiction.
Qed.

Lemma chosen_value_exact parsed e v :
  In e EXPECTED_COMPONENTS ->
  dict_get parsed (of_str e) = Some v ->
  chosen_value parsed default_similarity_threshold e = v.
Proof.
  intros He Hv. unfold chosen_value.
  assert (Hin : In (of_str e) (map fst parsed)).
  { apply dict_get_some in Hv. apply in_map_iff. exists (of_str e, v). auto. }
  rewrite (find_best_match_exact _ _ Hin (expected_ratio_one e He)).
  rewrite (expected_truthy e He), Hv. cbn [andb].
  replace (Difflib.Qgt_bool _ default_similarity_threshold) with true; [reflexivity|].
  symmetry. apply Qgt_bool_lt.
  eapply Qlt_le_trans; [|exact (expected_ratio_one e He)]. reflexivity.
Qed.

(** X16.  A response object that has an expected name among its keys (in lower
    case, as the decoding sees it) keeps the value of that key under that
    name, whatever other keys it has and in whatever order. *)
Theorem validate_keeps_exact_keys :
  forall response parsed,
    loads (Str.lower response) = Ret (Obj parsed) ->
    exists cleaned,
      validate_and_clean_response response default_similarity_threshold
      = Ret (dumps (Obj cleaned))
      /\ forall e v,
           In e EXPECTED_COMPONENTS ->
           dict_get parsed (of_str e) = Some v ->
           dict_get cleaned (of_str e) = Some v.
Proof.
  intros response parsed Hl.
  exists (cleaned_pairs parsed default_similarity_threshold).
  split; [now apply validate_object|].
  intros e v He Hv. rewrite cleaned_pairs_get by exact He.
  f_equal. now apply chosen_value_exact.
Qed.

Lemma validate_keeps_exact_keys_witness :
  exists cleaned,
    validate_and_clean_response
      (object_text [("Note", "x"); ("Others", "Keep It"); ("Directive", "Sort")])
      default_similarity_threshold
    = Ret (dumps (Obj cleaned))
    /\ dict_get cleaned (of_str "others") = Some (Str (of_str "keep it")).
Proof.
  destruct (validate_keeps_exact_keys
              (object_text [("Note", "x"); ("Others", "Keep It"); ("Directive", "Sort")])
              [(of_str "note", Str (of_str "x"));
               (of_str "others", Str (of_str "keep it"));
               (of_str "directive", Str (of_str "sort"))])
    as (cleaned & Hv & Hk).
  - vm_compute. reflexivity.
  - exists cleaned. split; [exact Hv|].
    apply (Hk "others"); [cbn; tauto|reflexivity].
Defined.

Lemma chosen_value_strict parsed thr e :
  (1 <= thr)%Q -> chosen_value parsed thr e = Str [].
Proof.
  intros Hthr. unfold chosen_value.
  destruct (find_best_match (map fst parsed) e) as [bm br] eqn:E.
  unfold find_best_match in E.
  destruct (best_match_loop_first _ _ _ _ _ _ E) as (_ & _ & H3).
  replace (Difflib.Qgt_bool br thr) with false; [now rewrite andb_false_r|].
  symmetry. apply Qgt_bool_le.
  destruct H3 as [[_ ->]|(before & key & after & _ & _ & -> & _)].
  - eapply Qle_trans; [|exact Hthr]. discriminate.
  - eapply Qle_trans; [|exact Hthr]. apply (ratio_bounds N.eqb N_eqb_eq).
Qed.

(** X17.  With a threshold of 1 or more no key is ever similar enough, not
    even an identical one: every response that is not JSON or decodes to an
    object gives the all-empty default. *)
Theorem validate_threshold_at_least_one :
  forall response similarity_threshold,
    (1 <= similarity_threshold)%Q ->
    (loads (Str.lower response) = Raise JSONDecodeError
     \/ exists parsed, loads (Str.lower response) = Ret (Obj parsed)) ->
    validate_and_clean_response response similarity_threshold = Ret get_default_response.
Proof.
  intros response thr Hthr [Hl|[parsed Hl]].
  - now apply validate_decode_error.
  - rewrite (validate_object _ _ _ Hl).
    change get_default_response with (dumps (Obj default_pairs)).
    do 3 f_equal. unfold cleaned_pairs, default_pairs.
    apply map_ext. intros e. now rewrite chosen_value_strict.
Qed.

Lemma validate_threshold_at_least_one_witness :
  validate_and_clean_response (object_text [("directive", "sort the list")]) 1
  = Ret get_default_response.
Proof.
  apply validate_threshold_at_least_one; [discriminate|].
  right. eexists. vm_compute. reflexivity.
Defined.

Lemma lower_char_idempotent c : Str.lower_char (Str.lower_char c) = Str.lower_char c.
Proof. destruct c as [[] [] [] [] [] [] [] []]; reflexivity. Qed.

Lemma lower_idempotent s : Str.lower (Str.lower s) = Str.lower s.
Proof.
  induction s as [|c s IH]; [reflexivity|].
  cbn [Str.lower]. now rewrite lower_char_idempotent, IH.
Qed.

(** X18.  The result depends on the response only through its lower-cased
    text: a response and its lower-cased form are treated alike, with any
    threshold. *)
Theorem validate_ignores_case :
  forall response similarity_threshold,
    validate_and_clean_response (Str.lower response) similarity_threshold
    = validate_and_clean_response response similarity_threshold.
Proof.
  intros response thr. unfold validate_and_clean_response.
  now rewrite lower_idempotent.
Qed.

(** ** [component_detection] *)



(** X21.  On a rate-limit failure whose message gives a wait the service can
    be asked for again after, [component_detection] pauses for exactly that
    long and returns the default response, after its one request. *)
Theorem detection_waits_as_told :
  forall prompt client w error_message piece wait_time,
    client (calls w) = Failure error_message ->
    Str.contains "429" error_message
    || Str.contains "Rate limit reached" error_message = true ->
    wait_text error_message = Ret piece ->
    float_of_string piece = Ret (Finite wait_time) ->
    (0 <= wait_time <= 1000000000)%Q ->
    component_detection prompt client w
    = (Ret get_default_response, World (S (calls w)) (slept w ++ [wait_time])).
Proof.
  intros prompt client w msg piece q Hc Hrate Hpiece Hfloat [Hq _].
  unfold component_detection, try_except, bind, create, lift.
  rewrite Hc. cbn [any_exception message]. rewrite Hrate.
  unfold wait_text in Hpiece.
  destruct (last_item (Str.split "in " msg)) as [after|e1]; [|discriminate].
  rewrite Hpiece, Hfloat. cbn [sleep].
  apply Qle_bool_iff in Hq. rewrite Hq. reflexivity.
Qed.

Lemma detection_waits_as_told_witness :
  component_detection "Sort {items}" (fun _ => Failure rate_limit_message) start
  = (Ret get_default_response, World 1 [(15 # 2)%Q]).
Proof.
  refine (detection_waits_as_told "Sort {items}" _ start rate_limit_message "7.5" (15 # 2)%Q
            eq_refl _ _ _ _).
  - vm_compute. reflexivity.
  - vm_compute. reflexivity.
  - vm_compute. reflexivity.
  - split; discriminate.
Defined.

Ltac settle_failure :=
  cbn [sleep is_IndexError is_ValueError orb calls slept fst snd];
  try change (Qle_bool 0 (inject_Z 60)) with true;
  cbv beta iota;
  match goal with
  | |- exists w', _ /\ _ /\ ((_, ?w1) = _ \/ _) /\ _ => exists w1
  end;
  split; [reflexivity|];
  split; [first [left; reflexivity|right; eexists; reflexivity]|];
  split; [first [left; reflexivity|right; eexists; reflexivity]|discriminate].

(** X23.  What a failed request comes to.  [component_detection] has made its
    one request and taken at most one pause; it returns the default
    response or raises, and it can only raise or pause when the message
    names 429 or a rate limit: on any other failure it returns the default
    response at once. *)
Theorem detection_on_failure :
  forall prompt client w error_message,
    client (calls w) = Failure error_message ->
    exists w',
      calls w' = S (calls w)
      /\ (slept w' = slept w \/ exists secs, slept w' = slept w ++ [secs])
      /\ (component_detection prompt client w = (Ret get_default_response, w')
          \/ exists e, component_detection prompt client w = (Raise e, w'))
      /\ (Str.contains "429" error_message
          || Str.contains "Rate limit reached" error_message = false ->
          component_detection prompt client w = (Ret get_default_response, made_call w)).
Proof.
  intros prompt client w msg Hc.
  unfold component_detection, try_except, bind, create, lift.
  rewrite Hc. cbn [any_exception message].
  destruct (Str.contains "429" msg || Str.contains "Rate limit reached" msg).
  - unfold component_detection_prompt_only, raise, ret.
    destruct (last_item (Str.split "in " msg)) as [after|e1].
    + destruct (first_item (Str.split "s" after)) as [before|e2].
      * destruct (float_of_string before) as [[|negative|q]|e3]; cbn [sleep].
        -- settle_failure.
        -- settle_failure.
        -- destruct (Qle_bool 0 q); settle_failure.
        -- destruct (is_IndexError e3 || is_ValueError e3); settle_failure.
      * destruct (is_IndexError e2 || is_ValueError e2); settle_failure.
    + destruct (is_IndexError e1 || is_ValueError e1); settle_failure.
  - exists (made_call w). unfold ret, made_call. cbn [calls slept]. auto.
Qed.

Lemma detection_on_failure_witness :
  exists w',
    calls w' = 1
    /\ (component_detection "Sort {items}" (fun _ => Failure "Connection error.") start
        = (Ret get_default_response, w')
        \/ exists e,
             component_detection "Sort {items}" (fun _ => Failure "Connection error.") start
             = (Raise e, w')).
Proof.
  destruct (detection_on_failure "Sort {items}" (fun _ => Failure "Connection error.")
              start "Connection error." eq_refl) as (w' & H1 & _ & H3 & _).
  exists w'. split; [exact H1|exact H3].
Defined.



(** ** [detect_component_with_retry] *)

Lemma attempt_unusable prompt client w :
  unusable client (calls w) ->
  exists w', attempt prompt client get_default_response w = (Ret None, w')
             /\ calls w' = S (calls w)
             /\ ((exists text, client (calls w) = Content text) -> slept w' = slept w).
Proof.
  intros Hu.
  assert (Hc : forall text, client (calls w) = Content text ->
                            attempt prompt client get_default_response w
                            = (Ret None, made_call w)).
  { intros text Hc. destruct (loads (Str.lower text)) as [v|e] eqn:Hl.
    - destruct (object_or_not v) as [[parsed ->]|Hv].
      + apply (attempt_default _ _ _ _ _ Hc Hl).
        destruct (String.eqb
                    (dumps (Obj (cleaned_pairs parsed default_similarity_threshold)))
                    get_default_response) eqn:E.
        * apply cleaned_is_default in E; [exact E|exact (loads_wf _ _ Hl)].
        * exfalso. apply (Hu (cleaned_pairs parsed default_similarity_threshold)).
          exists text, parsed. repeat split; auto.
          intros H. rewrite H in E.
          change (dumps (Obj default_pairs)) with get_default_response in E.
          now rewrite String.eqb_refl in E.
      + exact (attempt_not_object _ _ _ _ _ Hc Hl Hv).
    - pose proof (loads_raise _ _ Hl) as ->.
      exact (attempt_decode_error _ _ _ _ Hc Hl). }
  destruct (client (calls w)) as [text|msg] eqn:Hcl.
  - exists (made_call w). rewrite (Hc text eq_refl). auto.
  - destruct (attempt_failure prompt client w msg Hcl) as (w' & Ha & Hw).
    exists w'. repeat split; auto. intros [text Ht]. discriminate.
Qed.

Lemma attempt_usable prompt client w cleaned :
  usable client (calls w) cleaned ->
  attempt prompt client get_default_response w = (Ret (Some (Obj cleaned)), made_call w).
Proof.
  intros (text & parsed & Hc & Hl & -> & Hd). now apply (attempt_success _ _ _ text).
Qed.

Lemma retry_loop_first_usable prompt client max_retries cleaned :
  forall k fuel retries w,
    (retries + Z.of_nat k < max_retries)%Z -> k < fuel ->
    (forall j, j < k -> unusable client (calls w + j)) ->
    usable client (calls w + k) cleaned ->
    exists w',
      retry_loop fuel prompt client get_default_response retries max_retries w
      = (Ret (Some (Obj cleaned)), w')
      /\ calls w' = calls w + k + 1.
Proof.
  induction k as [|k IH]; intros fuel retries w Hr Hf Hbefore Hk;
    (destruct fuel as [|fuel]; [lia|]); cbn [retry_loop];
    (destruct (Z.ltb_spec retries max_retries); [|lia]); unfold bind at 1.
  - rewrite Nat.add_0_r in Hk. rewrite (attempt_usable _ _ _ _ Hk).
    exists (made_call w). split; [reflexivity|]. unfold made_call; cbn [calls]. lia.
  - destruct (attempt_unusable prompt client w) as (w1 & Ha & Hw & _).
    { specialize (Hbefore 0 ltac:(lia)). now rewrite Nat.add_0_r in Hbefore. }
    rewrite Ha.
    destruct (IH fuel (retries + 1)%Z w1) as (w' & Hl & Hc); [lia|lia| | |].
    + intros j Hj. rewrite Hw. replace (S (calls w) + j) with (calls w + S j) by lia.
      apply Hbefore. lia.
    + rewrite Hw. now replace (S (calls w) + k) with (calls w + S k) by lia.
    + exists w'. split; [exact Hl|lia].
Qed.

(** X24.  The orchestrator returns the cleaned map of the first usable answer
    and stops there: if the requests before the k-th bring nothing usable
    (a failure, a text that is not a JSON object, or an object whose
    cleaned map is all empty) and the k-th does, with k below the bound,
    exactly k + 1 requests are made. *)
Theorem retry_returns_first_usable :
  forall prompt client max_retries w k cleaned,
    (Z.of_nat k < max_retries)%Z ->
    (forall j, j < k -> unusable client (calls w + j)) ->
    usable client (calls w + k) cleaned ->
    exists w',
      detect_component_with_retry prompt client max_retries w
      = (Ret (Some (Obj cleaned)), w')
      /\ calls w' = calls w + k + 1.
Proof.
  intros prompt client max_retries w k cleaned Hk Hbefore Huse.
  unfold detect_component_with_retry.
  apply retry_loop_first_usable; auto; lia.
Qed.

Lemma retry_returns_first_usable_witness :
  exists cleaned w',
    detect_component_with_retry "Sort {items}"
      (fun k => match k with
                | 0 => Content "[]"
                | 1 => Content "{}"
                | _ => Content sample_reply
                end)
      default_max_retries start
    = (Ret (Some (Obj cleaned)), w')
    /\ calls w' = 3.
Proof.
  eexists.
  refine (retry_returns_first_usable "Sort {items}" _ default_max_retries start 2 _ _ _ _).
  - reflexivity.
  - intros j Hj cleaned (text & parsed & Hc & Hl & Hcl & Hd).
    destruct j as [|[|j]]; [| |lia]; cbn in Hc; injection Hc as <-.
    + vm_compute in Hl. discriminate.
    + vm_compute in Hl. injection Hl as <-. apply Hd. subst cleaned. reflexivity.
  - exists sample_reply. eexists. split; [reflexivity|].
    split; [vm_compute; reflexivity|]. split; [reflexivity|].
    intros H. vm_compute in H. discriminate.
Defined.

Lemma retry_loop_all_unusable prompt client max_retries :
  forall fuel retries w,
    (max_retries - retries <= Z.of_nat fuel)%Z ->
    (forall j, (Z.of_nat j < max_retries - retries)%Z -> unusable client (calls w + j)) ->
    exists w',
      retry_loop fuel prompt client get_default_response retries max_retries w
      = (Ret (Some (Obj default_pairs)), w')
      /\ calls w' = calls w + Z.to_nat (max_retries - retries)
      /\ ((forall j, exists text, client (calls w + j) = Content text) ->
          slept w' = slept w).
Proof.
  induction fuel as [|fuel IH]; intros retries w Hfuel Hall; cbn [retry_loop];
    destruct (Z.ltb_spec retries max_retries); try lia.
  - exists w. unfold bind, lift, ret. rewrite loads_default.
    split; [reflexivity|]. split; [lia|auto].
  - unfold bind at 1.
    destruct (attempt_unusable prompt client w) as (w1 & Ha & Hw & Hs).
    { specialize (Hall 0 ltac:(lia)). now rewrite Nat.add_0_r in Hall. }
    rewrite Ha.
    destruct (IH (retries + 1)%Z w1) as (w' & Hl & Hc & Hs'); [lia| |].
    + intros j Hj. rewrite Hw. replace (S (calls w) + j) with (calls w + S j) by lia.
      apply Hall. lia.
    + exists w'. split; [exact Hl|]. split; [lia|].
      intros Hcontent. rewrite Hs'.
      * apply Hs. specialize (Hcontent 0). now rewrite Nat.add_0_r in Hcontent.
      * intros j. rewrite Hw. replace (S (calls w) + j) with (calls w + S j) by lia.
        apply Hcontent.
  - exists w. unfold bind, lift, ret. rewrite loads_default.
    split; [reflexivity|]. split; [lia|auto].
Qed.



(** ** Answers that are JSON but bring nothing *)

(** X20.  [component_detection] absorbs the exception
    [validate_and_clean_response] raises on an answer that is JSON but not
    an object: it returns the default response, after its one request and
    without a pause. *)
Theorem detection_absorbs_non_object :
  forall prompt client w text v,
    client (calls w) = Content text ->
    loads (Str.lower text) = Ret v ->
    (forall parsed, v <> Obj parsed) ->
    component_detection prompt client w = (Ret get_default_response, made_call w).
Proof.
  intros prompt client w text v Hc Hl Hv.
  exact (detection_content_raise _ _ _ _ _ Hc (validate_not_object _ _ _ Hl Hv)).
Qed.

Lemma detection_absorbs_non_object_witness :
  component_detection "Sort {items}" (fun _ => Content "null") start
  = (Ret get_default_response, World 1 []).
Proof.
  refine (detection_absorbs_non_object "Sort {items}" _ start "null" Null eq_refl _ _).
  - vm_compute. reflexivity.
  - discriminate.
Defined.

Lemma chosen_value_all_empty parsed thr e :
  (forall k v, In (k, v) parsed -> v = Str []) -> chosen_value parsed thr e = Str [].
Proof.
  intros H. destruct (chosen_value_origin parsed thr e) as [E|[key E]]; [exact E|].
  apply dict_get_some in E. exact (H _ _ E).
Qed.

(** X26.  An answer all of whose values are empty strings (the very structure
    the request shows, when the service finds nothing to fill in) is never
    accepted: the orchestrator asks again, and a service that keeps
    answering so is asked [max_retries] times before the all-empty map is
    returned. *)
Theorem retry_asks_again_on_empty_answer :
  forall prompt client max_retries w,
    (forall k, exists text parsed,
          client k = Content text
          /\ loads (Str.lower text) = Ret (Obj parsed)
          /\ forall key v, In (key, v) parsed -> v = Str []) ->
    detect_component_with_retry prompt client max_retries w
    = (Ret (Some (Obj default_pairs)),
       World (calls w + Z.to_nat max_retries) (slept w)).
Proof.
  intros prompt client max_retries w Hall. unfold detect_component_with_retry.
  destruct (retry_loop_all_unusable prompt client max_retries (Z.to_nat max_retries)
              0%Z w) as (w' & H1 & H2 & H3).
  - lia.
  - intros j _ cleaned (text & parsed & Hc & Hl & -> & Hd).
    destruct (Hall (calls w + j)) as (text' & parsed' & Hc' & Hl' & He).
    rewrite Hc in Hc'. injection Hc' as <-. rewrite Hl in Hl'.
    assert (parsed' = parsed) by congruence. subst parsed'.
    apply Hd. unfold cleaned_pairs, default_pairs. apply map_ext.
    intros e. now rewrite chosen_value_all_empty.
  - rewrite H1. f_equal. rewrite Z.sub_0_r in H2.
    destruct w' as [c s]. cbn [calls slept] in *. f_equal; [exact H2|].
    apply H3. intros j. destruct (Hall (calls w + j)) as (text & _ & Hc & _). eauto.
Qed.

Lemma retry_asks_again_on_empty_answer_witness :
  detect_component_with_retry "Sort {items}" (fun _ => Content get_default_response)
    default_max_retries start
  = (Ret (Some (Obj default_pairs)), World 3 []).
Proof.
  refine (retry_asks_again_on_empty_answer "Sort {items}" _ default_max_retries start _).
  intros k. exists get_default_response, default_pairs.
  split; [reflexivity|]. split; [vm_compute; reflexivity|].
  intros key v Hin. now apply default_pairs_values in Hin.
Defined.

(** * The two entry points *)

(** X27.  [main] of the component file stops with a [ValueError], before any
    request, when the key is unset or empty.  With a key it never raises,
    whatever the service does: it makes at most three requests and prints
    the heading and the indented map, which has exactly the 8 expected
    keys. *)
Theorem component_main_runs :
  (forall API_KEY prompt client w,
      unset API_KEY = true ->
      ComponentIdentification.main API_KEY prompt client w
      = (Raise (ValueError "Please set the GROQ_API_KEY environment variable."), w))
  /\ (forall API_KEY prompt client w,
        unset API_KEY = false ->
        exists pairs w',
          ComponentIdentification.main API_KEY prompt client w
          = (Ret ["Detected Components:"; dumps_indent 0 (Obj pairs)], w')
          /\ map fst pairs = map of_str EXPECTED_COMPONENTS
          /\ calls w <= calls w' <= calls w + 3).
Proof.
  split.
  - intros key prompt client w Hk. unfold ComponentIdentification.main.
    now rewrite Hk.
  - intros key prompt client w Hk. unfold ComponentIdentification.main.
    rewrite Hk. unfold bind, detect_component_with_retry.
    destruct (retry_loop_spec prompt client default_max_retries
                (Z.to_nat default_max_retries) 0%Z w)
      as (pairs & w' & H1 & H2 & H3 & H4); [reflexivity|].
    rewrite H1. exists pairs, w'. split; [reflexivity|].
    split.
    + destruct H4 as [->|(text & parsed & _ & _ & _ & ->)];
        [reflexivity|apply cleaned_pairs_keys].
    + change (Z.max 0 (default_max_retries - 0)) with 3%Z in H3. lia.
Qed.

Lemma component_main_runs_witness :
  ComponentIdentification.main None "Sort {items}" (fun _ => Content sample_reply) start
  = (Raise (ValueError "Please set the GROQ_API_KEY environment variable."), start)
  /\ exists pairs w',
       ComponentIdentification.main (Some "gsk_key") "Sort {items}"
         (fun _ => Content sample_reply) start
       = (Ret ["Detected Components:"; dumps_indent 0 (Obj pairs)], w')
       /\ map fst pairs = map of_str EXPECTED_COMPONENTS
       /\ calls start <= calls w' <= calls start + 3.
Proof.
  split.
  - apply (proj1 component_main_runs). reflexivity.
  - apply (proj2 component_main_runs). reflexivity.
Defined.

(** X13.  [main] of the placeholder file stops with a [ValueError], before any
    request, when the key is unset or empty.  With a key it never raises:
    it makes one request for each placeholder found and prints the
    template and the indented list of the records, which is [[]] for a
    template without placeholders. *)
Theorem placeholder_main_runs :
  (forall API_KEY prompt_template client w,
      unset API_KEY = true ->
      PlaceholderIdentification.main API_KEY prompt_template client w
      = (Raise (ValueError "Please set the OPENAI_API_KEY environment variable."), w))
  /\ (forall API_KEY prompt_template client w,
        unset API_KEY = false ->
        exists records,
          PlaceholderIdentification.main API_KEY prompt_template client w
          = (Ret [("Prompt template: " ++ prompt_template)%string;
                  dumps_indent 0 (Arr (map record_json records))],
             World (calls w + List.length (detect_placeholder prompt_template)) (slept w))
          /\ map placeholder records = detect_placeholder prompt_template)
  /\ (forall API_KEY prompt_template client w,
        unset API_KEY = false ->
        detect_placeholder prompt_template = [] ->
        PlaceholderIdentification.main API_KEY prompt_template client w
        = (Ret [("Prompt template: " ++ prompt_template)%string; "[]"], w)).
Proof.
  split; [|split].
  - intros key t client w Hk. unfold PlaceholderIdentification.main. now rewrite Hk.
  - intros key t client w Hk. unfold PlaceholderIdentification.main. rewrite Hk.
    unfold bind, identify_placeholders.
    set (positions := calculate_relative_word_positions t (detect_placeholder t)).
    destruct (classify_loop_spec t client positions w) as (records & Hr & Hm & _).
    rewrite Hr. exists records. split.
    + unfold ret. do 2 f_equal. subst positions.
      now rewrite positions_of_detected_length.
    + rewrite <- (positions_of_detected_keys t). fold positions. rewrite <- Hm.
      now rewrite map_map.
  - intros key t client w Hk Hd. unfold PlaceholderIdentification.main. rewrite Hk.
    unfold bind, identify_placeholders. rewrite Hd.
    cbn. now destruct w.
Qed.

Lemma placeholder_main_runs_witness :
  PlaceholderIdentification.main (Some "sk_key") "Write a short poem."
    (fun _ => Content "Others") start
  = (Ret ["Prompt template: Write a short poem."; "[]"], start).
Proof.
  apply (proj2 (proj2 placeholder_main_runs) (Some "sk_key") "Write a short poem.");
    reflexivity.
Defined.
